(** * fireorm: metadata registry and collection query layer

    A shallow embedding of
      - packages/fireorm/src/metadata-storage.ts  (class MetadataStorage)
      - the CollectionQuery class (query facade: find, findAndToken,
        findByToken, findOne, findOneOrFail, findByIds, loadRelations)
    together with the properties stated about them.

    JavaScript values are an inductive type, objects are association lists
    in key order, thrown errors and rejected promises are the [Err] case of
    a result type, and the calls issued against the injected Firestore
    client are recorded in a request trace. *)

From Stdlib Require Import List String Ascii ZArith Bool Arith Lia.
From Stdlib Require Import DecimalString.
Import ListNotations.

Local Open Scope string_scope.
Local Open Scope list_scope.

Set Warnings "-register-all".

(* ================================================================== *)
(** ** JavaScript values *)
(* ================================================================== *)

(** The values that document data, query conditions and token payloads
    are made of.  [VTimestamp], [VGeoPoint] and [VRef] are the Firestore
    classes Timestamp, GeoPoint and DocumentReference (a reference is
    identified by its path); [VDate] is a JavaScript Date.  Numbers are
    integers: the code only copies and compares them.  A [VObj] is a plain
    data map: its keys are in insertion order, and a map is assumed not to
    carry a field called toDate or constructor (the two probes
    convertToJsObject runs on a value). *)
Inductive Value : Type :=
| VUndefined
| VNull
| VBool (b : bool)
| VNum (n : Z)
| VStr (s : string)
| VDate (t : Z)
| VTimestamp (t : Z)
| VGeoPoint (latitude longitude : Z)
| VRef (path : string)
| VObj (fields : list (string * Value))
| VArr (items : list Value).

Definition Obj := list (string * Value).

(** JavaScript truthiness, as tested by [if (v)] and [!v]. *)
Definition truthy (v : Value) : bool :=
  match v with
  | VUndefined | VNull => false
  | VBool b => b
  | VNum n => negb (Z.eqb n 0)
  | VStr s => negb (String.eqb s "")
  | _ => true
  end.

(** The string of an optional field when the field is truthy (present
    and not empty). *)
Definition truthy_val (s : option string) : option string :=
  match s with
  | Some s => if String.eqb s "" then None else Some s
  | None => None
  end.

Definition truthy_num (n : option nat) : bool :=
  match n with
  | Some n => negb (Nat.eqb n 0)
  | None => false
  end.

(** [o[k]] on a plain object: the first binding of [k]. *)
Fixpoint assoc_get {A : Type} (k : string) (o : list (string * A)) : option A :=
  match o with
  | [] => None
  | (k', v) :: rest => if String.eqb k' k then Some v else assoc_get k rest
  end.

(** [o[k] = v]: an existing key keeps its place, a new key is appended. *)
Fixpoint assoc_set {A : Type} (k : string) (v : A) (o : list (string * A))
  : list (string * A) :=
  match o with
  | [] => [(k, v)]
  | (k', v') :: rest =>
      if String.eqb k' k then (k, v) :: rest else (k', v') :: assoc_set k v rest
  end.

Definition obj_get (k : string) (o : Obj) : option Value := assoc_get k o.
Definition obj_set (k : string) (v : Value) (o : Obj) : Obj := assoc_set k v o.

(** Structural equality of values (Firestore's [==] on field values). *)
Fixpoint Value_eqb (a b : Value) {struct a} : bool :=
  match a, b with
  | VUndefined, VUndefined => true
  | VNull, VNull => true
  | VBool x, VBool y => Bool.eqb x y
  | VNum x, VNum y => Z.eqb x y
  | VStr x, VStr y => String.eqb x y
  | VDate x, VDate y => Z.eqb x y
  | VTimestamp x, VTimestamp y => Z.eqb x y
  | VGeoPoint x1 x2, VGeoPoint y1 y2 => Z.eqb x1 y1 && Z.eqb x2 y2
  | VRef x, VRef y => String.eqb x y
  | VObj xs, VObj ys =>
      (fix fields_eqb (l1 l2 : list (string * Value)) : bool :=
         match l1, l2 with
         | [], [] => true
         | (k1, v1) :: r1, (k2, v2) :: r2 =>
             String.eqb k1 k2 && Value_eqb v1 v2 && fields_eqb r1 r2
         | _, _ => false
         end) xs ys
  | VArr xs, VArr ys =>
      (fix items_eqb (l1 l2 : list Value) : bool :=
         match l1, l2 with
         | [], [] => true
         | v1 :: r1, v2 :: r2 => Value_eqb v1 v2 && items_eqb r1 r2
         | _, _ => false
         end) xs ys
  | _, _ => false
  end.

(** JavaScript functions: class constructors and the arrow functions
    [() => C] that relation decorators store as a lazy type.  Two function
    values are [===] when they are the same function. *)
Inductive JsFunction : Type :=
| ClassCtor (name : string)
| ArrowFn (returns : JsFunction).

Fixpoint JsFunction_eqb (f g : JsFunction) : bool :=
  match f, g with
  | ClassCtor a, ClassCtor b => String.eqb a b
  | ArrowFn a, ArrowFn b => JsFunction_eqb a b
  | _, _ => false
  end.

(** [f.name]: a class has its name, an anonymous arrow function has ''. *)
Definition fn_name (f : JsFunction) : string :=
  match f with
  | ClassCtor n => n
  | ArrowFn _ => ""
  end.

(* ================================================================== *)
(** ** Errors *)
(* ================================================================== *)

(** The errors the two files throw, by their message, and the two kinds
    of error the runtime and the client raise on their own. *)
Inductive Error : Type :=
| CollectionNotFound                 (* Error("CollectionNotFound") *)
| IdPerpertyNotFound                 (* Error("IdPerpertyNotFound") *)
| EntityNotFound (entity : string)   (* Error(`Entity not found, entity: ...`) *)
| InvalidPaginationToken             (* Error('Invalid pagination token') *)
| FindByIdsNotSupportCollectionGroup (* Error('findByIds not support CollectionGroup') *)
| TypeError                          (* raised by the JavaScript runtime *)
| InvalidArgument.                   (* raised by the client on a bad argument *)

Inductive Res (A : Type) : Type :=
| Ok (a : A)
| Err (e : Error).
Arguments Ok {A} a.
Arguments Err {A} e.

Definition res_bind {A B} (r : Res A) (f : A -> Res B) : Res B :=
  match r with
  | Ok a => f a
  | Err e => Err e
  end.

(* ================================================================== *)
(** ** metadata-storage.ts *)
(* ================================================================== *)

(** CollectionOptions is declared in decorators/collection.decorator;
    the storage reads its [prefix] only. *)
Record CollectionOptions := {
  prefix : option string
}.

Record CollectionMetadataArgs := {
  c_name : string;
  c_target : JsFunction;
  c_options : CollectionOptions
}.

(** "uuid/v1" | 'uuid/v4' | 'auto' | (() => string) *)
Inductive Strategy : Type :=
| StrategyUuidV1
| StrategyUuidV4
| StrategyAuto
| StrategyFn (f : unit -> string).

Record IdPropertyMetadataArgs := {
  id_target : JsFunction;
  id_propertyName : string;
  id_strategy : Strategy;
  id_options : Obj
}.

Record PropertyMetadataArgs := {
  p_target : JsFunction;
  p_propertyName : string;
  p_type : Value;
  p_options : Obj
}.

Inductive RelationType := OneToMany | ManyToOne | OneToOne.

(** [r_type] is the lazy type of the relation, a function returning the
    related class.  [r_inverseSide] is the field the query layer reads as
    [relationMetadataArg.inverseSide!]; it is not part of the interface in
    metadata-storage.ts and is taken here as supplied by the decorator. *)
Record RelationMetadataArgs := {
  r_target : JsFunction;
  r_propertyName : string;
  r_relationType : RelationType;
  r_lazy : bool;
  r_type : JsFunction;
  r_inverseSide : string
}.

Record MetadataStorage := {
  collections : list CollectionMetadataArgs;
  ids : list IdPropertyMetadataArgs;
  properties : list PropertyMetadataArgs;
  relations : list RelationMetadataArgs
}.

(** [new MetadataStorage()] *)
Definition emptyStorage : MetadataStorage :=
  {| collections := []; ids := []; properties := []; relations := [] |}.

Definition getCollection (ms : MetadataStorage) (target : JsFunction)
  : Res CollectionMetadataArgs :=
  match find (fun collection => JsFunction_eqb (c_target collection) target)
             (collections ms) with
  | None => Err CollectionNotFound
  | Some collection => Ok collection
  end.

Definition getCollectionName (ms : MetadataStorage) (target : JsFunction)
  : Res string :=
  match find (fun collection => JsFunction_eqb (c_target collection) target)
             (collections ms) with
  | None => Err CollectionNotFound
  | Some collection =>
      Ok ((match truthy_val (prefix (c_options collection)) with
           | Some p => p
           | None => ""
           end) ++ c_name collection)%string
  end.

Definition getProperties (ms : MetadataStorage) (target : JsFunction)
  : list PropertyMetadataArgs :=
  filter (fun property => JsFunction_eqb (p_target property) target)
         (properties ms).

Definition getIdProp (ms : MetadataStorage) (target : JsFunction)
  : Res IdPropertyMetadataArgs :=
  match find (fun idProp => JsFunction_eqb (id_target idProp) target)
             (ids ms) with
  | None => Err IdPerpertyNotFound
  | Some primaryProp => Ok primaryProp
  end.

Definition getIdPropName (ms : MetadataStorage) (target : JsFunction)
  : Res string :=
  res_bind (getIdProp ms target) (fun primaryProp =>
  Ok (id_propertyName primaryProp)).

(** The two uuid modules are required at the call; what they return is
    supplied by the caller of the model.  [None] is [undefined]. *)
Record UuidSource := {
  uuid_v1 : string;
  uuid_v4 : string
}.

Definition getIdGenerataValue (uuid : UuidSource) (ms : MetadataStorage)
  (target : JsFunction) : Res (option string) :=
  res_bind (getIdProp ms target) (fun primaryProp =>
  match id_strategy primaryProp with
  | StrategyFn f => Ok (Some (f tt))
  | StrategyUuidV1 => Ok (Some (uuid_v1 uuid))
  | StrategyUuidV4 => Ok (Some (uuid_v4 uuid))
  | StrategyAuto => Ok None
  end).

(** Modelled from the spec: the decorators that register metadata are not
    under src/.  MetadataStorage exposes [ids] as a plain array with no
    method of its own, so registering an id property is taken as pushing
    one entry onto that array. *)
Definition registerId (ms : MetadataStorage) (a : IdPropertyMetadataArgs)
  : MetadataStorage :=
  {| collections := collections ms;
     ids := ids ms ++ [a];
     properties := properties ms;
     relations := relations ms |}.

Definition registerIds (regs : list IdPropertyMetadataArgs) : MetadataStorage :=
  fold_left registerId regs emptyStorage.

(** The entries of [ids] whose target is the given class. *)
Definition idEntries (ms : MetadataStorage) (target : JsFunction)
  : list IdPropertyMetadataArgs :=
  filter (fun idProp => JsFunction_eqb (id_target idProp) target) (ids ms).

(** Modelled from the spec: getCollectionPath is called by the query
    layer but is not a method of the MetadataStorage under src/; a
    collection is "a named path in the document store", and the path is
    taken as what getCollectionName builds, the prefix followed by the
    registered name. *)
Definition getCollectionPath (ms : MetadataStorage) (target : JsFunction)
  : Res string :=
  getCollectionName ms target.

(* ================================================================== *)
(** ** The Firestore client, as the query layer uses it *)
(* ================================================================== *)

Fixpoint has_slash (s : string) : bool :=
  match s with
  | EmptyString => false
  | String c rest => Ascii.eqb c "/" || has_slash rest
  end.

(** The text after the last '/': the id of a document path. *)
Fixpoint last_segment (s : string) : string :=
  match s with
  | EmptyString => EmptyString
  | String c rest =>
      if has_slash rest then last_segment rest
      else if Ascii.eqb c "/" then rest else s
  end.

(** A DocumentSnapshot: the path of its reference and its data; the
    document exists when it has data.  A snapshot that exists is what the
    client builds as a QueryDocumentSnapshot. *)
Record DocumentSnapshot := {
  ds_path : string;
  ds_data : option Obj
}.

Definition ds_id (d : DocumentSnapshot) : string := last_segment (ds_path d).

Definition ds_exists (d : DocumentSnapshot) : bool :=
  match ds_data d with
  | Some _ => true
  | None => false
  end.

(** [{ ...doc.data() }] *)
Definition ds_spread (d : DocumentSnapshot) : Obj :=
  match ds_data d with
  | Some o => o
  | None => []
  end.

Inductive Direction := Asc | Desc.

(** A cursor argument of startAfter / startAt / endBefore / endAt. *)
Inductive Cursor : Type :=
| CSnap (d : DocumentSnapshot)
| CVal (v : Value).

Inductive QSource : Type :=
| QCollection (path : string)            (* firestore.collection(path) *)
| QCollectionGroup (collectionId : string). (* firestore.collectionGroup(id) *)

(** One call on the immutable query builder. *)
Inductive QStep : Type :=
| SWhere (fieldPath : string) (op : Value) (value : Value)
| SSelect (fields : list string)
| SOrderBy (fieldPath : string) (dir : Direction)
| SLimit (n : nat)
| SOffset (n : nat)
| SStartAfter (c : list Cursor)
| SStartAt (c : list Cursor)
| SEndBefore (c : list Cursor)
| SEndAt (c : list Cursor).

(** A query: where it starts and the builder calls made on it, in order. *)
Record Query := {
  q_source : QSource;
  q_steps : list QStep
}.

Definition q_add (q : Query) (s : QStep) : Query :=
  {| q_source := q_source q; q_steps := q_steps q ++ [s] |}.

(** The client handed to the CollectionQuery constructor.  Reads are
    functions of the store behind the client, which does not change while
    a call runs. *)
Record Firestore := {
  fs_getDoc : string -> DocumentSnapshot;          (* ref.get() *)
  fs_getQuery : Query -> list DocumentSnapshot;    (* (await query.get()).docs *)
  fs_getAll : list string -> list DocumentSnapshot (* firestore.getAll(...refs) *)
}.

Record Transaction := {
  tx_get : Query -> list DocumentSnapshot;         (* (await tnx.get(query)).docs *)
  tx_getAll : list string -> list DocumentSnapshot (* tnx.getAll(...refs) *)
}.

(** A read issued against the store. *)
Inductive Request : Type :=
| ReqDocGet (path : string)
| ReqQueryGet (q : Query)
| ReqGetAll (paths : list string)
| ReqTxGet (q : Query)
| ReqTxGetAll (paths : list string).

(** A computation of the query layer: the reads it issued, in order, and
    how it ended. *)
Definition M (A : Type) : Type := (list Request * Res A)%type.

Definition ret {A} (a : A) : M A := ([], Ok a).
Definition throw {A} (e : Error) : M A := ([], Err e).
Definition lift {A} (r : Res A) : M A := ([], r).
Definition request {A} (r : Request) (answer : A) : M A := ([r], Ok answer).

Definition bind {A B} (m : M A) (f : A -> M B) : M B :=
  match m with
  | (t, Ok a) => let (t', r) := f a in (t ++ t', r)
  | (t, Err e) => (t, Err e)
  end.

Notation "x <- m ;; k" := (bind m (fun x => k))
  (at level 61, m at next level, right associativity).

Definition trace {A} (m : M A) : list Request := fst m.
Definition outcome {A} (m : M A) : Res A := snd m.

(** A loop that threads a state through the items of an array. *)
Fixpoint foldM {A S : Type} (f : S -> A -> M S) (s : S) (l : list A) : M S :=
  match l with
  | [] => ret s
  | a :: rest => s' <- f s a ;; foldM f s' rest
  end.

(* ================================================================== *)
(** ** Options of the query layer *)
(* ================================================================== *)

Record CollectionQueryOption := {
  collectionId : option string;
  parentPath : option string;
  tnx : option Transaction
}.

(** FindManyOptions / FindOneOptions (declared in query-builder): the
    fields the query layer reads.  [None] is an absent field.  findOne
    reads neither [limit] nor [offset]. *)
Record FindOptions := {
  o_where : option Obj;
  o_select : option (list string);
  o_order : option (list (string * Direction));
  o_limit : option nat;
  o_offset : option nat;
  o_startAfter : option (list Cursor);
  o_startAt : option (list Cursor);
  o_endBefore : option (list Cursor);
  o_endAt : option (list Cursor);
  o_relations : option (list string)
}.

(** The argument of find / findOne: an options object, or bare
    conditions.  The constructor is what the type guards
    FindOptionsUtils.isFindManyOptions / isFindOneOptions (not under
    src/) answer. *)
Inductive OptionsOrConditions : Type :=
| OOptions (o : FindOptions)
| OConditions (conditions : Obj).

(** An instance of an entity class, as plainToClass builds it: the class
    and the properties copied from the plain object. *)
Record Entity := {
  e_class : JsFunction;
  e_props : Obj
}.

(** The payload of a pagination token: [{ ...tokenObj, lastDocumentId }]. *)
Record TokenObj := {
  tk_options : FindOptions;
  tk_lastDocumentId : Value
}.

(** The text of a Date (toString, toJSON); not modelled in detail. *)
Definition dateText (t : Z) : string :=
  ("Date " ++ NilZero.string_of_int (Z.to_int t))%string.

(** [JSON.parse(JSON.stringify(v))]: what a value is after it travelled
    in a token.  A property whose value is undefined is dropped and an
    undefined array element becomes null; a Date becomes its text, and
    an instance of a Firestore class becomes a plain object of its
    fields (for a reference, reduced here to its path). *)
Fixpoint jsonValue (v : Value) : Value :=
  match v with
  | VDate t => VStr (dateText t)
  | VTimestamp t => VObj [("_seconds", VNum t); ("_nanoseconds", VNum 0)]
  | VGeoPoint latitude longitude =>
      VObj [("_latitude", VNum latitude); ("_longitude", VNum longitude)]
  | VRef path => VObj [("_path", VStr path)]
  | VObj fields =>
      VObj ((fix go (l : list (string * Value)) : list (string * Value) :=
               match l with
               | [] => []
               | (k, VUndefined) :: rest => go rest
               | (k, x) :: rest => (k, jsonValue x) :: go rest
               end) fields)
  | VArr items =>
      VArr (map (fun x => match x with
                          | VUndefined => VNull
                          | _ => jsonValue x
                          end) items)
  | _ => v
  end.

Definition jsonObj (o : Obj) : Obj :=
  match jsonValue (VObj o) with
  | VObj fields => fields
  | _ => []
  end.

(** The values that JSON carries unchanged. *)
Fixpoint jsonSafe (v : Value) : bool :=
  match v with
  | VNull | VBool _ | VNum _ | VStr _ => true
  | VObj fields =>
      (fix all (l : list (string * Value)) : bool :=
         match l with
         | [] => true
         | (_, x) :: rest => jsonSafe x && all rest
         end) fields
  | VArr items =>
      (fix all (l : list Value) : bool :=
         match l with
         | [] => true
         | x :: rest => jsonSafe x && all rest
         end) items
  | _ => false
  end.

(** The options of a payload after the token was serialized: the
    conditions are JSON values; select, order and limit are strings and
    a number already. *)
Definition jsonOptions (o : FindOptions) : FindOptions :=
  {| o_where := option_map jsonObj (o_where o);
     o_select := o_select o;
     o_order := o_order o;
     o_limit := o_limit o;
     o_offset := o_offset o;
     o_startAfter := o_startAfter o;
     o_startAt := o_startAt o;
     o_endBefore := o_endBefore o;
     o_endAt := o_endAt o;
     o_relations := o_relations o |}.

Definition jsonToken (payload : TokenObj) : TokenObj :=
  {| tk_options := jsonOptions (tk_options payload);
     tk_lastDocumentId := jsonValue (tk_lastDocumentId payload) |}.

(** A pagination token.  jsonwebtoken is modelled symbolically: a token
    signed with a secret carries its payload as JSON, and verifies under
    that secret only; any other string is malformed. *)
Inductive Token : Type :=
| Jwt (secret : string) (payload : TokenObj)
| Malformed (raw : string).

Definition jwt_sign (payload : TokenObj) (secret : string) : Token :=
  Jwt secret (jsonToken payload).

(** [None] when jsonwebtoken.verify throws. *)
Definition jwt_verify (token : Token) (secret : string) : option TokenObj :=
  match token with
  | Jwt s payload => if String.eqb s secret then Some payload else None
  | Malformed _ => None
  end.

(* ================================================================== *)
(** ** Helpers standing for JavaScript built-ins *)
(* ================================================================== *)

Definition decimal (n : Z) : string := NilZero.string_of_int (Z.to_int n).

(** String conversion, as [+] applies it to the right operand of a
    concatenation.  The text of a Date is not modelled in detail. *)
Fixpoint toStr (v : Value) : string :=
  match v with
  | VUndefined => "undefined"
  | VNull => "null"
  | VBool true => "true"
  | VBool false => "false"
  | VNum n => decimal n
  | VStr s => s
  | VDate t => dateText t
  | VArr items =>
      (fix join (l : list Value) : string :=
         match l with
         | [] => ""
         | [x] => toStr x
         | x :: rest => (toStr x ++ "," ++ join rest)%string
         end) items
  | _ => "[object Object]"
  end.

(** [v.k] for the two properties the query layer reads off a condition
    ([type] and [value]): a TypeError on undefined and null, the field of
    a plain object, undefined on every other value. *)
Definition get_prop (v : Value) (k : string) : Res Value :=
  match v with
  | VUndefined | VNull => Err TypeError
  | VObj o =>
      Ok (match obj_get k o with
          | Some x => x
          | None => VUndefined
          end)
  | _ => Ok VUndefined
  end.

(** Calling a stored function with no argument: an arrow function returns
    its value, a class constructor cannot be called without [new]. *)
Definition call_fn (f : JsFunction) : Res JsFunction :=
  match f with
  | ArrowFn r => Ok r
  | ClassCtor _ => Err TypeError
  end.

(** [v instanceof DocumentReference] *)
Definition is_ref (v : Value) : bool :=
  match v with
  | VRef _ => true
  | _ => false
  end.

(** dot.pick on a property name.  Relation names are names of class
    members, a single path segment. *)
Definition dot_pick (relation : string) (data : Obj) : option Value :=
  obj_get relation data.

Fixpoint replace_nth {A : Type} (n : nat) (x : A) (l : list A) : list A :=
  match l, n with
  | [], _ => []
  | _ :: t, O => x :: t
  | h :: t, S n' => h :: replace_nth n' x t
  end.

(** One row of relationDocMapping: relation name to resolved path. *)
Definition Row := list (string * string).

(** [if (!relationDocMapping[index]) relationDocMapping.push({})] *)
Definition ensureRow (index : nat) (m : list Row) : list Row :=
  match nth_error m index with
  | Some _ => m
  | None => m ++ [[]]
  end.

(** [relationDocMapping[index][relation] = path]: setting a property of
    undefined is a TypeError. *)
Definition assignRow (index : nat) (relation path : string) (m : list Row)
  : Res (list Row) :=
  match nth_error m index with
  | None => Err TypeError
  | Some row => Ok (replace_nth index (assoc_set relation path row) m)
  end.

(** What a promise stored in relationDocCache resolves to. *)
Inductive Fetched : Type :=
| FetchedDoc (d : DocumentSnapshot)
| FetchedQuery (docs : list DocumentSnapshot).

Definition Cache := list (string * Fetched).

Definition RelState := (list Row * Cache)%type.

(** The reduce that turns the resolved cache into relationCacheData: an
    existing document gives a copy of its data, a query the copies of its
    documents, a missing document no entry. *)
Definition cacheEntry (object : list (string * Value))
  (current : string * Fetched) : list (string * Value) :=
  match snd current with
  | FetchedDoc d =>
      match ds_data d with
      | Some o => assoc_set (fst current) (VObj o) object
      | None => object
      end
  | FetchedQuery docs =>
      assoc_set (fst current)
                (VArr (map (fun doc => VObj (ds_spread doc)) docs)) object
  end.

Definition relationCacheData (cache : Cache) : list (string * Value) :=
  fold_left cacheEntry cache [].

(** dot.dot(relationDocMapping): the keys [index.relation] with their
    path, rows in order; an empty row contributes no relation key. *)
Fixpoint flattenFrom (index : nat) (m : list Row)
  : list (nat * string * string) :=
  match m with
  | [] => []
  | row :: rest =>
      map (fun kv => (index, fst kv, snd kv)) row ++ flattenFrom (S index) rest
  end.

Definition flatten (m : list Row) : list (nat * string * string) :=
  flattenFrom 0 m.

(** dot.set(index.relation, value, datas): the property [relation] of
    the element [index] is overwritten; an element that is not an object
    is first replaced by an empty one.  An index past the end does not
    occur (a row of the mapping is only created at the index of a
    document) and leaves the array as it is. *)
Definition dot_set (index : nat) (relation : string) (value : Value)
  (datas : list (option Obj)) : list (option Obj) :=
  match nth_error datas index with
  | Some (Some data) => replace_nth index (Some (obj_set relation value data)) datas
  | Some None => replace_nth index (Some (obj_set relation value [])) datas
  | None => datas
  end.

Definition spliceOne (cacheData : list (string * Value))
  (datas : list (option Obj)) (entry : nat * string * string)
  : list (option Obj) :=
  let '(index, relation, path) := entry in
  match assoc_get path cacheData with
  | Some value => if truthy value then dot_set index relation value datas else datas
  | None => datas
  end.

(** convertToJsObject on one property value: a falsy value is left, a
    Timestamp becomes a Date, a GeoPoint a plain pair, a
    DocumentReference its id, and any other object is converted in
    depth. *)
Fixpoint convertValue (v : Value) : Value :=
  match v with
  | VTimestamp t => VDate t
  | VGeoPoint latitude longitude =>
      VObj [("latitude", VNum latitude); ("longitude", VNum longitude)]
  | VRef path => VStr (last_segment path)
  | VObj fields =>
      VObj (map (fun kv => match kv with (k, x) => (k, convertValue x) end) fields)
  | VArr items => VArr (map convertValue items)
  | _ => v
  end.

Definition convertToJsObject (obj : Obj) : Obj :=
  map (fun kv => match kv with (k, x) => (k, convertValue x) end) obj.

(** [xs[0]] of an array whose elements may be null. *)
Inductive JsOpt (A : Type) : Type :=
| JUndefined
| JNull
| JSome (a : A).
Arguments JUndefined {A}.
Arguments JNull {A}.
Arguments JSome {A} a.

Definition first_of {A} (l : list (option A)) : JsOpt A :=
  match l with
  | [] => JUndefined
  | None :: _ => JNull
  | Some a :: _ => JSome a
  end.

Inductive IdOrIds : Type :=
| OneId (id : string)
| ManyIds (ids : list string).

Inductive ByIds : Type :=
| ByIdsOne (entity : JsOpt Entity)
| ByIdsMany (entities : list (option Entity)).

(* ================================================================== *)
(** ** class CollectionQuery *)
(* ================================================================== *)

Section CollectionQuery.

(** [getMetadataStorage()], and the two constructor arguments. *)
Variable ms : MetadataStorage.
Variable firestore : Firestore.
Variable options : CollectionQueryOption.

Definition getFindConditionsFromFindManyOptions
  (optionsOrConditions : option OptionsOrConditions) : option Obj :=
  match optionsOrConditions with
  | None => None
  | Some (OOptions o) => o_where o
  | Some (OConditions conditions) => Some conditions
  end.

Definition getFindConditionsFromFindOneOptions
  (optionsOrConditions : option OptionsOrConditions) : option Obj :=
  match optionsOrConditions with
  | None => None
  | Some (OOptions o) => o_where o
  | Some (OConditions conditions) => Some conditions
  end.

Definition transformToClass (target : JsFunction) (obj : Obj) : Entity :=
  {| e_class := target; e_props := convertToJsObject obj |}.

(** The body of [relations.forEach] for one relation name of one
    document. *)
Definition loadRelation (collectionPath idPropName : string)
  (relationMetadataArgs : list RelationMetadataArgs)
  (index : nat) (data : Obj) (st : RelState) (relation : string)
  : M RelState :=
  let '(relationDocMapping, relationDocCache) := st in
  match find (fun item => String.eqb (r_propertyName item) relation)
             relationMetadataArgs with
  | None => ret st
  | Some relationMetadataArg =>
      match r_relationType relationMetadataArg with
      | ManyToOne =>
          let relationDocMapping := ensureRow index relationDocMapping in
          match dot_pick relation data with
          | Some (VRef path) =>
              relationDocMapping <-
                lift (assignRow index relation path relationDocMapping) ;;
              match assoc_get path relationDocCache with
              | Some _ => ret (relationDocMapping, relationDocCache)
              | None =>
                  snapshot <- request (ReqDocGet path)
                                      (fs_getDoc firestore path) ;;
                  ret (relationDocMapping,
                       assoc_set path (FetchedDoc snapshot) relationDocCache)
              end
          | _ => ret (relationDocMapping, relationDocCache)
          end
      | OneToMany =>
          relationClass <- lift (call_fn (r_type relationMetadataArg)) ;;
          relationCollectionPath <- lift (getCollectionPath ms relationClass) ;;
          let documentPath :=
            (collectionPath ++ "/" ++
             toStr (match obj_get idPropName data with
                    | Some v => v
                    | None => VUndefined
                    end))%string in
          let relationDocMapping := ensureRow index relationDocMapping in
          relationDocMapping <-
            lift (assignRow index relation documentPath relationDocMapping) ;;
          match assoc_get documentPath relationDocCache with
          | Some _ => ret (relationDocMapping, relationDocCache)
          | None =>
              let query :=
                q_add {| q_source := QCollection relationCollectionPath;
                         q_steps := [] |}
                      (SWhere (r_inverseSide relationMetadataArg)
                              (VStr "==") (VRef documentPath)) in
              docs <- request (ReqQueryGet query)
                              (fs_getQuery firestore query) ;;
              ret (relationDocMapping,
                   assoc_set documentPath (FetchedQuery docs) relationDocCache)
          end
      | OneToOne => ret st
      end
  end.

(** The callback of [docs.map] for the document at [index];
    [relationNames] is the parameter [relations] of loadRelations. *)
Definition loadDoc (target : JsFunction) (collectionPath idPropName : string)
  (relationNames : option (list string))
  (index : nat) (doc : option DocumentSnapshot) (st : RelState)
  : M (option Obj * RelState) :=
  match doc with
  | None => ret (None, st)
  | Some doc =>
      let data := obj_set idPropName (VStr (ds_id doc)) (ds_spread doc) in
      match relationNames with
      | Some ((_ :: _) as names) =>
          let relationMetadataArgs :=
            filter (fun item => JsFunction_eqb (r_target item) target)
                   (relations ms) in
          st' <- foldM (loadRelation collectionPath idPropName
                                     relationMetadataArgs index data)
                       st names ;;
          ret (Some data, st')
      | _ => ret (Some data, st)
      end
  end.

Fixpoint loadDocs (target : JsFunction) (collectionPath idPropName : string)
  (relationNames : option (list string))
  (index : nat) (docs : list (option DocumentSnapshot)) (st : RelState)
  : M (list (option Obj) * RelState) :=
  match docs with
  | [] => ret ([], st)
  | doc :: rest =>
      r <- loadDoc target collectionPath idPropName relationNames index doc st ;;
      rs <- loadDocs target collectionPath idPropName relationNames
                     (S index) rest (snd r) ;;
      ret (fst r :: fst rs, snd rs)
  end.

(** The second half of loadRelations: resolved sub-documents are set
    into the plain objects when the mapping is not empty. *)
Definition spliceRelations (datas : list (option Obj)) (st : RelState)
  : list (option Obj) :=
  match fst st with
  | [] => datas
  | _ :: _ =>
      fold_left (spliceOne (relationCacheData (snd st)))
                (flatten (fst st)) datas
  end.

Definition loadRelations (target : JsFunction)
  (docs : list (option DocumentSnapshot))
  (relationNames : option (list string))
  : M (list (option Entity)) :=
  idPropName <- lift (getIdPropName ms target) ;;
  collectionPath <- lift (getCollectionPath ms target) ;;
  r <- loadDocs target collectionPath idPropName relationNames 0 docs ([], []) ;;
  let datas := spliceRelations (fst r) (snd r) in
  ret (map (option_map (transformToClass target)) datas).

Definition getQuery (target : JsFunction) : Res Query :=
  match truthy_val (collectionId options) with
  | Some c => Ok {| q_source := QCollectionGroup c; q_steps := [] |}
  | None =>
      match truthy_val (parentPath options) with
      | Some p => Ok {| q_source := QCollection p; q_steps := [] |}
      | None =>
          res_bind (getCollectionPath ms target) (fun collectionPath =>
          Ok {| q_source := QCollection collectionPath; q_steps := [] |})
      end
  end.

(** [collection(collectionPath).doc(id)]: the client refuses an id
    that is not a string. *)
Definition getDocumentRef (target : JsFunction) (id : Value) : Res string :=
  res_bind (getCollectionPath ms target) (fun collectionPath =>
  match id with
  | VStr id => Ok (collectionPath ++ "/" ++ id)%string
  | _ => Err InvalidArgument
  end).

Definition CQ_getIdPropName (target : JsFunction) : Res string :=
  getIdPropName ms target.

(** [tnx ? tnx.get(query) : query.get()] *)
Definition runQuery (query : Query) : M (list DocumentSnapshot) :=
  match tnx options with
  | Some t => request (ReqTxGet query) (tx_get t query)
  | None => request (ReqQueryGet query) (fs_getQuery firestore query)
  end.

(** The condition branch shared by find and findOne for a field that
    is not handled as a relation. *)
Definition plainCondition (fieldPath : string) (v : Value) (selfQuery : Query)
  : Res Query :=
  res_bind (get_prop v "type") (fun type =>
  if truthy type then
    res_bind (get_prop v "value") (fun value =>
    Ok (q_add selfQuery (SWhere fieldPath type value)))
  else Ok (q_add selfQuery (SWhere fieldPath (VStr "==") v))).

(** The callback of [Object.keys(where).forEach] in find. *)
Definition findCondition (relationMetadatas : list RelationMetadataArgs)
  (selfQuery : Query) (condition : string * Value) : Res Query :=
  let '(fieldPath, v) := condition in
  match find (fun item => String.eqb (r_propertyName item) fieldPath)
             relationMetadatas with
  | Some relationMetadata =>
      if negb (is_ref v) then
        res_bind (getCollectionPath ms (r_type relationMetadata))
          (fun relationCollectionPath =>
        let relationDocumentPath :=
          (relationCollectionPath ++ "/" ++ toStr v)%string in
        Ok (q_add selfQuery
              (SWhere fieldPath (VStr "==") (VRef relationDocumentPath))))
      else plainCondition fieldPath v selfQuery
  | None => plainCondition fieldPath v selfQuery
  end.

(** The callback of [Object.keys(where).forEach] in findOne. *)
Definition findOneCondition (relationMetadatas : list RelationMetadataArgs)
  (selfQuery : Query) (condition : string * Value) : Res Query :=
  let '(fieldPath, v) := condition in
  match find (fun item => String.eqb (r_propertyName item) fieldPath)
             relationMetadatas with
  | Some relationMetadata =>
      res_bind (call_fn (r_type relationMetadata)) (fun relationClass =>
      res_bind (getCollectionPath ms relationClass)
        (fun relationCollectionPath =>
      let relationDocumentPath :=
        (relationCollectionPath ++ "/" ++ toStr v)%string in
      Ok (q_add selfQuery
            (SWhere fieldPath (VStr "==") (VRef relationDocumentPath)))))
  | None => plainCondition fieldPath v selfQuery
  end.

Fixpoint foldRes {A S : Type} (f : S -> A -> Res S) (s : S) (l : list A)
  : Res S :=
  match l with
  | [] => Ok s
  | a :: rest => res_bind (f s a) (fun s' => foldRes f s' rest)
  end.

Definition opt_step {A} (o : option A) (f : A -> QStep) (q : Query) : Query :=
  match o with
  | Some a => q_add q (f a)
  | None => q
  end.

Definition orderSteps (o : option (list (string * Direction))) (q : Query)
  : Query :=
  match o with
  | Some order =>
      fold_left (fun q kv => q_add q (SOrderBy (fst kv) (snd kv))) order q
  | None => q
  end.

(** The query find builds, up to the read. *)
Definition findQuery (target : JsFunction)
  (optionsOrConditions : option OptionsOrConditions) : Res Query :=
  res_bind (getQuery target) (fun selfQuery =>
  res_bind
    (match getFindConditionsFromFindManyOptions optionsOrConditions with
     | Some where_ =>
         let relationMetadatas :=
           filter (fun item => JsFunction_eqb (r_target item) target)
                  (relations ms) in
         foldRes (findCondition relationMetadatas) selfQuery where_
     | None => Ok selfQuery
     end) (fun selfQuery =>
  match optionsOrConditions with
  | Some (OOptions o) =>
      let selfQuery := opt_step (o_select o) SSelect selfQuery in
      let selfQuery := orderSteps (o_order o) selfQuery in
      let selfQuery :=
        if truthy_num (o_limit o) then opt_step (o_limit o) SLimit selfQuery
        else selfQuery in
      let selfQuery :=
        if truthy_num (o_offset o) then opt_step (o_offset o) SOffset selfQuery
        else selfQuery in
      let selfQuery := opt_step (o_startAfter o) SStartAfter selfQuery in
      let selfQuery := opt_step (o_startAt o) SStartAt selfQuery in
      let selfQuery := opt_step (o_endBefore o) SEndBefore selfQuery in
      let selfQuery := opt_step (o_endAt o) SEndAt selfQuery in
      Ok selfQuery
  | _ => Ok selfQuery
  end)).

Definition relationsOf (optionsOrConditions : option OptionsOrConditions)
  : option (list string) :=
  match optionsOrConditions with
  | Some (OOptions o) =>
      match o_relations o with
      | Some r => Some r
      | None => Some []
      end
  | _ => Some []
  end.

Definition find (target : JsFunction)
  (optionsOrConditions : option OptionsOrConditions)
  : M (list (option Entity)) :=
  selfQuery <- lift (findQuery target optionsOrConditions) ;;
  docs <- runQuery selfQuery ;;
  loadRelations target (map Some docs) (relationsOf optionsOrConditions).

(** [entity[name]] *)
Definition entity_prop (e : Entity) (name : string) : Value :=
  match obj_get name (e_props e) with
  | Some v => v
  | None => VUndefined
  end.

(** The options copied into the token by findAndToken. *)
Definition tokenOptions (optionsOrConditions : option OptionsOrConditions)
  : FindOptions :=
  {| o_where := getFindConditionsFromFindManyOptions optionsOrConditions;
     o_select := match optionsOrConditions with
                 | Some (OOptions o) => o_select o
                 | _ => None
                 end;
     o_order := match optionsOrConditions with
                | Some (OOptions o) => o_order o
                | _ => None
                end;
     o_limit := match optionsOrConditions with
                | Some (OOptions o) =>
                    if truthy_num (o_limit o) then o_limit o else None
                | _ => None
                end;
     o_offset := None;
     o_startAfter := None;
     o_startAt := None;
     o_endBefore := None;
     o_endAt := None;
     o_relations := None |}.

(** [!tokenObj.limit || !tokenObj.order || tokenObj.limit > documents.length] *)
Definition noToken (tokenObj : FindOptions) (documents : nat) : bool :=
  match o_limit tokenObj, o_order tokenObj with
  | Some l, Some _ => Nat.eqb l 0 || Nat.ltb documents l
  | _, _ => true
  end.

Definition findAndToken (target : JsFunction)
  (optionsOrConditions : option OptionsOrConditions)
  : M (option Token * list (option Entity)) :=
  let tokenObj := tokenOptions optionsOrConditions in
  documents <- find target optionsOrConditions ;;
  if noToken tokenObj (List.length documents) then ret (None, documents)
  else
    idPropName <- lift (CQ_getIdPropName target) ;;
    match last documents None with
    | None => throw TypeError
    | Some lastDocument =>
        let lastDocumentId := entity_prop lastDocument idPropName in
        let token :=
          jwt_sign {| tk_options := tokenObj;
                      tk_lastDocumentId := lastDocumentId |} "fireorm" in
        ret (Some token, documents)
    end.

(** [{ ...other, startAfter: [startAfter] }] *)
Definition withStartAfter (other : FindOptions) (cursor : list Cursor)
  : FindOptions :=
  {| o_where := o_where other;
     o_select := o_select other;
     o_order := o_order other;
     o_limit := o_limit other;
     o_offset := o_offset other;
     o_startAfter := Some cursor;
     o_startAt := o_startAt other;
     o_endBefore := o_endBefore other;
     o_endAt := o_endAt other;
     o_relations := o_relations other |}.

Definition findByToken (target : JsFunction) (token : Token)
  : M (option Token * list (option Entity)) :=
  match jwt_verify token "fireorm" with
  | None => throw InvalidPaginationToken
  | Some tokenObj =>
      if negb (truthy (tk_lastDocumentId tokenObj))
      then throw InvalidPaginationToken
      else
        ref <- lift (getDocumentRef target (tk_lastDocumentId tokenObj)) ;;
        startAfter <- request (ReqDocGet ref) (fs_getDoc firestore ref) ;;
        if negb (ds_exists startAfter) then throw InvalidPaginationToken
        else
          findAndToken target
            (Some (OOptions (withStartAfter (tk_options tokenObj)
                                            [CSnap startAfter])))
  end.

(** The query findOne builds, before [limit(1)] and the read. *)
Definition findOneQuery (target : JsFunction)
  (optionsOrConditions : option OptionsOrConditions) : Res Query :=
  res_bind (getQuery target) (fun selfQuery =>
  res_bind
    (match getFindConditionsFromFindOneOptions optionsOrConditions with
     | Some where_ =>
         let relationMetadatas :=
           filter (fun item => JsFunction_eqb (r_target item) target)
                  (relations ms) in
         foldRes (findOneCondition relationMetadatas) selfQuery where_
     | None => Ok selfQuery
     end) (fun selfQuery =>
  match optionsOrConditions with
  | Some (OOptions o) =>
      let selfQuery := opt_step (o_select o) SSelect selfQuery in
      let selfQuery := opt_step (o_startAfter o) SStartAfter selfQuery in
      let selfQuery := opt_step (o_startAt o) SStartAt selfQuery in
      let selfQuery := opt_step (o_endBefore o) SEndBefore selfQuery in
      let selfQuery := opt_step (o_endAt o) SEndAt selfQuery in
      let selfQuery := orderSteps (o_order o) selfQuery in
      Ok selfQuery
  | _ => Ok selfQuery
  end)).

Definition findOne (target : JsFunction)
  (optionsOrConditions : option OptionsOrConditions)
  : M (JsOpt Entity) :=
  selfQuery <- lift (findOneQuery target optionsOrConditions) ;;
  docs <- runQuery (q_add selfQuery (SLimit 1)) ;;
  match docs with
  | [] => ret JUndefined
  | doc0 :: _ =>
      if negb (ds_exists doc0) then ret JUndefined
      else
        entities <- loadRelations target (map Some docs)
                                  (relationsOf optionsOrConditions) ;;
        ret (first_of entities)
  end.

Definition findOneOrFail (target : JsFunction)
  (optionsOrConditions : option OptionsOrConditions)
  : M (JsOpt Entity) :=
  value <- findOne target optionsOrConditions ;;
  match value with
  | JUndefined => throw (EntityNotFound (fn_name target))
  | _ => ret value
  end.

(** [tnx ? tnx.getAll(...docRefs) : firestore.getAll(...docRefs)] *)
Definition runGetAll (docRefs : list string) : M (list DocumentSnapshot) :=
  match tnx options with
  | Some t => request (ReqTxGetAll docRefs) (tx_getAll t docRefs)
  | None => request (ReqGetAll docRefs) (fs_getAll firestore docRefs)
  end.

Definition optionRelations (o : option FindOptions) : option (list string) :=
  match o with
  | Some o =>
      match o_relations o with
      | Some r => Some r
      | None => Some []
      end
  | None => Some []
  end.

Definition findByIds (target : JsFunction) (idOrIds : IdOrIds)
  (findOptions : option FindOptions) : M ByIds :=
  match truthy_val (collectionId options) with
  | Some _ => throw FindByIdsNotSupportCollectionGroup
  | None =>
      collectionPath <-
        lift (match truthy_val (parentPath options) with
              | Some p => Ok p
              | None => getCollectionPath ms target
              end) ;;
      let ids := match idOrIds with
                 | ManyIds ids => ids
                 | OneId id => [id]
                 end in
      let docRefs := map (fun id => (collectionPath ++ "/" ++ id)%string) ids in
      docSnapshots <- runGetAll docRefs ;;
      let filterSnapShot :=
        map (fun v => if ds_exists v then Some v else None) docSnapshots in
      match idOrIds with
      | ManyIds _ =>
          entities <- loadRelations target filterSnapShot
                                    (optionRelations findOptions) ;;
          ret (ByIdsMany entities)
      | OneId _ =>
          match filterSnapShot with
          | [] => ret (ByIdsOne JUndefined)
          | _ :: _ =>
              entities <- loadRelations target filterSnapShot
                                        (optionRelations findOptions) ;;
              ret (ByIdsOne (first_of entities))
          end
      end
  end.
End CollectionQuery.

(* ================================================================== *)
(** ** An in-memory store behind the client *)
(* ================================================================== *)

(** A reference client over a fixed list of documents (path and data, in
    document-name order).  It gives the statements below closed
    instances; the statements themselves hold for any client.  It
    evaluates the queries the layer builds: equality and integer
    comparisons in where, ordering on integer and string fields with the
    document name as the last key, cursors, offset, limit and select. *)

Fixpoint parent_path (s : string) : string :=
  match s with
  | EmptyString => EmptyString
  | String c rest =>
      if has_slash rest then String c (parent_path rest) else EmptyString
  end.

Definition in_source (src : QSource) (path : string) : bool :=
  match src with
  | QCollection p => String.eqb (parent_path path) p
  | QCollectionGroup c => String.eqb (last_segment (parent_path path)) c
  end.

Definition field_of (fieldPath : string) (d : DocumentSnapshot) : option Value :=
  obj_get fieldPath (ds_spread d).

Definition where_holds (op value : Value) (field : option Value) : bool :=
  match field, op with
  | Some x, VStr "==" => Value_eqb x value
  | Some (VNum a), VStr "<" =>
      match value with VNum b => Z.ltb a b | _ => false end
  | Some (VNum a), VStr "<=" =>
      match value with VNum b => Z.leb a b | _ => false end
  | Some (VNum a), VStr ">" =>
      match value with VNum b => Z.ltb b a | _ => false end
  | Some (VNum a), VStr ">=" =>
      match value with VNum b => Z.leb b a | _ => false end
  | _, _ => false
  end.

Definition value_cmp (a b : Value) : comparison :=
  match a, b with
  | VNum x, VNum y => Z.compare x y
  | VStr x, VStr y => String.compare x y
  | _, _ => Eq
  end.

Definition directed (dir : Direction) (c : comparison) : comparison :=
  match dir with
  | Asc => c
  | Desc => CompOpp c
  end.

Definition steps_order (steps : list QStep) : list (string * Direction) :=
  flat_map (fun s => match s with
                     | SOrderBy f d => [(f, d)]
                     | _ => []
                     end) steps.

(** The position of [a] against [b] under the order keys, then by name. *)
Fixpoint doc_cmp (order : list (string * Direction))
  (a b : DocumentSnapshot) : comparison :=
  match order with
  | [] => String.compare (ds_path a) (ds_path b)
  | (f, dir) :: rest =>
      match field_of f a, field_of f b with
      | Some x, Some y =>
          match directed dir (value_cmp x y) with
          | Eq => doc_cmp rest a b
          | c => c
          end
      | _, _ => doc_cmp rest a b
      end
  end.

(** The position of document [a] against a cursor given by field values. *)
Fixpoint vals_cmp (order : list (string * Direction)) (vals : list Value)
  (a : DocumentSnapshot) : comparison :=
  match order, vals with
  | (f, dir) :: rest, v :: vs =>
      match field_of f a with
      | Some x =>
          match directed dir (value_cmp x v) with
          | Eq => vals_cmp rest vs a
          | c => c
          end
      | None => vals_cmp rest vs a
      end
  | _, _ => Eq
  end.

Definition cursor_cmp (order : list (string * Direction)) (c : list Cursor)
  (a : DocumentSnapshot) : comparison :=
  match c with
  | [CSnap d] => doc_cmp order a d
  | _ =>
      vals_cmp order
        (flat_map (fun x => match x with CVal v => [v] | CSnap _ => [] end) c) a
  end.

Fixpoint insert_doc (order : list (string * Direction)) (d : DocumentSnapshot)
  (l : list DocumentSnapshot) : list DocumentSnapshot :=
  match l with
  | [] => [d]
  | x :: rest =>
      match doc_cmp order d x with
      | Gt => x :: insert_doc order d rest
      | _ => d :: l
      end
  end.

Definition sort_docs (order : list (string * Direction))
  (l : list DocumentSnapshot) : list DocumentSnapshot :=
  fold_right (insert_doc order) [] l.

Definition has_fields (order : list (string * Direction))
  (d : DocumentSnapshot) : bool :=
  forallb (fun kv => match field_of (fst kv) d with
                     | Some _ => true
                     | None => false
                     end) order.

Definition is_lt (c : comparison) : bool :=
  match c with Lt => true | _ => false end.
Definition is_gt (c : comparison) : bool :=
  match c with Gt => true | _ => false end.

(** A where or cursor step as a filter on the sorted documents. *)
Definition step_keeps (order : list (string * Direction)) (s : QStep)
  (d : DocumentSnapshot) : bool :=
  match s with
  | SWhere f op v => where_holds op v (field_of f d)
  | SStartAfter c => is_gt (cursor_cmp order c d)
  | SStartAt c => negb (is_lt (cursor_cmp order c d))
  | SEndBefore c => is_lt (cursor_cmp order c d)
  | SEndAt c => negb (is_gt (cursor_cmp order c d))
  | _ => true
  end.

Definition steps_offset (steps : list QStep) : nat :=
  fold_left (fun n s => match s with SOffset k => k | _ => n end) steps 0.

Definition steps_limit (steps : list QStep) : option nat :=
  fold_left (fun n s => match s with SLimit k => Some k | _ => n end) steps None.

Definition steps_select (steps : list QStep) : option (list string) :=
  fold_left (fun n s => match s with SSelect f => Some f | _ => n end) steps None.

Definition project (fields : option (list string)) (d : DocumentSnapshot)
  : DocumentSnapshot :=
  match fields with
  | None => d
  | Some fs =>
      {| ds_path := ds_path d;
         ds_data := Some (filter (fun kv => existsb (String.eqb (fst kv)) fs)
                                 (ds_spread d)) |}
  end.

Definition mem_docs (store : list (string * Obj)) : list DocumentSnapshot :=
  map (fun pd => {| ds_path := fst pd; ds_data := Some (snd pd) |}) store.

Definition mem_getQuery (store : list (string * Obj)) (q : Query)
  : list DocumentSnapshot :=
  let order := steps_order (q_steps q) in
  let docs := filter (fun d => in_source (q_source q) (ds_path d)) (mem_docs store) in
  let docs := filter (has_fields order) docs in
  let docs := sort_docs order docs in
  let docs :=
    filter (fun d => forallb (fun s => step_keeps order s d) (q_steps q)) docs in
  let docs := skipn (steps_offset (q_steps q)) docs in
  let docs := match steps_limit (q_steps q) with
              | Some n => firstn n docs
              | None => docs
              end in
  map (project (steps_select (q_steps q))) docs.

Definition mem_getDoc (store : list (string * Obj)) (path : string)
  : DocumentSnapshot :=
  {| ds_path := path; ds_data := assoc_get path store |}.

Definition memFirestore (store : list (string * Obj)) : Firestore :=
  {| fs_getDoc := mem_getDoc store;
     fs_getQuery := mem_getQuery store;
     fs_getAll := map (mem_getDoc store) |}.

(** The constructor default [options = {}]. *)
Definition noOptions : CollectionQueryOption :=
  {| collectionId := None; parentPath := None; tnx := None |}.

Definition noFindOptions : FindOptions :=
  {| o_where := None; o_select := None; o_order := None; o_limit := None;
     o_offset := None; o_startAfter := None; o_startAt := None;
     o_endBefore := None; o_endAt := None; o_relations := None |}.

(* ================================================================== *)
(** ** A small registry and store used in the closed instances *)
(* ================================================================== *)

Definition User : JsFunction := ClassCtor "User".
Definition Post : JsFunction := ClassCtor "Post".
Definition Comment : JsFunction := ClassCtor "Comment".

Definition plainCollection (name : string) (target : JsFunction)
  : CollectionMetadataArgs :=
  {| c_name := name; c_target := target; c_options := {| prefix := None |} |}.

Definition plainId (target : JsFunction) (propertyName : string)
  : IdPropertyMetadataArgs :=
  {| id_target := target; id_propertyName := propertyName;
     id_strategy := StrategyAuto; id_options := [] |}.

(** class Post { @ManyToOne(() => User) author;
                 @OneToMany(() => Comment, 'post') comments } *)
Definition blogStorage : MetadataStorage :=
  {| collections := [plainCollection "users" User;
                     plainCollection "posts" Post;
                     plainCollection "comments" Comment];
     ids := [plainId User "id"; plainId Post "id"; plainId Comment "id"];
     properties := [];
     relations :=
       [ {| r_target := Post; r_propertyName := "author";
            r_relationType := ManyToOne; r_lazy := false;
            r_type := ArrowFn User; r_inverseSide := "" |};
         {| r_target := Post; r_propertyName := "comments";
            r_relationType := OneToMany; r_lazy := false;
            r_type := ArrowFn Comment; r_inverseSide := "post" |} ] |}.

Definition blogStore : list (string * Obj) :=
  [ ("comments/c1", [("post", VRef "posts/p1"); ("text", VStr "first")]);
    ("posts/p1", [("title", VStr "a"); ("author", VRef "users/u1")]);
    ("posts/p2", [("title", VStr "b"); ("author", VRef "users/u1")]);
    ("users/u1", [("name", VStr "Ann")]);
    ("users/u1/posts/s1", [("title", VStr "s"); ("author", VRef "users/u1")]);
    ("users/u1/posts/s2", [("title", VStr "t"); ("author", VRef "users/u1")]) ].


(* ================================================================== *)
(** ** Notions used in the statements *)
(* ================================================================== *)

Definition hasCollection (ms : MetadataStorage) (target : JsFunction) : Prop :=
  exists c, In c (collections ms) /\ c_target c = target.

Definition hasIdProp (ms : MetadataStorage) (target : JsFunction) : Prop :=
  exists p, In p (ids ms) /\ id_target p = target.

Definition collectionPathOf (c : CollectionMetadataArgs) : string :=
  (match truthy_val (prefix (c_options c)) with
   | Some p => p
   | None => ""
   end ++ c_name c)%string.

(** The invariant "each class has at most one id property". *)
Definition atMostOneId (ms : MetadataStorage) : Prop :=
  forall target, List.length (idEntries ms target) <= 1.

(** The errors that the registry and the JavaScript runtime raise below
    the query methods. *)
Definition lowErr (e : Error) : Prop :=
  e = CollectionNotFound \/ e = IdPerpertyNotFound \/ e = TypeError.

Definition lowR {A} (r : Res A) : Prop := forall e, r = Err e -> lowErr e.
Definition low {A} (m : M A) : Prop := lowR (outcome m).

(** [{ ...doc.data(), [idPropName]: doc.id }] *)
Definition docData (idPropName : string) (d : DocumentSnapshot) : Obj :=
  obj_set idPropName (VStr (ds_id d)) (ds_spread d).

Definition relationArgs (ms : MetadataStorage) (target : JsFunction)
  : list RelationMetadataArgs :=
  filter (fun item => JsFunction_eqb (r_target item) target) (relations ms).

(** The path that a relation name resolves to for a document: the path
    of the reference held in the field for a many-to-one relation, the
    document's own path for a one-to-many relation. *)
Definition resolvedPath (ms : MetadataStorage) (target : JsFunction)
  (collectionPath idPropName : string) (d : DocumentSnapshot)
  (relation : string) : option string :=
  match List.find (fun item => String.eqb (r_propertyName item) relation)
                  (relationArgs ms target) with
  | Some arg =>
      match r_relationType arg with
      | ManyToOne =>
          match dot_pick relation (docData idPropName d) with
          | Some (VRef path) => Some path
          | _ => None
          end
      | OneToMany =>
          Some (collectionPath ++ "/" ++
                toStr (match obj_get idPropName (docData idPropName d) with
                       | Some v => v
                       | None => VUndefined
                       end))%string
      | OneToOne => None
      end
  | None => None
  end.

(** The cache key a relation read is issued for: the path of the
    document read, or the document path a one-to-many query compares
    the inverse side with. *)
Definition fetch_path (r : Request) : string :=
  match r with
  | ReqDocGet p => p
  | ReqQueryGet q =>
      match q_steps q with
      | [SWhere _ _ (VRef p)] => p
      | _ => ""
      end
  | _ => ""
  end.

(** What the client answers to a relation read. *)
Definition fetched (fs : Firestore) (r : Request) : Fetched :=
  match r with
  | ReqQueryGet q => FetchedQuery (fs_getQuery fs q)
  | ReqDocGet p => FetchedDoc (fs_getDoc fs p)
  | _ => FetchedQuery []
  end.

(** The sub-document a resolved read contributes, when it does. *)
Definition fetchedValue (f : Fetched) : option Value :=
  match f with
  | FetchedDoc d => option_map VObj (ds_data d)
  | FetchedQuery docs => Some (VArr (map (fun doc => VObj (ds_spread doc)) docs))
  end.

Definition resolved (fs : Firestore) (r : Request) : option Value :=
  fetchedValue (fetched fs r).

Definition cacheEntryOf (fs : Firestore) (r : Request) : string * Fetched :=
  (fetch_path r, fetched fs r).

(** [relationDocMapping[i]], an absent row read as an empty one. *)
Definition row_at (m : list Row) (i : nat) : Row := nth i m [].

(** The row that loading the relations [names] of document [d] leaves. *)
Definition expectedRow (ms : MetadataStorage) (target : JsFunction)
  (collectionPath idPropName : string) (d : DocumentSnapshot)
  (names : list string) (row : Row) : Row :=
  fold_left (fun row r =>
               match resolvedPath ms target collectionPath idPropName d r with
               | Some p => assoc_set r p row
               | None => row
               end) names row.

(** The effect on one element of datas of the dot.set calls of a row. *)
Definition spliceRow (cacheData : list (string * Value)) (row : Row)
  (data : option Obj) : option Obj :=
  fold_left (fun o kv =>
               match assoc_get (snd kv) cacheData with
               | Some v =>
                   if truthy v
                   then Some (obj_set (fst kv) v
                                (match o with Some x => x | None => [] end))
                   else o
               | None => o
               end) row data.

(** A relation name for which loadRelations creates a mapping row. *)
Definition pushes (ms : MetadataStorage) (target : JsFunction) (r : string)
  : bool :=
  match List.find (fun item => String.eqb (r_propertyName item) r)
                  (relationArgs ms target) with
  | Some arg =>
      match r_relationType arg with
      | OneToOne => false
      | _ => true
      end
  | None => false
  end.

(** The related class of every one-to-many relation among [names] can be
    obtained and has a collection. *)
Definition relationsResolvable (ms : MetadataStorage) (target : JsFunction)
  (names : list string) : Prop :=
  forall r arg,
    In r names ->
    List.find (fun item => String.eqb (r_propertyName item) r)
              (relationArgs ms target) = Some arg ->
    r_relationType arg = OneToMany ->
    exists c p, call_fn (r_type arg) = Ok c /\ getCollectionPath ms c = Ok p.

Definition namesOf (relationNames : option (list string)) : list string :=
  match relationNames with
  | Some l => l
  | None => []
  end.

(** The rows of the mapping after the documents [docs], placed from
    index [k] on, have been loaded over the rows [m]. *)
Definition rowsAfter (ms : MetadataStorage) (target : JsFunction)
  (collectionPath idPropName : string)
  (relationNames : option (list string)) (k : nat)
  (docs : list (option DocumentSnapshot)) (m : list Row) (i : nat) : Row :=
  match (if Nat.leb k i then nth_error docs (i - k) else None) with
  | Some (Some d) =>
      expectedRow ms target collectionPath idPropName d
                  (namesOf relationNames) (row_at m i)
  | _ => row_at m i
  end.

(** The plain object loadRelations hands to transformToClass for the
    document [d], given the reads [t] it issued: the document data with
    its id, and each relation that resolved set to its sub-document. *)
Definition splicedData (ms : MetadataStorage) (fs : Firestore)
  (target : JsFunction) (collectionPath idPropName : string)
  (relationNames : option (list string)) (t : list Request)
  (d : DocumentSnapshot) : option Obj :=
  spliceRow (relationCacheData (map (cacheEntryOf fs) t))
            (expectedRow ms target collectionPath idPropName d
                         (namesOf relationNames) [])
            (Some (docData idPropName d)).

(** The reads of a query method: at most one read that retrieves the
    documents, followed by the reads of one loadRelations call. *)
Definition viaLoadRelations (ms : MetadataStorage) (fs : Firestore)
  (target : JsFunction) (t : list Request) : Prop :=
  exists first docs relationNames,
    t = first ++ trace (loadRelations ms fs target docs relationNames)
    /\ List.length first <= 1.

(** The documents a query read brings: [tnx ? tnx.get(q) : q.get()]. *)
Definition queryDocs (fs : Firestore) (opts : CollectionQueryOption)
  (q : Query) : list DocumentSnapshot :=
  match tnx opts with
  | Some t => tx_get t q
  | None => fs_getQuery fs q
  end.

(** The documents the query of find retrieves for the given options. *)
Definition returnedDocs (ms : MetadataStorage) (fs : Firestore)
  (opts : CollectionQueryOption) (target : JsFunction)
  (ooc : option OptionsOrConditions) : list DocumentSnapshot :=
  match findQuery ms opts target ooc with
  | Ok q => queryDocs fs opts q
  | Err _ => []
  end.

(** C3 as it is worded: a token comes back exactly when the options
    give a limit and an order and at least limit documents came back. *)
Definition tokenIffLimitAndOrder (ms : MetadataStorage) (fs : Firestore)
  (opts : CollectionQueryOption) (target : JsFunction) (o : FindOptions)
  : Prop :=
  forall tok documents,
    outcome (findAndToken ms fs opts target (Some (OOptions o)))
    = Ok (tok, documents) ->
    (tok <> None
     <-> exists l, o_limit o = Some l /\ o_order o <> None
                   /\ l <= List.length documents).

(** The query shape a token carries for an options object. *)
Definition shapeOf (o : FindOptions) : FindOptions :=
  {| o_where := o_where o; o_select := o_select o; o_order := o_order o;
     o_limit := o_limit o; o_offset := None; o_startAfter := None;
     o_startAt := None; o_endBefore := None; o_endAt := None;
     o_relations := None |}.

Definition byTitle (l : option nat) (rels : option (list string))
  : FindOptions :=
  {| o_where := None; o_select := None; o_order := Some [("title", Asc)];
     o_limit := l; o_offset := None; o_startAfter := None; o_startAt := None;
     o_endBefore := None; o_endAt := None; o_relations := rels |}.

Definition emptySnapshot : DocumentSnapshot :=
  {| ds_path := ""; ds_data := None |}.

Definition firstPostPage : list (option Entity) :=
  [Some {| e_class := Post;
           e_props := [("title", VStr "a"); ("author", VStr "u1");
                       ("id", VStr "p1")] |}].

Definition withoutLimit (o : FindOptions) : FindOptions :=
  {| o_where := o_where o; o_select := o_select o; o_order := o_order o;
     o_limit := None; o_offset := o_offset o; o_startAfter := o_startAfter o;
     o_startAt := o_startAt o; o_endBefore := o_endBefore o;
     o_endAt := o_endAt o; o_relations := o_relations o |}.

(** C2 as it is worded: the page findByToken returns for the token of
    findAndToken continues the first page so that the pages together
    are, in order, what the original query yields without its page
    size. *)
Definition pagesFollowOriginal (ms : MetadataStorage) (fs : Firestore)
  (opts : CollectionQueryOption) (target : JsFunction) (o : FindOptions)
  : Prop :=
  forall tok page1,
    outcome (findAndToken ms fs opts target (Some (OOptions o)))
    = Ok (Some tok, page1) ->
    exists tok2 page2 all,
      outcome (findByToken ms fs opts target tok) = Ok (tok2, page2)
      /\ outcome (find ms fs opts target (Some (OOptions (withoutLimit o))))
         = Ok all
      /\ page1 ++ page2
         = firstn (List.length page1 + List.length page2) all.

Definition relationsOnly (rels : list string) : FindOptions :=
  {| o_where := None; o_select := None; o_order := None; o_limit := None;
     o_offset := None; o_startAfter := None; o_startAt := None;
     o_endBefore := None; o_endAt := None; o_relations := Some rels |}.

Definition p1Snapshot : DocumentSnapshot :=
  {| ds_path := "posts/p1";
     ds_data := Some [("title", VStr "a"); ("author", VRef "users/u1")] |}.

Definition p2Snapshot : DocumentSnapshot :=
  {| ds_path := "posts/p2";
     ds_data := Some [("title", VStr "b"); ("author", VRef "users/u1")] |}.

(** The snapshots findByIds gets for the references it builds. *)
Definition allDocs (fs : Firestore) (opts : CollectionQueryOption)
  (docRefs : list string) : list DocumentSnapshot :=
  match tnx opts with
  | Some t => tx_getAll t docRefs
  | None => fs_getAll fs docRefs
  end.

(** No condition of [w] is on a declared relation of the class. *)
Definition noRelationCondition (ms : MetadataStorage) (target : JsFunction)
  (w : Obj) : Prop :=
  forall fieldPath v,
    In (fieldPath, v) w ->
    List.find (fun item => String.eqb (r_propertyName item) fieldPath)
              (relationArgs ms target) = None.

(** The conditions of the options are values that JSON carries
    unchanged. *)
Definition jsonSafeWhere (o : FindOptions) : bool :=
  match o_where o with
  | Some w => jsonSafe (VObj w)
  | None => true
  end.

(* ================================================================== *)
(** ** Further notions: values free of client classes *)
(* ================================================================== *)

(** No Timestamp, GeoPoint or DocumentReference occurs in the value, at
    any depth. *)
Fixpoint clientFree (v : Value) : bool :=
  match v with
  | VTimestamp _ | VGeoPoint _ _ | VRef _ => false
  | VObj fields =>
      (fix all (l : list (string * Value)) : bool :=
         match l with
         | [] => true
         | (_, x) :: rest => clientFree x && all rest
         end) fields
  | VArr items =>
      (fix all (l : list Value) : bool :=
         match l with
         | [] => true
         | x :: rest => clientFree x && all rest
         end) items
  | _ => true
  end.
(* ================================================================== *)
(** ** transformToPlain and convertToFirestoreObject *)
(* ================================================================== *)

(** A loop over the items of an array whose body may throw: the first
    error ends it. *)
Fixpoint forEachRes {A B : Type} (f : A -> Res B) (l : list A) : Res (list B) :=
  match l with
  | [] => Ok []
  | a :: rest =>
      res_bind (f a) (fun b =>
      res_bind (forEachRes f rest) (fun bs => Ok (b :: bs)))
  end.

(** The properties left after the loop: a deleted key is gone. *)
Fixpoint present {A : Type} (l : list (option A)) : list A :=
  match l with
  | [] => []
  | Some a :: rest => a :: present rest
  | None :: rest => present rest
  end.

(** [r.k] for the two properties read off a truthy [$ref]: a plain
    object gives its field, a DocumentReference its id and path, any
    other value undefined. *)
Definition ref_field (r : Value) (k : string) : Value :=
  match r with
  | VObj o =>
      match obj_get k o with
      | Some x => x
      | None => VUndefined
      end
  | VRef p =>
      if String.eqb k "id" then VStr (last_segment p)
      else if String.eqb k "path" then VStr p
      else VUndefined
  | _ => VUndefined
  end.

(** [x && x.$ref]: the value of [$ref] when it is truthy.  Only a plain
    object carries such a property. *)
Definition dollar_ref (x : Value) : option Value :=
  match x with
  | VObj o =>
      match obj_get "$ref" o with
      | Some r => if truthy r then Some r else None
      | None => None
      end
  | _ => None
  end.

Section TransformToPlain.

(** [firestore.collection(path).doc(id)]: the path of the reference the
    client builds, or the error it raises on arguments it refuses. *)
Variable collectionDoc : Value -> Value -> Res string.

(** What becomes of a call of convertToFirestoreObject on a
    DocumentReference: the loop then runs over the fields the client
    keeps in the reference, which are not part of this layer. *)
Variable walkReference : string -> Res unit.

(** classToPlain of class-transformer. *)
Variable classToPlain : Entity -> Value.

(** The callback of the inner [obj[key].forEach]: an element of an
    array that is the value of a property. *)
Definition convertElement (convert : Value -> Res Value) (e : Value)
  : Res Value :=
  match e with
  | VUndefined => Ok VNull
  | VNull | VObj _ | VArr _ | VRef _ => convert e
  | _ => Ok e
  end.

(** The callback of [Object.keys(obj).forEach] for the value [x] of one
    key; [None] when the key was deleted. *)
Definition convertProperty (convert : Value -> Res Value) (x : Value)
  : Res (option Value) :=
  match x with
  | VUndefined => Ok None
  | _ =>
      match dollar_ref x with
      | Some r =>
          res_bind (collectionDoc (ref_field r "path") (ref_field r "id"))
            (fun p => Ok (Some (VRef p)))
      | None =>
          match x with
          | VArr items =>
              res_bind (forEachRes (convertElement convert) items)
                (fun items' => Ok (Some (VArr items')))
          | VNull | VDate _ | VTimestamp _ | VGeoPoint _ _ | VRef _ | VObj _ =>
              res_bind (convert x) (fun x' => Ok (Some x'))
          | _ => Ok (Some x)
          end
      end
  end.

(** convertToFirestoreObject(obj), with the object it returns.
    Object.keys throws a TypeError on null and undefined, gives the
    indices of an array, and gives no key the loop acts on for a Date, a
    Timestamp or a GeoPoint (their fields are numbers).  An element
    deleted from an array leaves a hole, which reads as undefined. *)
Fixpoint convertToFirestoreObject (obj : Value) : Res Value :=
  match obj with
  | VUndefined | VNull => Err TypeError
  | VObj fields =>
      res_bind
        (forEachRes
           (fun kv =>
              res_bind (convertProperty convertToFirestoreObject (snd kv))
                (fun x' => Ok (option_map (pair (fst kv)) x')))
           fields)
        (fun fields' => Ok (VObj (present fields')))
  | VArr items =>
      res_bind
        (forEachRes
           (fun x =>
              res_bind (convertProperty convertToFirestoreObject x)
                (fun x' => Ok (match x' with
                               | Some v => v
                               | None => VUndefined
                               end)))
           items)
        (fun items' => Ok (VArr items'))
  | VRef p => res_bind (walkReference p) (fun _ => Ok (VRef p))
  | _ => Ok obj
  end.

Definition transformToPlain (obj : Entity) : Res Value :=
  convertToFirestoreObject (classToPlain obj).

End TransformToPlain.

Definition isNull (v : Value) : bool :=
  match v with
  | VNull => true
  | _ => false
  end.

Definition isUndefined (v : Value) : bool :=
  match v with
  | VUndefined => true
  | _ => false
  end.

(** A null is the value of a property or an element of an array
    somewhere in the value. *)
Fixpoint nullInside (v : Value) : bool :=
  match v with
  | VObj fields =>
      (fix any (l : list (string * Value)) : bool :=
         match l with
         | [] => false
         | (_, x) :: rest => isNull x || nullInside x || any rest
         end) fields
  | VArr items =>
      (fix any (l : list Value) : bool :=
         match l with
         | [] => false
         | x :: rest => isNull x || nullInside x || any rest
         end) items
  | _ => false
  end.

(** Plain data: no DocumentReference and no object with a truthy [$ref]
    occurs in the value. *)
Fixpoint plainData (v : Value) : bool :=
  match v with
  | VRef _ => false
  | VObj fields =>
      match dollar_ref (VObj fields) with
      | Some _ => false
      | None =>
          (fix all (l : list (string * Value)) : bool :=
             match l with
             | [] => true
             | (_, x) :: rest => plainData x && all rest
             end) fields
      end
  | VArr items =>
      (fix all (l : list Value) : bool :=
         match l with
         | [] => true
         | x :: rest => plainData x && all rest
         end) items
  | _ => true
  end.

(** No property of an object in the value is undefined, and no element
    of an array held by a property is. *)
Fixpoint noUndefinedField (v : Value) : bool :=
  match v with
  | VObj fields =>
      (fix all (l : list (string * Value)) : bool :=
         match l with
         | [] => true
         | (_, x) :: rest =>
             negb (isUndefined x)
             && match x with
                | VArr items => negb (existsb isUndefined items)
                | _ => true
                end
             && noUndefinedField x && all rest
         end) fields
  | VArr items =>
      (fix all (l : list Value) : bool :=
         match l with
         | [] => true
         | x :: rest => noUndefinedField x && all rest
         end) items
  | _ => true
  end.

(** [{ $ref: { id, path } }], the plain form of a reference. *)
Definition refObject (path id : string) : Value :=
  VObj [("$ref", VObj [("id", VStr id); ("path", VStr path)])].

(** How convertToFirestoreObject, the callback of its loop and the
    callback of its inner loop end on plain data: with a TypeError when
    a null is met, with a result otherwise. *)
Definition endsOnNull (collectionDoc : Value -> Value -> Res string)
  (walkReference : string -> Res unit) (v : Value) : Prop :=
  let convert := convertToFirestoreObject collectionDoc walkReference in
  plainData v = true ->
  ((isUndefined v || isNull v || nullInside v = true ->
    convert v = Err TypeError)
   /\ (isUndefined v || isNull v || nullInside v = false ->
       exists v', convert v = Ok v'))
  /\ ((isNull v || nullInside v = true ->
       convertProperty collectionDoc convert v = Err TypeError)
      /\ (isNull v || nullInside v = false ->
          exists o, convertProperty collectionDoc convert v = Ok o))
  /\ ((isNull v || nullInside v = true ->
       convertElement convert v = Err TypeError)
      /\ (isNull v || nullInside v = false ->
          exists e, convertElement convert v = Ok e)).

(** What the same three return holds no undefined where the store
    refuses one. *)
Definition keepsNoUndefined (collectionDoc : Value -> Value -> Res string)
  (walkReference : string -> Res unit) (v : Value) : Prop :=
  let convert := convertToFirestoreObject collectionDoc walkReference in
  (forall v', convert v = Ok v' ->
              isUndefined v' = false /\ noUndefinedField v' = true)
  /\ (forall x', convertProperty collectionDoc convert v = Ok (Some x') ->
                 isUndefined x' = false
                 /\ match x' with
                    | VArr items => existsb isUndefined items = false
                    | _ => True
                    end
                 /\ noUndefinedField x' = true)
  /\ (forall e', convertElement convert v = Ok e' ->
                 isUndefined e' = false /\ noUndefinedField e' = true).
(* ================================================================== *)
(** ** Further notions: the reads of the query methods *)
(* ================================================================== *)

(** A read issued through the transaction of the options. *)
Definition isTxRead (r : Request) : bool :=
  match r with
  | ReqTxGet _ | ReqTxGetAll _ => true
  | _ => false
  end.

(** The read that retrieves the documents of a query:
    [tnx ? tnx.get(q) : q.get()]. *)
Definition queryRead (opts : CollectionQueryOption) (q : Query) : Request :=
  match tnx opts with
  | Some _ => ReqTxGet q
  | None => ReqQueryGet q
  end.

(** The read that retrieves the documents of findByIds. *)
Definition allRead (opts : CollectionQueryOption) (docRefs : list string)
  : Request :=
  match tnx opts with
  | Some _ => ReqTxGetAll docRefs
  | None => ReqGetAll docRefs
  end.

(** A transaction over the in-memory store. *)
Definition memTransaction (store : list (string * Obj)) : Transaction :=
  {| tx_get := mem_getQuery store;
     tx_getAll := map (mem_getDoc store) |}.

(** The read that loading the relation [relation] of the document [d]
    may issue: the get of the reference held in the field for a
    many-to-one relation; for a one-to-many relation the query on the
    collection of the related class for the documents whose inverse
    side is the reference collectionPath/id. *)
Definition relationRead (ms : MetadataStorage) (target : JsFunction)
  (collectionPath idPropName : string) (d : DocumentSnapshot)
  (relation : string) (req : Request) : Prop :=
  exists arg,
    List.find (fun item => String.eqb (r_propertyName item) relation)
              (relationArgs ms target) = Some arg
    /\ match r_relationType arg with
       | ManyToOne =>
           exists path,
             obj_get relation (docData idPropName d) = Some (VRef path)
             /\ req = ReqDocGet path
       | OneToMany =>
           exists relationClass relationCollectionPath,
             call_fn (r_type arg) = Ok relationClass
             /\ getCollectionPath ms relationClass = Ok relationCollectionPath
             /\ req = ReqQueryGet
                        {| q_source := QCollection relationCollectionPath;
                           q_steps :=
                             [SWhere (r_inverseSide arg) (VStr "==")
                                (VRef (collectionPath ++ "/" ++ ds_id d))] |}
       | OneToOne => False
       end.

(** The options with their [relations] replaced. *)
Definition withRelations (o : FindOptions) (rels : option (list string))
  : FindOptions :=
  {| o_where := o_where o; o_select := o_select o; o_order := o_order o;
     o_limit := o_limit o; o_offset := o_offset o;
     o_startAfter := o_startAfter o; o_startAt := o_startAt o;
     o_endBefore := o_endBefore o; o_endAt := o_endAt o;
     o_relations := rels |}.

(** The entity of a document none of whose relations is loaded. *)
Definition plainEntity (target : JsFunction) (idPropName : string)
  (d : DocumentSnapshot) : Entity :=
  transformToClass target (docData idPropName d).

(** The collection findByIds looks the ids up in. *)
Definition byIdsPath (ms : MetadataStorage) (opts : CollectionQueryOption)
  (target : JsFunction) : Res string :=
  match truthy_val (parentPath opts) with
  | Some p => Ok p
  | None => getCollectionPath ms target
  end.

(** A registry in which a class has a collection but no id property. *)
Definition noIdStorage : MetadataStorage :=
  {| collections := [plainCollection "posts" Post];
     ids := []; properties := []; relations := [] |}.

(** A condition value on which [value.type] cannot be read. *)
Definition nullish (v : Value) : bool :=
  match v with
  | VNull | VUndefined => true
  | _ => false
  end.

(** None of the names is declared as a one-to-many relation of the
    class. *)
Definition noOneToMany (ms : MetadataStorage) (target : JsFunction)
  (names : list string) : Prop :=
  forall r arg,
    In r names ->
    List.find (fun item => String.eqb (r_propertyName item) r)
              (relationArgs ms target) = Some arg ->
    r_relationType arg <> OneToMany.

(** The options with [limit: 1] and no offset. *)
Definition limitOne (o : FindOptions) : FindOptions :=
  {| o_where := o_where o; o_select := o_select o; o_order := o_order o;
     o_limit := Some 1; o_offset := None;
     o_startAfter := o_startAfter o; o_startAt := o_startAt o;
     o_endBefore := o_endBefore o; o_endAt := o_endAt o;
     o_relations := o_relations o |}.

(** The options name no cursor. *)
Definition noCursor (o : FindOptions) : Prop :=
  o_startAfter o = None /\ o_startAt o = None
  /\ o_endBefore o = None /\ o_endAt o = None.

(** The options of a CollectionQuery that runs in a transaction over
    the example store. *)
Definition txOptions : CollectionQueryOption :=
  {| collectionId := None; parentPath := None;
     tnx := Some (memTransaction blogStore) |}.

Definition p1Entity : Entity :=
  {| e_class := Post;
     e_props := [("title", VStr "a"); ("author", VStr "u1");
                 ("id", VStr "p1")] |}.

Definition p2Entity : Entity :=
  {| e_class := Post;
     e_props := [("title", VStr "b"); ("author", VStr "u1");
                 ("id", VStr "p2")] |}.

(** The query loadRelations issues for a one-to-many relation of the
    document at [documentPath]. *)
Definition inverseQuery (relationCollectionPath inverseSide documentPath : string)
  : Query :=
  {| q_source := QCollection relationCollectionPath;
     q_steps := [SWhere inverseSide (VStr "==") (VRef documentPath)] |}.

(** The array a one-to-many relation is set to: the converted data of
    the documents the query brought. *)
Definition relatedData (docs : list DocumentSnapshot) : Value :=
  VArr (map (fun doc => VObj (convertToJsObject (ds_spread doc))) docs).

(** class Post with two one-to-many relations, comments and likes. *)
Definition Like : JsFunction := ClassCtor "Like".

Definition twoManyStorage : MetadataStorage :=
  {| collections := [plainCollection "posts" Post;
                     plainCollection "comments" Comment;
                     plainCollection "likes" Like];
     ids := [plainId Post "id"];
     properties := [];
     relations :=
       [ {| r_target := Post; r_propertyName := "comments";
            r_relationType := OneToMany; r_lazy := false;
            r_type := ArrowFn Comment; r_inverseSide := "post" |};
         {| r_target := Post; r_propertyName := "likes";
            r_relationType := OneToMany; r_lazy := false;
            r_type := ArrowFn Like; r_inverseSide := "post" |} ] |}.

Definition twoManyStore : list (string * Obj) :=
  [ ("comments/c1", [("post", VRef "posts/p1"); ("text", VStr "first")]);
    ("likes/l1", [("post", VRef "posts/p1"); ("by", VStr "u2")]);
    ("posts/p1", [("title", VStr "a")]) ].
(* ================================================================== *)
(** * Properties *)
(* ================================================================== *)

(** ** Basic facts *)

Lemma JsFunction_eqb_eq (f g : JsFunction) :
  JsFunction_eqb f g = true <-> f = g.
Proof.
  revert g; induction f as [a | f IH]; intros [b | g]; simpl;
    try (split; [discriminate | intros H; discriminate H]).
  - rewrite String.eqb_eq. split; intros H; [now subst | now inversion H].
  - rewrite IH. split; intros H; [now subst | now inversion H].
Qed.

Lemma JsFunction_eqb_refl (f : JsFunction) : JsFunction_eqb f f = true.
Proof. now apply JsFunction_eqb_eq. Qed.

Lemma find_hd_filter {A} (f : A -> bool) (l : list A) :
  List.find f l = hd_error (filter f l).
Proof.
  induction l as [| a l IH]; simpl; [reflexivity |].
  destruct (f a); simpl; auto.
Qed.

Lemma find_none_iff {A} (f : A -> bool) (l : list A) :
  List.find f l = None <-> ~ exists x, In x l /\ f x = true.
Proof.
  split.
  - intros H [x [Hin Hx]].
    pose proof (find_none f l H x Hin) as Hf. congruence.
  - intros H. destruct (List.find f l) as [x |] eqn:E; [| reflexivity].
    exfalso. apply H. exists x. now apply find_some in E.
Qed.

Lemma find_registered {A} (f : A -> bool) (l : list A) (x : A) :
  In x l -> f x = true -> exists y, List.find f l = Some y /\ In y l /\ f y = true.
Proof.
  intros Hin Hx. destruct (List.find f l) as [y |] eqn:E.
  - exists y. apply find_some in E. tauto.
  - pose proof (find_none f l E x Hin). congruence.
Qed.

(** ** The metadata registry *)

Lemma getCollection_spec (ms : MetadataStorage) (target : JsFunction) :
  (~ hasCollection ms target /\ getCollection ms target = Err CollectionNotFound
   /\ getCollectionName ms target = Err CollectionNotFound)
  \/ (exists c, In c (collections ms) /\ c_target c = target
                /\ getCollection ms target = Ok c
                /\ getCollectionName ms target = Ok (collectionPathOf c)).
Proof.
  unfold getCollection, getCollectionName, hasCollection.
  destruct (List.find _ (collections ms)) as [c |] eqn:E.
  - right. exists c. apply find_some in E. destruct E as [Hin Ht].
    apply JsFunction_eqb_eq in Ht. repeat split; auto.
  - left. repeat split; auto. intros [c [Hin Ht]].
    pose proof (find_none _ _ E c Hin) as Hf. simpl in Hf.
    rewrite Ht, JsFunction_eqb_refl in Hf. discriminate.
Qed.

Lemma getIdProp_spec (ms : MetadataStorage) (target : JsFunction) :
  (~ hasIdProp ms target /\ getIdProp ms target = Err IdPerpertyNotFound)
  \/ (exists p, In p (ids ms) /\ id_target p = target
                /\ getIdProp ms target = Ok p).
Proof.
  unfold getIdProp, hasIdProp.
  destruct (List.find _ (ids ms)) as [p |] eqn:E.
  - right. exists p. apply find_some in E. destruct E as [Hin Ht].
    apply JsFunction_eqb_eq in Ht. repeat split; auto.
  - left. split; auto. intros [p [Hin Ht]].
    pose proof (find_none _ _ E p Hin) as Hf. simpl in Hf.
    rewrite Ht, JsFunction_eqb_refl in Hf. discriminate.
Qed.

(** C8. getCollection and getCollectionName end in CollectionNotFound
    exactly when no collection entry is registered for the class, and
    getIdProp, getIdPropName and getIdGenerataValue end in
    IdPerpertyNotFound exactly when no id entry is registered for it;
    when an entry is registered each of them returns, from a registered
    entry of that class, without an error. *)
Theorem C8_missing_metadata_errors
  (uuid : UuidSource) (ms : MetadataStorage) (target : JsFunction) :
  (getCollection ms target = Err CollectionNotFound <-> ~ hasCollection ms target)
  /\ (getCollectionName ms target = Err CollectionNotFound
      <-> ~ hasCollection ms target)
  /\ (hasCollection ms target ->
      exists c, In c (collections ms) /\ c_target c = target
                /\ getCollection ms target = Ok c
                /\ getCollectionName ms target = Ok (collectionPathOf c))
  /\ (getIdProp ms target = Err IdPerpertyNotFound <-> ~ hasIdProp ms target)
  /\ (getIdPropName ms target = Err IdPerpertyNotFound <-> ~ hasIdProp ms target)
  /\ (getIdGenerataValue uuid ms target = Err IdPerpertyNotFound
      <-> ~ hasIdProp ms target)
  /\ (hasIdProp ms target ->
      exists p, In p (ids ms) /\ id_target p = target
                /\ getIdProp ms target = Ok p
                /\ getIdPropName ms target = Ok (id_propertyName p)
                /\ exists v, getIdGenerataValue uuid ms target = Ok v).
Proof.
  destruct (getCollection_spec ms target)
    as [[Hn [E1 E2]] | [c [Hin [Ht [E1 E2]]]]];
  destruct (getIdProp_spec ms target) as [[Hi E3] | [p [Hip [Htp E3]]]];
  unfold getIdPropName, getIdGenerataValue; rewrite E1, E2, E3; simpl;
  repeat match goal with
         | |- _ /\ _ => split
         | |- _ <-> _ => split
         end;
  try tauto; try discriminate;
  try (intros _ [H0 | H0]; discriminate);
  try (intros H; exfalso; apply H; first [now exists c | now exists p]);
  try (intros _; exists c; repeat split; auto);
  try (intros _; exists p; repeat split; auto;
       destruct (id_strategy p); eauto);
  try (destruct (id_strategy p); discriminate).
Qed.

Lemma ids_fold_registerId (regs : list IdPropertyMetadataArgs)
  (ms : MetadataStorage) :
  ids (fold_left registerId regs ms) = ids ms ++ regs.
Proof.
  revert ms; induction regs as [| a regs IH]; intros ms; simpl.
  - now rewrite app_nil_r.
  - rewrite IH. simpl. now rewrite <- app_assoc.
Qed.

Lemma ids_registerIds (regs : list IdPropertyMetadataArgs) :
  ids (registerIds regs) = regs.
Proof. unfold registerIds. now rewrite ids_fold_registerId. Qed.

Lemma filter_target_nil (target : JsFunction)
  (regs : list IdPropertyMetadataArgs) :
  ~ In target (map id_target regs) ->
  filter (fun idProp => JsFunction_eqb (id_target idProp) target) regs = [].
Proof.
  induction regs as [| a regs IH]; simpl; intros H; [reflexivity |].
  destruct (JsFunction_eqb (id_target a) target) eqn:E.
  - apply JsFunction_eqb_eq in E. tauto.
  - apply IH. tauto.
Qed.

Lemma NoDup_targets_atMostOne (target : JsFunction)
  (regs : list IdPropertyMetadataArgs) :
  NoDup (map id_target regs) ->
  List.length
    (filter (fun idProp => JsFunction_eqb (id_target idProp) target) regs) <= 1.
Proof.
  induction regs as [| a regs IH]; simpl; intros H; [lia |].
  inversion H as [| x l Hnotin Hnd]; subst.
  destruct (JsFunction_eqb (id_target a) target) eqn:E.
  - apply JsFunction_eqb_eq in E. subst target.
    rewrite filter_target_nil by assumption. simpl. lia.
  - now apply IH.
Qed.

(** C7, as stated, fails: the storage keeps [ids] as a plain array and
    nothing in it refuses a second id entry for a class.  After
    registering the id properties "id" and "key" for the class User, the
    ids list holds two entries whose target is User. *)
Lemma C7_two_ids_counterexample :
  ~ atMostOneId (registerIds [plainId User "id"; plainId User "key"]).
Proof.
  intros H. specialize (H User). vm_compute in H. lia.
Qed.

(** C7, amended.  For every sequence of registrations: the ids list is
    the sequence itself; getIdProp answers with the first entry
    registered for the class (IdPerpertyNotFound when there is none), so
    getIdProp, getIdPropName and getIdGenerataValue are functions of the
    registry whatever it holds; and the list has at most one entry per
    class whenever no class was registered an id property twice. *)
Theorem C7_first_id_entry_is_read
  (uuid : UuidSource) (regs : list IdPropertyMetadataArgs) :
  ids (registerIds regs) = regs
  /\ (forall target,
        getIdProp (registerIds regs) target
        = match idEntries (registerIds regs) target with
          | [] => Err IdPerpertyNotFound
          | p :: _ => Ok p
          end)
  /\ (forall target,
        getIdPropName (registerIds regs) target
        = res_bind (getIdProp (registerIds regs) target)
                   (fun p => Ok (id_propertyName p)))
  /\ (forall target p,
        getIdProp (registerIds regs) target = Ok p ->
        exists v, getIdGenerataValue uuid (registerIds regs) target = Ok v)
  /\ (NoDup (map id_target regs) -> atMostOneId (registerIds regs)).
Proof.
  repeat split.
  - apply ids_registerIds.
  - intros target. unfold getIdProp, idEntries.
    rewrite find_hd_filter.
    now destruct (filter _ (ids (registerIds regs))).
  - intros target p E. unfold getIdGenerataValue. rewrite E. simpl.
    destruct (id_strategy p); eauto.
  - intros Hnd target. unfold idEntries. rewrite ids_registerIds.
    now apply NoDup_targets_atMostOne.
Qed.

(** An instance of C7 amended: the three id properties of the blog
    registry, one per class. *)
Lemma C7_first_id_entry_is_read_witness :
  NoDup (map id_target (ids blogStorage))
  /\ atMostOneId (registerIds (ids blogStorage))
  /\ getIdProp (registerIds (ids blogStorage)) Post = Ok (plainId Post "id").
Proof.
  pose proof (C7_first_id_entry_is_read
                {| uuid_v1 := "1"; uuid_v4 := "4" |} (ids blogStorage))
    as [_ [Hget [_ [_ Hinv]]]].
  assert (Hnd : NoDup (map id_target (ids blogStorage))).
  { simpl. repeat constructor; simpl; intros H;
      repeat (destruct H as [H | H]; [discriminate H |]); exact H. }
  split; [exact Hnd |]. split; [exact (Hinv Hnd) |].
  rewrite Hget. reflexivity.
Defined.

(** ** Reasoning about computations *)

Lemma bind_ok {A B} (m : M A) (f : A -> M B) (t : list Request) (a : A) :
  m = (t, Ok a) -> bind m f = (t ++ trace (f a), outcome (f a)).
Proof. intros ->. unfold bind, trace, outcome. now destruct (f a). Qed.

Lemma bind_err {A B} (m : M A) (f : A -> M B) (t : list Request) (e : Error) :
  m = (t, Err e) -> bind m f = (t, Err e).
Proof. now intros ->. Qed.

Lemma outcome_bind {A B} (m : M A) (f : A -> M B) :
  outcome (bind m f)
  = match outcome m with
    | Ok a => outcome (f a)
    | Err e => Err e
    end.
Proof.
  destruct m as [t [a | e]]; simpl; [| reflexivity].
  unfold outcome. now destruct (f a).
Qed.

Lemma trace_bind {A B} (m : M A) (f : A -> M B) :
  trace (bind m f)
  = match outcome m with
    | Ok a => trace m ++ trace (f a)
    | Err _ => trace m
    end.
Proof.
  destruct m as [t [a | e]]; simpl; [| reflexivity].
  unfold trace. now destruct (f a).
Qed.

Lemma outcome_lift {A} (r : Res A) : outcome (lift r) = r.
Proof. reflexivity. Qed.

Lemma trace_lift {A} (r : Res A) : trace (lift r) = [].
Proof. reflexivity. Qed.

Lemma M_eta {A} (m : M A) : m = (trace m, outcome m).
Proof. now destruct m. Qed.

Create HintDb low.

Lemma lowR_Ok {A} (a : A) : lowR (Ok a).
Proof. intros e H; discriminate. Qed.

Lemma lowR_CollectionNotFound {A} : lowR (@Err A CollectionNotFound).
Proof. intros e H; inversion H; unfold lowErr; auto. Qed.

Lemma lowR_IdPerpertyNotFound {A} : lowR (@Err A IdPerpertyNotFound).
Proof. intros e H; inversion H; unfold lowErr; auto. Qed.

Lemma lowR_TypeError {A} : lowR (@Err A TypeError).
Proof. intros e H; inversion H; unfold lowErr; auto. Qed.

Lemma lowR_res_bind {A B} (r : Res A) (f : A -> Res B) :
  lowR r -> (forall a, lowR (f a)) -> lowR (res_bind r f).
Proof.
  intros Hr Hf. destruct r as [a | e]; simpl; [apply Hf |].
  intros e' H; inversion H; subst. now apply Hr.
Qed.

Lemma lowR_foldRes {A S} (f : S -> A -> Res S) (l : list A) :
  (forall s a, lowR (f s a)) -> forall s, lowR (foldRes f s l).
Proof.
  intros Hf. induction l as [| a l IH]; intros s; simpl.
  - apply lowR_Ok.
  - apply lowR_res_bind; auto.
Qed.

Lemma low_ret {A} (a : A) : low (ret a).
Proof. apply lowR_Ok. Qed.

Lemma low_request {A} (r : Request) (a : A) : low (request r a).
Proof. apply lowR_Ok. Qed.

Lemma low_lift {A} (r : Res A) : lowR r -> low (lift r).
Proof. auto. Qed.

Lemma low_bind {A B} (m : M A) (f : A -> M B) :
  low m -> (forall a, low (f a)) -> low (bind m f).
Proof.
  unfold low. rewrite outcome_bind. intros Hm Hf.
  destruct (outcome m) as [a | e]; [apply Hf |].
  intros e' H; inversion H; subst. now apply Hm.
Qed.

Lemma low_foldM {A S} (f : S -> A -> M S) (l : list A) :
  (forall s a, low (f s a)) -> forall s, low (foldM f s l).
Proof.
  intros Hf. induction l as [| a l IH]; intros s; simpl.
  - apply low_ret.
  - apply low_bind; auto.
Qed.

#[local] Hint Resolve lowR_Ok lowR_CollectionNotFound lowR_IdPerpertyNotFound
  lowR_TypeError low_ret low_request low_lift : low.

Lemma lowR_getCollectionPath ms target : lowR (getCollectionPath ms target).
Proof.
  unfold getCollectionPath, getCollectionName.
  destruct (List.find _ _); auto with low.
Qed.

Lemma lowR_getIdPropName ms target : lowR (getIdPropName ms target).
Proof.
  unfold getIdPropName, getIdProp.
  destruct (List.find _ _); simpl; auto with low.
Qed.

Lemma lowR_call_fn f : lowR (call_fn f).
Proof. destruct f; simpl; auto with low. Qed.

Lemma lowR_assignRow index relation path m :
  lowR (assignRow index relation path m).
Proof. unfold assignRow. destruct (nth_error m index); auto with low. Qed.

Lemma lowR_get_prop v k : lowR (get_prop v k).
Proof. destruct v; simpl; auto with low. Qed.

#[local] Hint Resolve lowR_getCollectionPath lowR_getIdPropName lowR_call_fn
  lowR_assignRow lowR_get_prop : low.

Ltac low_step :=
  match goal with
  | |- low (bind _ _) => apply low_bind; [| intros ? ]
  | |- lowR (res_bind _ _) => apply lowR_res_bind; [| intros ? ]
  | |- low (match ?x with _ => _ end) => destruct x
  | |- lowR (match ?x with _ => _ end) => destruct x
  | |- low (lift _) => apply low_lift
  | |- _ => solve [auto with low]
  end.

Lemma low_loadRelation ms fs collectionPath idPropName args index data st r :
  low (loadRelation ms fs collectionPath idPropName args index data st r).
Proof. unfold loadRelation. destruct st as [m cache]. repeat low_step. Qed.

Lemma low_loadDoc ms fs target collectionPath idPropName names index doc st :
  low (loadDoc ms fs target collectionPath idPropName names index doc st).
Proof.
  unfold loadDoc. destruct doc as [d |]; [| auto with low].
  destruct names as [[| n names] |]; auto with low.
  apply low_bind; [| auto with low].
  apply low_foldM. intros; apply low_loadRelation.
Qed.

Lemma low_loadDocs ms fs target collectionPath idPropName names docs :
  forall index st,
    low (loadDocs ms fs target collectionPath idPropName names index docs st).
Proof.
  induction docs as [| d docs IH]; intros index st; simpl; [auto with low |].
  apply low_bind; [apply low_loadDoc |]. intros r.
  apply low_bind; [apply IH | auto with low].
Qed.

Lemma low_loadRelations ms fs target docs names :
  low (loadRelations ms fs target docs names).
Proof.
  unfold loadRelations.
  apply low_bind; [auto with low | intros idPropName].
  apply low_bind; [auto with low | intros collectionPath].
  apply low_bind; [apply low_loadDocs | intros r; auto with low].
Qed.

Lemma lowR_getQuery ms opts target : lowR (getQuery ms opts target).
Proof.
  unfold getQuery. destruct (truthy_val (collectionId opts)); auto with low.
  destruct (truthy_val (parentPath opts)); auto with low.
  apply lowR_res_bind; auto with low.
Qed.

Lemma lowR_plainCondition f v q : lowR (plainCondition f v q).
Proof.
  unfold plainCondition. apply lowR_res_bind; auto with low.
  intros t. destruct (truthy t); auto with low.
  apply lowR_res_bind; auto with low.
Qed.

Lemma lowR_findCondition ms rel q c : lowR (findCondition ms rel q c).
Proof.
  unfold findCondition. destruct c as [f v].
  destruct (List.find _ rel); [| apply lowR_plainCondition].
  destruct (negb (is_ref v)); [| apply lowR_plainCondition].
  apply lowR_res_bind; auto with low.
Qed.

Lemma lowR_findOneCondition ms rel q c : lowR (findOneCondition ms rel q c).
Proof.
  unfold findOneCondition. destruct c as [f v].
  destruct (List.find _ rel); [| apply lowR_plainCondition].
  apply lowR_res_bind; auto with low. intros a.
  apply lowR_res_bind; auto with low.
Qed.

Lemma lowR_findQuery ms opts target ooc : lowR (findQuery ms opts target ooc).
Proof.
  unfold findQuery. apply lowR_res_bind; [apply lowR_getQuery |]. intros q.
  apply lowR_res_bind.
  - destruct (getFindConditionsFromFindManyOptions ooc); auto with low.
    apply lowR_foldRes. intros; apply lowR_findCondition.
  - intros q'. destruct ooc as [[o | c] |]; auto with low.
Qed.

Lemma lowR_findOneQuery ms opts target ooc :
  lowR (findOneQuery ms opts target ooc).
Proof.
  unfold findOneQuery. apply lowR_res_bind; [apply lowR_getQuery |]. intros q.
  apply lowR_res_bind.
  - destruct (getFindConditionsFromFindOneOptions ooc); auto with low.
    apply lowR_foldRes. intros; apply lowR_findOneCondition.
  - intros q'. destruct ooc as [[o | c] |]; auto with low.
Qed.

Lemma low_runQuery fs opts q : low (runQuery fs opts q).
Proof. unfold runQuery. destruct (tnx opts); auto with low. Qed.

Lemma low_find ms fs opts target ooc : low (find ms fs opts target ooc).
Proof.
  unfold find. apply low_bind; [apply low_lift, lowR_findQuery |]. intros q.
  apply low_bind; [apply low_runQuery |]. intros docs.
  apply low_loadRelations.
Qed.

Lemma low_findOne ms fs opts target ooc : low (findOne ms fs opts target ooc).
Proof.
  unfold findOne. apply low_bind; [apply low_lift, lowR_findOneQuery |].
  intros q. apply low_bind; [apply low_runQuery |]. intros docs.
  destruct docs as [| d docs]; auto with low.
  destruct (negb (ds_exists d)); auto with low.
  apply low_bind; [apply low_loadRelations | auto with low].
Qed.

Lemma low_not_high (e : Error) :
  lowErr e ->
  e <> FindByIdsNotSupportCollectionGroup
  /\ e <> InvalidPaginationToken
  /\ (forall n, e <> EntityNotFound n)
  /\ e <> InvalidArgument.
Proof.
  intros [-> | [-> | ->]]; repeat split; try discriminate;
    intros n; discriminate.
Qed.

Lemma low_runGetAll fs opts refs : low (runGetAll fs opts refs).
Proof. unfold runGetAll. destruct (tnx opts); auto with low. Qed.

(** ** findByIds on a collection group *)

Lemma truthy_val_Some (s : option string) (c : string) :
  s = Some c -> c <> "" -> truthy_val s = Some c.
Proof.
  intros -> Hc. simpl. destruct (String.eqb c "") eqn:E; [| reflexivity].
  apply String.eqb_eq in E. contradiction.
Qed.

(** C9. When the CollectionQuery was constructed with a collectionId
    (a non-empty collection id, for which getQuery builds a
    collection-group query), findByIds ends in 'findByIds not support
    CollectionGroup' whatever the class, the ids, the registry and the
    store are, and without a single read: the error comes before the
    collection path is looked up and before a reference is built.  With
    no collectionId option findByIds never ends in that error; it ends
    in it exactly when getQuery builds a collection-group query. *)
Theorem C9_findByIds_collection_group
  (ms : MetadataStorage) (fs : Firestore) (opts : CollectionQueryOption)
  (target : JsFunction) (idOrIds : IdOrIds) (fo : option FindOptions) :
  (forall c, collectionId opts = Some c -> c <> "" ->
     getQuery ms opts target
     = Ok {| q_source := QCollectionGroup c; q_steps := [] |}
     /\ findByIds ms fs opts target idOrIds fo
        = ([], Err FindByIdsNotSupportCollectionGroup))
  /\ (collectionId opts = None ->
      outcome (findByIds ms fs opts target idOrIds fo)
      <> Err FindByIdsNotSupportCollectionGroup)
  /\ (outcome (findByIds ms fs opts target idOrIds fo)
      = Err FindByIdsNotSupportCollectionGroup
      <-> exists c,
            getQuery ms opts target
            = Ok {| q_source := QCollectionGroup c; q_steps := [] |}).
Proof.
  assert (Hlow : truthy_val (collectionId opts) = None ->
                 outcome (findByIds ms fs opts target idOrIds fo)
                 <> Err FindByIdsNotSupportCollectionGroup).
  { intros Hc H. unfold findByIds in H. rewrite Hc in H.
    assert (L : low
      (collectionPath <-
         lift (match truthy_val (parentPath opts) with
               | Some p => Ok p
               | None => getCollectionPath ms target
               end) ;;
       docSnapshots <-
         runGetAll fs opts
           (map (fun id => (collectionPath ++ "/" ++ id)%string)
                (match idOrIds with ManyIds ids => ids | OneId id => [id] end)) ;;
       match idOrIds with
       | ManyIds _ =>
           entities <-
             loadRelations ms fs target
               (map (fun v => if ds_exists v then Some v else None) docSnapshots)
               (optionRelations fo) ;;
           ret (ByIdsMany entities)
       | OneId _ =>
           match map (fun v => if ds_exists v then Some v else None)
                     docSnapshots with
           | [] => ret (ByIdsOne JUndefined)
           | _ :: _ =>
               entities <-
                 loadRelations ms fs target
                   (map (fun v => if ds_exists v then Some v else None)
                        docSnapshots)
                   (optionRelations fo) ;;
               ret (ByIdsOne (first_of entities))
           end
       end)).
    { apply low_bind.
      - apply low_lift. destruct (truthy_val (parentPath opts)); auto with low.
      - intros cp. apply low_bind; [apply low_runGetAll |]. intros snaps.
        destruct idOrIds.
        + destruct (map _ snaps); auto with low.
          apply low_bind; [apply low_loadRelations | auto with low].
        + apply low_bind; [apply low_loadRelations | auto with low]. }
    apply L in H. apply low_not_high in H. tauto. }
  split; [| split].
  - intros c Hc Hne. unfold findByIds, getQuery.
    now rewrite (truthy_val_Some _ _ Hc Hne).
  - intros Hc. apply Hlow. now rewrite Hc.
  - destruct (truthy_val (collectionId opts)) as [c |] eqn:Ec.
    + unfold findByIds, getQuery. rewrite Ec. split; eauto.
    + split; [intros H; now apply Hlow in H |].
      intros [c Hq]. unfold getQuery in Hq. rewrite Ec in Hq.
      destruct (truthy_val (parentPath opts)); [discriminate |].
      destruct (getCollectionPath ms target); discriminate.
Qed.

(** An instance of C9: a query over the collection group "posts". *)
Lemma C9_findByIds_collection_group_witness :
  findByIds blogStorage (memFirestore blogStore)
            {| collectionId := Some "posts"; parentPath := None; tnx := None |}
            Post (ManyIds ["p1"; "p2"]) None
  = ([], Err FindByIdsNotSupportCollectionGroup).
Proof.
  refine (proj2 (proj1 (C9_findByIds_collection_group _ _ _ _ _ _)
                       "posts" _ _)).
  - reflexivity.
  - discriminate.
Defined.

(** ** Arrays and objects *)

Lemma nth_error_replace_nth {A} (l : list A) (n i : nat) (x : A) :
  nth_error (replace_nth n x l) i
  = if Nat.eqb i n
    then match nth_error l i with Some _ => Some x | None => None end
    else nth_error l i.
Proof.
  revert n i; induction l as [| a l IH]; intros n i.
  - destruct n, i; simpl; try reflexivity; now destruct (Nat.eqb i n).
  - destruct n as [| n]; destruct i as [| i]; simpl; try reflexivity.
    apply IH.
Qed.

Lemma length_replace_nth {A} (l : list A) (n : nat) (x : A) :
  List.length (replace_nth n x l) = List.length l.
Proof.
  revert n; induction l as [| a l IH]; intros [| n]; simpl; auto.
Qed.

Lemma row_at_nth_error (m : list Row) (i : nat) :
  row_at m i = match nth_error m i with Some r => r | None => [] end.
Proof.
  unfold row_at. revert i; induction m as [| r m IH]; intros [| i]; simpl; auto.
Qed.

Lemma row_at_ensureRow (index : nat) (m : list Row) (i : nat) :
  row_at (ensureRow index m) i = row_at m i.
Proof.
  unfold ensureRow. destruct (nth_error m index); [reflexivity |].
  unfold row_at. destruct (Nat.lt_ge_cases i (List.length m)) as [H | H].
  - now rewrite app_nth1.
  - rewrite app_nth2 by assumption. rewrite (nth_overflow m) by assumption.
    destruct (i - List.length m) as [| [| k]]; reflexivity.
Qed.

Lemma length_ensureRow (index : nat) (m : list Row) :
  List.length m <= List.length (ensureRow index m)
  /\ (index <= List.length m -> index < List.length (ensureRow index m)).
Proof.
  unfold ensureRow. destruct (nth_error m index) eqn:E.
  - split; [lia |]. intros _. apply nth_error_Some. congruence.
  - rewrite length_app. simpl. split; lia.
Qed.

Lemma assignRow_Ok (index : nat) (r p : string) (m m' : list Row) :
  assignRow index r p m = Ok m' ->
  List.length m' = List.length m
  /\ forall i, row_at m' i
               = if Nat.eqb i index then assoc_set r p (row_at m index)
                 else row_at m i.
Proof.
  unfold assignRow. destruct (nth_error m index) as [row |] eqn:E; [| discriminate].
  intros H; inversion H; subst; clear H. split; [apply length_replace_nth |].
  intros i. rewrite !row_at_nth_error, nth_error_replace_nth.
  destruct (Nat.eqb i index) eqn:Ei.
  - apply Nat.eqb_eq in Ei; subst. now rewrite E.
  - reflexivity.
Qed.

Lemma assignRow_total (index : nat) (r p : string) (m : list Row) :
  index < List.length m -> exists m', assignRow index r p m = Ok m'.
Proof.
  intros H. unfold assignRow.
  destruct (nth_error m index) eqn:E; [eauto |].
  apply nth_error_None in E. lia.
Qed.

Lemma assoc_get_set_same {A} (k : string) (v : A) (o : list (string * A)) :
  assoc_get k (assoc_set k v o) = Some v.
Proof.
  induction o as [| [k' v'] o IH]; simpl.
  - now rewrite String.eqb_refl.
  - destruct (String.eqb k' k) eqn:E; simpl; rewrite ?E; auto.
    now rewrite String.eqb_refl.
Qed.

Lemma assoc_get_set_other {A} (k k' : string) (v : A) (o : list (string * A)) :
  k <> k' -> assoc_get k (assoc_set k' v o) = assoc_get k o.
Proof.
  intros Hne. induction o as [| [k0 v0] o IH]; simpl.
  - destruct (String.eqb k' k) eqn:E; [| reflexivity].
    apply String.eqb_eq in E. congruence.
  - destruct (String.eqb k0 k') eqn:E0; simpl.
    + apply String.eqb_eq in E0; subst k0.
      destruct (String.eqb k' k) eqn:E; [| reflexivity].
      apply String.eqb_eq in E. congruence.
    + destruct (String.eqb k0 k); auto.
Qed.

Lemma assoc_set_absent {A} (k : string) (v : A) (o : list (string * A)) :
  assoc_get k o = None -> assoc_set k v o = o ++ [(k, v)].
Proof.
  induction o as [| [k' v'] o IH]; simpl; [reflexivity |].
  destruct (String.eqb k' k); [discriminate |].
  intros H. now rewrite IH.
Qed.

Lemma assoc_get_None_keys {A} (k : string) (o : list (string * A)) :
  assoc_get k o = None <-> ~ In k (map fst o).
Proof.
  induction o as [| [k' v'] o IH]; simpl; [tauto |].
  destruct (String.eqb k' k) eqn:E.
  - apply String.eqb_eq in E. split; [discriminate | tauto].
  - apply String.eqb_neq in E. rewrite IH. tauto.
Qed.

Lemma assoc_get_In {A} (k : string) (v : A) (o : list (string * A)) :
  NoDup (map fst o) -> In (k, v) o -> assoc_get k o = Some v.
Proof.
  induction o as [| [k' v'] o IH]; simpl; [tauto |].
  intros Hnd [H | H].
  - inversion H; subst. now rewrite String.eqb_refl.
  - inversion Hnd as [| x l Hnotin Hnd']; subst.
    destruct (String.eqb k' k) eqn:E; [| auto].
    apply String.eqb_eq in E; subst. exfalso. apply Hnotin.
    now apply (in_map fst) in H.
Qed.

Lemma keys_assoc_set {A} (k : string) (v : A) (o : list (string * A)) :
  NoDup (map fst o) -> NoDup (map fst (assoc_set k v o)).
Proof.
  intros Hnd. destruct (assoc_get k o) eqn:E.
  - assert (Hk : map fst (assoc_set k v o) = map fst o).
    { clear Hnd. induction o as [| [k' v'] o IH]; simpl in *; [discriminate |].
      destruct (String.eqb k' k) eqn:E'; simpl.
      - apply String.eqb_eq in E'. now subst.
      - now rewrite IH. }
    now rewrite Hk.
  - rewrite assoc_set_absent by assumption. rewrite map_app. simpl.
    apply assoc_get_None_keys in E.
    apply NoDup_app; [assumption | repeat constructor; simpl; tauto |].
    intros x Hx [Hx' | []]. subst. contradiction.
Qed.

(** ** One relation of one document *)

Lemma NoDup_snoc_keys (cache : Cache) (k : string) (f : Fetched) :
  NoDup (map fst cache) -> assoc_get k cache = None ->
  NoDup (map fst (cache ++ [(k, f)])).
Proof.
  intros Hnd E. rewrite <- (assoc_set_absent k f cache E).
  now apply keys_assoc_set.
Qed.

Ltac mstep :=
  cbn [bind lift ret request throw trace outcome fst snd app map].

Lemma loadRelation_step ms fs target collectionPath idPropName index d m cache r :
  NoDup (map fst cache) ->
  NoDup (map fst (cache ++ map (cacheEntryOf fs)
    (trace (loadRelation ms fs collectionPath idPropName
              (relationArgs ms target) index (docData idPropName d)
              (m, cache) r))))
  /\ forall m' cache',
       outcome (loadRelation ms fs collectionPath idPropName
                  (relationArgs ms target) index (docData idPropName d)
                  (m, cache) r) = Ok (m', cache') ->
       cache' = cache ++ map (cacheEntryOf fs)
                  (trace (loadRelation ms fs collectionPath idPropName
                            (relationArgs ms target) index
                            (docData idPropName d) (m, cache) r))
       /\ (forall i,
             row_at m' i
             = if Nat.eqb i index
               then match resolvedPath ms target collectionPath idPropName d r with
                    | Some p => assoc_set r p (row_at m index)
                    | None => row_at m index
                    end
               else row_at m i)
       /\ (forall p,
             resolvedPath ms target collectionPath idPropName d r = Some p ->
             In p (map fst cache'))
       /\ List.length m <= List.length m'.
Proof.
  intros Hnd. unfold loadRelation, resolvedPath.
  assert (Hsame : forall i, row_at m i
                            = if Nat.eqb i index then row_at m index
                              else row_at m i).
  { intros i. destruct (Nat.eqb i index) eqn:E; [| reflexivity].
    apply Nat.eqb_eq in E. now subst. }
  pose proof (length_ensureRow index m) as [Hle _].
  destruct (List.find _ (relationArgs ms target)) as [arg |].
  2:{ cbn. rewrite app_nil_r. split; [assumption |].
      intros m' cache' H; inversion H; subst.
      repeat split; auto; discriminate. }
  destruct (r_relationType arg).
  - (* one-to-many *)
    destruct (call_fn (r_type arg)) as [c |]; mstep;
      [| rewrite app_nil_r; split; [assumption | discriminate]].
    destruct (getCollectionPath ms c) as [rp |]; mstep;
      [| rewrite app_nil_r; split; [assumption | discriminate]].
    set (documentPath := (collectionPath ++ "/" ++ _)%string).
    destruct (assignRow index r documentPath (ensureRow index m))
      as [m2 |] eqn:Ea; mstep;
      [| rewrite app_nil_r; split; [assumption | discriminate]].
    apply assignRow_Ok in Ea. destruct Ea as [Hlen Hrow].
    destruct (assoc_get documentPath cache) as [f |] eqn:Ec; mstep.
    + rewrite app_nil_r. split; [assumption |].
      intros m' cache' H; inversion H; subst.
      repeat split; try lia.
      * intros i. rewrite Hrow, !row_at_ensureRow. reflexivity.
      * intros p Hp; inversion Hp; subst.
        destruct (in_dec string_dec documentPath (map fst cache')) as [Hin | Hin];
          [assumption |].
        apply assoc_get_None_keys in Hin. congruence.
    + unfold cacheEntryOf at 1. cbn [fetch_path fetched q_add q_steps app].
      split.
      * now apply NoDup_snoc_keys.
      * intros m' cache' H; inversion H; subst.
        repeat split; try lia.
        -- unfold cacheEntryOf. cbn [fetch_path fetched q_add q_steps app].
           now apply assoc_set_absent.
        -- intros i. rewrite Hrow, !row_at_ensureRow. reflexivity.
        -- intros p Hp; inversion Hp; subst.
           rewrite assoc_set_absent by assumption.
           rewrite map_app, in_app_iff. right. simpl. auto.
  - (* many-to-one *)
    destruct (dot_pick r (docData idPropName d)) as [v |] eqn:Ed.
    2:{ mstep. rewrite app_nil_r. split; [assumption |].
        intros m' cache' H; inversion H; subst.
        repeat split; auto; try discriminate.
        intros i. now rewrite row_at_ensureRow. }
    destruct v;
      try (mstep; rewrite app_nil_r; split; [assumption |];
           intros m' cache' H; inversion H; subst;
           repeat split; auto; try discriminate;
           intros i; now rewrite row_at_ensureRow).
    destruct (assignRow index r path (ensureRow index m)) as [m2 |] eqn:Ea;
      mstep; [| rewrite app_nil_r; split; [assumption | discriminate]].
    apply assignRow_Ok in Ea. destruct Ea as [Hlen Hrow].
    destruct (assoc_get path cache) as [f |] eqn:Ec; mstep.
    + rewrite app_nil_r. split; [assumption |].
      intros m' cache' H; inversion H; subst.
      repeat split; try lia.
      * intros i. rewrite Hrow, !row_at_ensureRow. reflexivity.
      * intros p Hp; inversion Hp; subst.
        destruct (in_dec string_dec p (map fst cache')) as [Hin | Hin];
          [assumption |].
        apply assoc_get_None_keys in Hin. congruence.
    + unfold cacheEntryOf at 1. cbn [fetch_path fetched].
      split.
      * now apply NoDup_snoc_keys.
      * intros m' cache' H; inversion H; subst.
        repeat split; try lia.
        -- unfold cacheEntryOf. cbn [fetch_path fetched].
           now apply assoc_set_absent.
        -- intros i. rewrite Hrow, !row_at_ensureRow. reflexivity.
        -- intros p Hp; inversion Hp; subst.
           rewrite assoc_set_absent by assumption.
           rewrite map_app, in_app_iff. right. simpl. auto.
  - (* one-to-one *)
    mstep. rewrite app_nil_r. split; [assumption |].
    intros m' cache' H; inversion H; subst.
    repeat split; auto; discriminate.
Qed.

(** ** All relations of one document, and all documents *)

Section LoadDocs.

Variable ms : MetadataStorage.
Variable fs : Firestore.
Variable target : JsFunction.
Variables collectionPath idPropName : string.

Local Abbreviation rowOf := (expectedRow ms target collectionPath idPropName).
Local Abbreviation pathOf := (resolvedPath ms target collectionPath idPropName).
Local Abbreviation rowsAfter :=
  (rowsAfter ms target collectionPath idPropName).

Lemma loadNames_step index d names :
  forall m cache,
    NoDup (map fst cache) ->
    NoDup (map fst (cache ++ map (cacheEntryOf fs)
      (trace (foldM (loadRelation ms fs collectionPath idPropName
                       (relationArgs ms target) index (docData idPropName d))
                    (m, cache) names))))
    /\ forall m' cache',
         outcome (foldM (loadRelation ms fs collectionPath idPropName
                           (relationArgs ms target) index
                           (docData idPropName d))
                        (m, cache) names) = Ok (m', cache') ->
         cache' = cache ++ map (cacheEntryOf fs)
                    (trace (foldM (loadRelation ms fs collectionPath idPropName
                                     (relationArgs ms target) index
                                     (docData idPropName d))
                                  (m, cache) names))
         /\ (forall i,
               row_at m' i
               = if Nat.eqb i index then rowOf d names (row_at m index)
                 else row_at m i)
         /\ (forall r p, In r names -> pathOf d r = Some p ->
                         In p (map fst cache'))
         /\ List.length m <= List.length m'.
Proof.
  induction names as [| r names IH]; intros m cache Hnd.
  - cbn. rewrite app_nil_r. split; [assumption |].
    intros m' cache' H; inversion H; subst.
    repeat split; auto; try contradiction.
    intros i. destruct (Nat.eqb i index) eqn:E; [| reflexivity].
    apply Nat.eqb_eq in E. now subst.
  - cbn [foldM]. rewrite trace_bind, outcome_bind.
    destruct (loadRelation_step ms fs target collectionPath idPropName
                index d m cache r Hnd) as [Hnd1 Hok1].
    destruct (outcome (loadRelation ms fs collectionPath idPropName
                         (relationArgs ms target) index
                         (docData idPropName d) (m, cache) r))
      as [[m1 cache1] | e] eqn:E1.
    + destruct (Hok1 m1 cache1 ltac:(first [exact eq_refl | exact E1])) as [Hc1 [Hrow1 [Hin1 Hlen1]]].
      rewrite <- Hc1 in Hnd1.
      destruct (IH m1 cache1 Hnd1) as [Hnd2 Hok2].
      rewrite (map_app (cacheEntryOf fs)), app_assoc, <- Hc1. split; [assumption |].
      intros m' cache' H.
      destruct (Hok2 m' cache' H) as [Hc2 [Hrow2 [Hin2 Hlen2]]].
      repeat split; auto; try lia.
      * intros i. rewrite Hrow2. destruct (Nat.eqb i index) eqn:Ei.
        -- rewrite Hrow1, Nat.eqb_refl. unfold rowOf, expectedRow. simpl.
           reflexivity.
        -- rewrite Hrow1, Ei. reflexivity.
      * intros r' p [-> | Hr] Hp; [| eauto].
        rewrite Hc2, (map_app fst), in_app_iff. left. eauto.
    + split; [assumption | discriminate].
Qed.

Lemma loadDoc_step relationNames index doc m cache :
  NoDup (map fst cache) ->
  NoDup (map fst (cache ++ map (cacheEntryOf fs)
    (trace (loadDoc ms fs target collectionPath idPropName relationNames
                    index doc (m, cache)))))
  /\ forall data m' cache',
       outcome (loadDoc ms fs target collectionPath idPropName relationNames
                        index doc (m, cache)) = Ok (data, (m', cache')) ->
       cache' = cache ++ map (cacheEntryOf fs)
                  (trace (loadDoc ms fs target collectionPath idPropName
                                  relationNames index doc (m, cache)))
       /\ data = option_map (docData idPropName) doc
       /\ (forall i,
             row_at m' i
             = if Nat.eqb i index
               then match doc with
                    | Some d => rowOf d (namesOf relationNames) (row_at m index)
                    | None => row_at m index
                    end
               else row_at m i)
       /\ (forall d r p, doc = Some d -> In r (namesOf relationNames) ->
                         pathOf d r = Some p -> In p (map fst cache'))
       /\ List.length m <= List.length m'.
Proof.
  intros Hnd.
  assert (Hsame : forall i, row_at m i
                            = if Nat.eqb i index then row_at m index
                              else row_at m i).
  { intros i. destruct (Nat.eqb i index) eqn:E; [| reflexivity].
    apply Nat.eqb_eq in E. now subst. }
  unfold loadDoc. destruct doc as [d |].
  2:{ cbn. rewrite app_nil_r. split; [assumption |].
      intros data m' cache' H; inversion H; subst.
      repeat split; auto; discriminate. }
  destruct relationNames as [[| n names] |].
  - cbn. rewrite app_nil_r. split; [assumption |].
    intros data m' cache' H; inversion H; subst.
    repeat split; auto; contradiction.
  - change (filter (fun item => JsFunction_eqb (r_target item) target)
                   (relations ms)) with (relationArgs ms target).
    change (obj_set idPropName (VStr (ds_id d)) (ds_spread d))
      with (docData idPropName d).
    rewrite trace_bind, outcome_bind.
    destruct (loadNames_step index d (n :: names) m cache Hnd) as [Hnd1 Hok1].
    destruct (outcome (foldM (loadRelation ms fs collectionPath idPropName
                                (relationArgs ms target) index
                                (docData idPropName d))
                             (m, cache) (n :: names)))
      as [[m1 cache1] | e] eqn:E1.
    + destruct (Hok1 m1 cache1 ltac:(first [exact eq_refl | exact E1])) as [Hc1 [Hrow1 [Hin1 Hlen1]]].
      cbn [ret trace outcome]. rewrite app_nil_r.
      split; [assumption |].
      intros data m' cache' H; inversion H; subst m' cache' data.
      repeat split; auto.
      intros d' r p Hd; inversion Hd; subst d'. apply Hin1.
    + split; [assumption | discriminate].
  - cbn. rewrite app_nil_r. split; [assumption |].
    intros data m' cache' H; inversion H; subst.
    repeat split; auto; contradiction.
Qed.

Lemma loadDocs_step relationNames docs :
  forall k m cache,
    NoDup (map fst cache) ->
    NoDup (map fst (cache ++ map (cacheEntryOf fs)
      (trace (loadDocs ms fs target collectionPath idPropName relationNames
                       k docs (m, cache)))))
    /\ forall datas m' cache',
         outcome (loadDocs ms fs target collectionPath idPropName
                           relationNames k docs (m, cache))
         = Ok (datas, (m', cache')) ->
         cache' = cache ++ map (cacheEntryOf fs)
                    (trace (loadDocs ms fs target collectionPath idPropName
                                     relationNames k docs (m, cache)))
         /\ datas = map (option_map (docData idPropName)) docs
         /\ (forall i, row_at m' i = rowsAfter relationNames k docs m i)
         /\ (forall j d r p,
               nth_error docs j = Some (Some d) ->
               In r (namesOf relationNames) -> pathOf d r = Some p ->
               In p (map fst cache'))
         /\ List.length m <= List.length m'.
Proof.
  induction docs as [| doc docs IH]; intros k m cache Hnd.
  - cbn. rewrite app_nil_r. split; [assumption |].
    intros datas m' cache' H; inversion H; subst.
    repeat split; auto.
    + intros i. unfold rowsAfter.
      destruct (Nat.leb k i); [| reflexivity].
      now destruct (i - k).
    + intros j d r p Hj. now destruct j.
  - cbn [loadDocs]. rewrite trace_bind, outcome_bind.
    destruct (loadDoc_step relationNames k doc m cache Hnd) as [Hnd1 Hok1].
    destruct (outcome (loadDoc ms fs target collectionPath idPropName
                               relationNames k doc (m, cache)))
      as [[data [m1 cache1]] | e] eqn:E1.
    2:{ split; [assumption | discriminate]. }
    destruct (Hok1 data m1 cache1 ltac:(first [exact eq_refl | exact E1]))
      as [Hc1 [Hdata [Hrow1 [Hin1 Hlen1]]]].
    rewrite <- Hc1 in Hnd1. cbn [snd].
    rewrite trace_bind, outcome_bind.
    destruct (IH (S k) m1 cache1 Hnd1) as [Hnd2 Hok2].
    destruct (outcome (loadDocs ms fs target collectionPath idPropName
                                relationNames (S k) docs (m1, cache1)))
      as [[datas2 [m2 cache2]] | e] eqn:E2.
    2:{ rewrite (map_app (cacheEntryOf fs)), app_assoc, <- Hc1.
        split; [assumption | discriminate]. }
    destruct (Hok2 datas2 m2 cache2 ltac:(first [exact eq_refl | exact E2]))
      as [Hc2 [Hdatas [Hrow2 [Hin2 Hlen2]]]].
    cbn [ret trace outcome fst snd]. rewrite app_nil_r.
    rewrite (map_app (cacheEntryOf fs)), app_assoc, <- Hc1.
    split; [exact Hnd2 |].
    intros datas m' cache' H; inversion H; subst datas m' cache'.
    repeat split; auto; try lia.
    + simpl. now rewrite Hdata, Hdatas.
    + intros i. rewrite Hrow2. unfold rowsAfter.
      destruct (Nat.leb (S k) i) eqn:Ei.
      * apply Nat.leb_le in Ei.
        assert (Hk : Nat.leb k i = true) by (apply Nat.leb_le; lia).
        rewrite Hk.
        replace (i - k) with (S (i - S k)) by lia. simpl.
        assert (Hne : Nat.eqb i k = false) by (apply Nat.eqb_neq; lia).
        now rewrite Hrow1, Hne.
      * apply Nat.leb_gt in Ei. rewrite Hrow1.
        destruct (Nat.eqb i k) eqn:Eik.
        -- apply Nat.eqb_eq in Eik. subst i.
           rewrite Nat.leb_refl, Nat.sub_diag. simpl.
           now destruct doc.
        -- apply Nat.eqb_neq in Eik.
           assert (Hk : Nat.leb k i = false) by (apply Nat.leb_gt; lia).
           now rewrite Hk.
    + intros j d r p Hj Hr Hp. destruct j as [| j]; simpl in Hj.
      * inversion Hj; subst doc.
        rewrite Hc2, (map_app fst), in_app_iff. left. eauto.
      * eauto.
Qed.

End LoadDocs.

(** ** Splicing the resolved sub-documents *)

Lemma cacheEntry_eq (acc : list (string * Value)) (k : string) (f : Fetched) :
  cacheEntry acc (k, f)
  = match fetchedValue f with
    | Some v => assoc_set k v acc
    | None => acc
    end.
Proof.
  unfold cacheEntry, fetchedValue. simpl.
  destruct f as [d | docs]; [| reflexivity]. now destruct (ds_data d).
Qed.

Lemma relationCacheData_fold (p : string) (cache : Cache) :
  forall acc,
    NoDup (map fst cache) ->
    (forall k, In k (map fst cache) -> assoc_get k acc = None) ->
    assoc_get p (fold_left cacheEntry cache acc)
    = match assoc_get p cache with
      | Some f => fetchedValue f
      | None => assoc_get p acc
      end.
Proof.
  induction cache as [| [k f] cache IH]; intros acc Hnd Hacc; [reflexivity |].
  inversion Hnd as [| x l Hnotin Hnd']; subst.
  cbn [fold_left]. rewrite cacheEntry_eq.
  rewrite IH; [| assumption |].
  - cbn [assoc_get]. destruct (String.eqb k p) eqn:E.
    + apply String.eqb_eq in E. subst p.
      assert (Hnone : assoc_get k cache = None)
        by (now apply assoc_get_None_keys).
      rewrite Hnone. destruct (fetchedValue f).
      * apply assoc_get_set_same.
      * apply Hacc. simpl. auto.
    + apply String.eqb_neq in E.
      destruct (assoc_get p cache); [reflexivity |].
      destruct (fetchedValue f); [| reflexivity].
      apply assoc_get_set_other. congruence.
  - intros k' Hk'. destruct (fetchedValue f).
    + rewrite assoc_get_set_other.
      * apply Hacc. simpl. auto.
      * intros ->. contradiction.
    + apply Hacc. simpl. auto.
Qed.

Lemma relationCacheData_get (p : string) (cache : Cache) :
  NoDup (map fst cache) ->
  assoc_get p (relationCacheData cache)
  = match assoc_get p cache with
    | Some f => fetchedValue f
    | None => None
    end.
Proof.
  intros Hnd. unfold relationCacheData.
  rewrite relationCacheData_fold; auto.
Qed.

Lemma fetchedValue_truthy (f : Fetched) (v : Value) :
  fetchedValue f = Some v -> truthy v = true.
Proof.
  destruct f as [d | docs]; simpl.
  - destruct (ds_data d); simpl; intros H; inversion H; reflexivity.
  - intros H; inversion H; reflexivity.
Qed.

Lemma nth_error_dot_set (j : nat) (r : string) (v : Value)
  (datas : list (option Obj)) (i : nat) :
  nth_error (dot_set j r v datas) i
  = option_map
      (fun data =>
         if Nat.eqb i j
         then Some (obj_set r v (match data with Some x => x | None => [] end))
         else data)
      (nth_error datas i).
Proof.
  unfold dot_set. destruct (nth_error datas j) as [[data |] |] eqn:E;
    rewrite ?nth_error_replace_nth;
    destruct (Nat.eqb i j) eqn:Eij;
    try (apply Nat.eqb_eq in Eij; subst i; rewrite E; reflexivity);
    now destruct (nth_error datas i).
Qed.

Lemma length_dot_set (j : nat) (r : string) (v : Value)
  (datas : list (option Obj)) :
  List.length (dot_set j r v datas) = List.length datas.
Proof.
  unfold dot_set. destruct (nth_error datas j) as [[data |] |];
    rewrite ?length_replace_nth; reflexivity.
Qed.

Lemma spliceRow_cons (cd : list (string * Value)) (r p : string) (row : Row)
  (o : option Obj) :
  spliceRow cd ((r, p) :: row) o
  = spliceRow cd row
      (match assoc_get p cd with
       | Some v =>
           if truthy v
           then Some (obj_set r v (match o with Some x => x | None => [] end))
           else o
       | None => o
       end).
Proof. reflexivity. Qed.

Lemma spliceOne_eq (cd : list (string * Value)) (datas : list (option Obj))
  (j : nat) (r p : string) :
  spliceOne cd datas (j, r, p)
  = match assoc_get p cd with
    | Some v => if truthy v then dot_set j r v datas else datas
    | None => datas
    end.
Proof. reflexivity. Qed.

Lemma splice_row (cd : list (string * Value)) (j : nat) (row : Row) :
  forall datas i,
    nth_error (fold_left (spliceOne cd)
                         (map (fun kv => (j, fst kv, snd kv)) row) datas) i
    = option_map (fun data => if Nat.eqb i j then spliceRow cd row data
                              else data)
                 (nth_error datas i).
Proof.
  induction row as [| [r p] row IH]; intros datas i; cbn [map fold_left].
  - unfold spliceRow. simpl. destruct (nth_error datas i); simpl;
      [now destruct (Nat.eqb i j) | reflexivity].
  - rewrite IH. cbn [fst snd]. rewrite spliceOne_eq.
    destruct (assoc_get p cd) as [v |] eqn:Ep.
    + destruct (truthy v) eqn:Ev.
      * rewrite nth_error_dot_set.
        destruct (nth_error datas i); cbn [option_map]; [| reflexivity].
        rewrite spliceRow_cons, Ep, Ev.
        now destruct (Nat.eqb i j).
      * destruct (nth_error datas i); cbn [option_map]; [| reflexivity].
        now rewrite spliceRow_cons, Ep, Ev.
    + destruct (nth_error datas i); cbn [option_map]; [| reflexivity].
      now rewrite spliceRow_cons, Ep.
Qed.

Lemma splice_rows (cd : list (string * Value)) (m : list Row) :
  forall j datas i,
    nth_error (fold_left (spliceOne cd) (flattenFrom j m) datas) i
    = option_map (fun data => if Nat.leb j i
                              then spliceRow cd (row_at m (i - j)) data
                              else data)
                 (nth_error datas i).
Proof.
  induction m as [| row m IH]; intros j datas i; cbn [flattenFrom fold_left].
  - destruct (nth_error datas i); simpl; [| reflexivity].
    destruct (Nat.leb j i); [| reflexivity].
    unfold row_at. now destruct (i - j).
  - rewrite fold_left_app, IH, splice_row.
    destruct (nth_error datas i) as [data |]; cbn [option_map]; [| reflexivity].
    f_equal. destruct (Nat.leb (S j) i) eqn:E.
    + apply Nat.leb_le in E.
      assert (E1 : Nat.eqb i j = false) by (apply Nat.eqb_neq; lia).
      assert (E2 : Nat.leb j i = true) by (apply Nat.leb_le; lia).
      rewrite E1, E2. replace (i - j) with (S (i - S j)) by lia.
      reflexivity.
    + apply Nat.leb_gt in E. destruct (Nat.eqb i j) eqn:E1.
      * apply Nat.eqb_eq in E1. subst i.
        now rewrite Nat.leb_refl, Nat.sub_diag.
      * apply Nat.eqb_neq in E1.
        assert (E2 : Nat.leb j i = false) by (apply Nat.leb_gt; lia).
        now rewrite E2.
Qed.

Lemma length_splice (cd : list (string * Value)) (l : list (nat * string * string)) :
  forall datas,
    List.length (fold_left (spliceOne cd) l datas) = List.length datas.
Proof.
  induction l as [| [[j r] p] l IH]; intros datas; cbn [fold_left]; auto.
  rewrite IH. unfold spliceOne. destruct (assoc_get p cd) as [v |]; auto.
  destruct (truthy v); auto. apply length_dot_set.
Qed.

Lemma spliceRelations_nth (datas : list (option Obj)) (m : list Row)
  (cache : Cache) (i : nat) :
  nth_error (spliceRelations datas (m, cache)) i
  = option_map (spliceRow (relationCacheData cache) (row_at m i))
               (nth_error datas i).
Proof.
  unfold spliceRelations. cbn [fst snd]. destruct m as [| row m].
  - assert (E : row_at [] i = []) by (unfold row_at; now destruct i).
    rewrite E. now destruct (nth_error datas i).
  - unfold flatten. rewrite splice_rows. cbn [Nat.leb].
    now rewrite Nat.sub_0_r.
Qed.

Lemma length_spliceRelations (datas : list (option Obj)) (st : RelState) :
  List.length (spliceRelations datas st) = List.length datas.
Proof.
  unfold spliceRelations. destruct (fst st); [reflexivity |].
  apply length_splice.
Qed.

Lemma spliceRow_Some (cd : list (string * Value)) (row : Row) :
  forall x, exists x', spliceRow cd row (Some x) = Some x'.
Proof.
  induction row as [| [r p] row IH]; intros x; [now exists x |].
  rewrite spliceRow_cons.
  destruct (assoc_get p cd) as [v |]; [| apply IH].
  destruct (truthy v); apply IH.
Qed.

Lemma spliceRow_keeps (cd : list (string * Value)) (k : string) (row : Row) :
  forall x,
    ~ In k (map fst row) ->
    exists x', spliceRow cd row (Some x) = Some x'
               /\ obj_get k x' = obj_get k x.
Proof.
  induction row as [| [r p] row IH]; intros x Hk; [now exists x |].
  rewrite spliceRow_cons. simpl in Hk.
  assert (Hne : k <> r) by (intros ->; tauto).
  assert (Hk' : ~ In k (map fst row)) by tauto.
  destruct (assoc_get p cd) as [v |]; [| now apply IH].
  destruct (truthy v); [| now apply IH].
  destruct (IH (obj_set r v x) Hk') as [x' [E1 E2]].
  exists x'. split; [assumption |].
  rewrite E2. unfold obj_get, obj_set. now apply assoc_get_set_other.
Qed.

Lemma spliceRow_sets (cd : list (string * Value)) (r p : string) (v : Value)
  (row : Row) :
  forall x,
    NoDup (map fst row) ->
    assoc_get r row = Some p ->
    assoc_get p cd = Some v -> truthy v = true ->
    exists x', spliceRow cd row (Some x) = Some x' /\ obj_get r x' = Some v.
Proof.
  induction row as [| [r0 p0] row IH]; intros x Hnd Hr Hp Hv;
    [discriminate |].
  inversion Hnd as [| a l Hnotin Hnd']; subst.
  rewrite spliceRow_cons.
  cbn [assoc_get] in Hr. destruct (String.eqb r0 r) eqn:E.
  - apply String.eqb_eq in E. subst r0. inversion Hr; subst p0.
    rewrite Hp, Hv.
    destruct (spliceRow_keeps cd r row (obj_set r v x) Hnotin) as [x' [E1 E2]].
    exists x'. split; [assumption |].
    rewrite E2. unfold obj_get, obj_set. apply assoc_get_set_same.
  - destruct (assoc_get p0 cd) as [v0 |]; [| now apply IH].
    destruct (truthy v0); now apply IH.
Qed.

Lemma expectedRow_NoDup ms target cp idp d names :
  forall row, NoDup (map fst row) ->
              NoDup (map fst (expectedRow ms target cp idp d names row)).
Proof.
  induction names as [| r names IH]; intros row Hnd; [assumption |].
  unfold expectedRow. cbn [fold_left]. fold (expectedRow ms target cp idp d names).
  apply IH. destruct (resolvedPath ms target cp idp d r); [| assumption].
  now apply keys_assoc_set.
Qed.

Lemma expectedRow_keeps ms target cp idp d r p names :
  resolvedPath ms target cp idp d r = Some p ->
  forall row, assoc_get r row = Some p ->
              assoc_get r (expectedRow ms target cp idp d names row) = Some p.
Proof.
  intros Hp. induction names as [| r' names IH]; intros row Hr; [assumption |].
  unfold expectedRow. cbn [fold_left]. fold (expectedRow ms target cp idp d names).
  apply IH. destruct (resolvedPath ms target cp idp d r') as [p' |] eqn:E;
    [| assumption].
  destruct (string_dec r r') as [-> | Hne].
  - rewrite Hp in E. inversion E; subst. apply assoc_get_set_same.
  - now rewrite assoc_get_set_other.
Qed.

Lemma expectedRow_has ms target cp idp d r p names :
  resolvedPath ms target cp idp d r = Some p ->
  In r names ->
  forall row, assoc_get r (expectedRow ms target cp idp d names row) = Some p.
Proof.
  intros Hp. induction names as [| r' names IH]; intros Hin row; [contradiction |].
  unfold expectedRow. cbn [fold_left]. fold (expectedRow ms target cp idp d names).
  destruct (string_dec r' r) as [-> | Hne].
  - rewrite Hp. apply expectedRow_keeps; [assumption |].
    apply assoc_get_set_same.
  - apply IH. destruct Hin; [contradiction | assumption].
Qed.

(** ** loadRelations *)

Lemma loadRelations_eq ms fs target docs relationNames :
  trace (loadRelations ms fs target docs relationNames)
  = match getIdPropName ms target, getCollectionPath ms target with
    | Ok idPropName, Ok collectionPath =>
        trace (loadDocs ms fs target collectionPath idPropName relationNames
                        0 docs ([], []))
    | _, _ => []
    end
  /\ outcome (loadRelations ms fs target docs relationNames)
     = match getIdPropName ms target, getCollectionPath ms target with
       | Ok idPropName, Ok collectionPath =>
           match outcome (loadDocs ms fs target collectionPath idPropName
                                   relationNames 0 docs ([], [])) with
           | Ok r =>
               Ok (map (option_map (transformToClass target))
                       (spliceRelations (fst r) (snd r)))
           | Err e => Err e
           end
       | Err e, _ => Err e
       | Ok _, Err e => Err e
       end.
Proof.
  unfold loadRelations. rewrite !trace_bind, !outcome_bind.
  cbn [outcome trace lift fst snd].
  destruct (getIdPropName ms target) as [idp | e]; [| split; reflexivity].
  rewrite !trace_bind, !outcome_bind. cbn [outcome trace lift fst snd].
  destruct (getCollectionPath ms target) as [cp | e]; [| split; reflexivity].
  rewrite !trace_bind, !outcome_bind. cbn [app].
  destruct (outcome (loadDocs ms fs target cp idp relationNames 0 docs ([], [])))
    as [r | e]; cbn [ret trace outcome fst snd].
  - now rewrite app_nil_r.
  - split; reflexivity.
Qed.

Lemma map_fst_cacheEntryOf fs (t : list Request) :
  map fst (map (cacheEntryOf fs) t) = map fetch_path t.
Proof. rewrite map_map. reflexivity. Qed.

Lemma loadRelations_dedup ms fs target docs relationNames :
  NoDup (map fetch_path (trace (loadRelations ms fs target docs relationNames))).
Proof.
  destruct (loadRelations_eq ms fs target docs relationNames) as [-> _].
  destruct (getIdPropName ms target) as [idp | e]; [| constructor].
  destruct (getCollectionPath ms target) as [cp | e]; [| constructor].
  destruct (loadDocs_step ms fs target cp idp relationNames docs 0 [] [])
    as [Hnd _]; [constructor |].
  cbn [app] in Hnd. now rewrite map_fst_cacheEntryOf in Hnd.
Qed.

Lemma rowsAfter_start ms target cp idp relationNames docs i :
  rowsAfter ms target cp idp relationNames 0 docs [] i
  = match nth_error docs i with
    | Some (Some d) => expectedRow ms target cp idp d (namesOf relationNames) []
    | _ => []
    end.
Proof.
  unfold rowsAfter. cbn [Nat.leb]. rewrite Nat.sub_0_r.
  assert (E : row_at [] i = []) by (unfold row_at; now destruct i).
  rewrite E. reflexivity.
Qed.

(** What loadRelations returns, element by element. *)
Lemma loadRelations_result ms fs target docs relationNames idp cp result :
  getIdPropName ms target = Ok idp ->
  getCollectionPath ms target = Ok cp ->
  outcome (loadRelations ms fs target docs relationNames) = Ok result ->
  List.length result = List.length docs
  /\ forall i,
       nth_error result i
       = option_map
           (fun doc =>
              match doc with
              | Some d =>
                  option_map (transformToClass target)
                    (splicedData ms fs target cp idp relationNames
                       (trace (loadRelations ms fs target docs relationNames)) d)
              | None => None
              end)
           (nth_error docs i).
Proof.
  intros Eid Ecp. destruct (loadRelations_eq ms fs target docs relationNames)
    as [Et Eo].
  rewrite Eid, Ecp in Et, Eo. rewrite Eo, Et. clear Eo Et.
  destruct (loadDocs_step ms fs target cp idp relationNames docs 0 [] [])
    as [Hnd Hok]; [constructor |].
  destruct (outcome (loadDocs ms fs target cp idp relationNames 0 docs ([], [])))
    as [[datas [m cache]] | e] eqn:E; [| discriminate].
  destruct (Hok datas m cache ltac:(first [exact eq_refl | exact E]))
    as [Hc [Hdatas [Hrow _]]].
  cbn [app] in Hc, Hnd. cbn [fst snd].
  intros H; inversion H; subst result; clear H.
  split.
  - rewrite length_map, length_spliceRelations, Hdatas. apply length_map.
  - intros i. rewrite nth_error_map, spliceRelations_nth, Hdatas.
    rewrite nth_error_map, Hrow, rowsAfter_start.
    destruct (nth_error docs i) as [[d |] |]; cbn [option_map];
      try reflexivity.
    unfold splicedData. now rewrite Hc.
Qed.

Lemma splicedData_relation ms fs target docs relationNames idp cp result i d r p :
  getIdPropName ms target = Ok idp ->
  getCollectionPath ms target = Ok cp ->
  outcome (loadRelations ms fs target docs relationNames) = Ok result ->
  nth_error docs i = Some (Some d) ->
  In r (namesOf relationNames) ->
  resolvedPath ms target cp idp d r = Some p ->
  exists data',
    splicedData ms fs target cp idp relationNames
      (trace (loadRelations ms fs target docs relationNames)) d = Some data'
    /\ exists req,
         In req (trace (loadRelations ms fs target docs relationNames))
         /\ fetch_path req = p
         /\ forall v, resolved fs req = Some v -> obj_get r data' = Some v.
Proof.
  intros Eid Ecp Hres Hd Hr Hp.
  destruct (loadRelations_eq ms fs target docs relationNames) as [Et Eo].
  rewrite Eid, Ecp in Et, Eo. rewrite Eo in Hres. rewrite Et. clear Eo Et.
  destruct (loadDocs_step ms fs target cp idp relationNames docs 0 [] [])
    as [Hnd Hok]; [constructor |].
  destruct (outcome (loadDocs ms fs target cp idp relationNames 0 docs ([], [])))
    as [[datas [m cache]] | e] eqn:E; [| discriminate].
  destruct (Hok datas m cache ltac:(first [exact eq_refl | exact E]))
    as [Hc [_ [_ [Hin _]]]].
  cbn [app] in Hc, Hnd.
  set (t := trace (loadDocs ms fs target cp idp relationNames 0 docs ([], [])))
    in *.
  unfold splicedData.
  destruct (spliceRow_Some (relationCacheData (map (cacheEntryOf fs) t))
              (expectedRow ms target cp idp d (namesOf relationNames) [])
              (docData idp d)) as [data' Hdata'].
  exists data'. split; [assumption |].
  specialize (Hin i d r p Hd Hr Hp). rewrite Hc, map_fst_cacheEntryOf in Hin.
  apply in_map_iff in Hin. destruct Hin as [req [Hreq Hin]].
  exists req. repeat split; auto.
  intros v Hv.
  assert (Hget : assoc_get p (map (cacheEntryOf fs) t) = Some (fetched fs req)).
  { apply assoc_get_In; [assumption |].
    apply in_map_iff. exists req. split; [| assumption].
    unfold cacheEntryOf. now rewrite Hreq. }
  assert (Hcd : assoc_get p (relationCacheData (map (cacheEntryOf fs) t))
                = Some v).
  { rewrite relationCacheData_get by assumption. now rewrite Hget. }
  destruct (spliceRow_sets (relationCacheData (map (cacheEntryOf fs) t))
              r p v
              (expectedRow ms target cp idp d (namesOf relationNames) [])
              (docData idp d)) as [x' [Hx' Hobj]].
  - apply expectedRow_NoDup. constructor.
  - now apply expectedRow_has.
  - assumption.
  - now apply (fetchedValue_truthy (fetched fs req)).
  - congruence.
Qed.

(** ** When loadRelations returns *)

Lemma loadRelation_total ms fs target cp idp index data m cache r :
  (pushes ms target r = true -> index <= List.length m) ->
  relationsResolvable ms target [r] ->
  exists m' cache',
    outcome (loadRelation ms fs cp idp (relationArgs ms target) index data
                          (m, cache) r) = Ok (m', cache')
    /\ List.length m <= List.length m'
    /\ (pushes ms target r = true -> index < List.length m').
Proof.
  intros Hlen Hres. unfold pushes in Hlen |- *. unfold loadRelation.
  specialize (Hres r). cbn [In] in Hres.
  destruct (List.find _ (relationArgs ms target)) as [arg |];
    [| exists m, cache; repeat split; auto; discriminate].
  pose proof (length_ensureRow index m) as [Hle Hlt].
  destruct (r_relationType arg) eqn:Etype.
  - destruct (Hres arg (or_introl eq_refl) eq_refl Etype) as [c [p [Ec Ep]]].
    rewrite Ec. mstep. rewrite Ep. mstep.
    set (documentPath := (cp ++ "/" ++ _)%string).
    destruct (assignRow_total index r documentPath (ensureRow index m))
      as [m2 Ea]; [auto |].
    rewrite Ea. mstep. apply assignRow_Ok in Ea. destruct Ea as [Hl2 _].
    destruct (assoc_get documentPath cache); mstep;
      eexists _, _; (split; [reflexivity |]); split; intros; lia || auto.
    all: rewrite Hl2; auto.
  - destruct (dot_pick r data) as [[] |];
      try (mstep; eexists _, _; (split; [reflexivity |]); split; auto).
    destruct (assignRow_total index r path (ensureRow index m))
      as [m2 Ea]; [auto |].
    rewrite Ea. mstep. apply assignRow_Ok in Ea. destruct Ea as [Hl2 _].
    destruct (assoc_get path cache); mstep;
      eexists _, _; (split; [reflexivity |]); split; intros; lia || auto.
    all: rewrite Hl2; auto.
  - exists m, cache. repeat split; auto; discriminate.
Qed.

Lemma relationsResolvable_cons ms target r names :
  relationsResolvable ms target (r :: names) ->
  relationsResolvable ms target [r] /\ relationsResolvable ms target names.
Proof.
  intros H. split; intros r' arg Hin; apply H; simpl in *; tauto.
Qed.

Lemma loadNames_total ms fs target cp idp index data names :
  forall m cache,
    (existsb (pushes ms target) names = true -> index <= List.length m) ->
    relationsResolvable ms target names ->
    exists m' cache',
      outcome (foldM (loadRelation ms fs cp idp (relationArgs ms target)
                                   index data) (m, cache) names)
      = Ok (m', cache')
      /\ List.length m <= List.length m'
      /\ (existsb (pushes ms target) names = true -> index < List.length m').
Proof.
  induction names as [| r names IH]; intros m cache Hlen Hres.
  - exists m, cache. repeat split; auto. discriminate.
  - apply relationsResolvable_cons in Hres. destruct Hres as [Hr Hnames].
    cbn [existsb] in Hlen |- *. cbn [foldM]. rewrite outcome_bind.
    destruct (loadRelation_total ms fs target cp idp index data m cache r)
      as [m1 [cache1 [E1 [Hl1 Hp1]]]]; [| assumption |].
    { intros Hp. apply Hlen. now rewrite Hp. }
    rewrite E1.
    destruct (IH m1 cache1) as [m2 [cache2 [E2 [Hl2 Hp2]]]]; [| assumption |].
    { intros Hp. destruct (pushes ms target r) eqn:Er.
      - specialize (Hp1 eq_refl). lia.
      - specialize (Hlen Hp). lia. }
    exists m2, cache2. repeat split; [assumption | lia |].
    intros Hp. destruct (pushes ms target r) eqn:Er.
    + specialize (Hp1 eq_refl). lia.
    + auto.
Qed.

Lemma loadDocs_total ms fs target cp idp relationNames docs :
  forall k m cache,
    (existsb (pushes ms target) (namesOf relationNames) = true ->
     k <= List.length m /\ Forall (fun doc => doc <> None) docs) ->
    relationsResolvable ms target (namesOf relationNames) ->
    exists r,
      outcome (loadDocs ms fs target cp idp relationNames k docs (m, cache))
      = Ok r.
Proof.
  induction docs as [| doc docs IH]; intros k m cache Hpre Hres.
  - eexists. reflexivity.
  - cbn [loadDocs]. rewrite outcome_bind.
    assert (Hdoc : exists data m1 cache1,
               outcome (loadDoc ms fs target cp idp relationNames k doc
                                (m, cache)) = Ok (data, (m1, cache1))
               /\ (existsb (pushes ms target) (namesOf relationNames) = true ->
                   S k <= List.length m1)).
    { unfold loadDoc. destruct doc as [d |].
      - destruct relationNames as [[| n names] |]; cbn [namesOf] in *;
          try (eexists _, _, _; split; [reflexivity | discriminate]).
        rewrite outcome_bind.
        destruct (loadNames_total ms fs target cp idp k
                    (obj_set idp (VStr (ds_id d)) (ds_spread d))
                    (n :: names) m cache)
          as [m1 [cache1 [E1 [Hl1 Hp1]]]]; [tauto | assumption |].
        fold (relationArgs ms target). rewrite E1.
        eexists _, _, _. split; [reflexivity |]. intros Hp.
        specialize (Hp1 Hp). lia.
      - eexists _, _, _. split; [reflexivity |]. intros Hp.
        destruct (Hpre Hp) as [_ Hall]. inversion Hall; subst. congruence. }
    destruct Hdoc as [data [m1 [cache1 [E1 Hl1]]]]. rewrite E1. cbn [snd].
    rewrite outcome_bind.
    destruct (IH (S k) m1 cache1) as [r Er]; [| assumption |].
    { intros Hp. split; [auto |].
      destruct (Hpre Hp) as [_ Hall]. now inversion Hall. }
    rewrite Er. eexists. reflexivity.
Qed.

Lemma loadRelations_total ms fs target docs relationNames :
  hasIdProp ms target ->
  hasCollection ms target ->
  relationsResolvable ms target (namesOf relationNames) ->
  (existsb (pushes ms target) (namesOf relationNames) = true ->
   Forall (fun doc => doc <> None) docs) ->
  exists result,
    outcome (loadRelations ms fs target docs relationNames) = Ok result.
Proof.
  intros Hid Hcol Hres Hdocs.
  destruct (loadRelations_eq ms fs target docs relationNames) as [_ Eo].
  rewrite Eo. clear Eo.
  destruct (getIdProp_spec ms target) as [[Hn _] | [p [_ [_ Ep]]]];
    [contradiction |].
  destruct (getCollection_spec ms target) as [[Hn _] | [c [_ [_ [_ Ec]]]]];
    [contradiction |].
  unfold getIdPropName, getCollectionPath. rewrite Ep, Ec. cbn [res_bind].
  destruct (loadDocs_total ms fs target (collectionPathOf c)
              (id_propertyName p) relationNames docs 0 [] [])
    as [r Er]; [| assumption |].
  { intros Hp. split; [simpl; lia | auto]. }
  match goal with
  | |- context [outcome ?X] =>
      replace (outcome X) with (Ok r) by (symmetry; exact Er)
  end.
  eexists. reflexivity.
Qed.

Lemma find_trace ms fs opts target ooc q :
  findQuery ms opts target ooc = Ok q ->
  exists docs,
    trace (find ms fs opts target ooc)
    = trace (runQuery fs opts q)
      ++ trace (loadRelations ms fs target (map Some docs) (relationsOf ooc))
    /\ outcome (find ms fs opts target ooc)
       = outcome (loadRelations ms fs target (map Some docs) (relationsOf ooc))
    /\ outcome (runQuery fs opts q) = Ok docs.
Proof.
  intros Eq. unfold find. rewrite Eq.
  rewrite !trace_bind, !outcome_bind. cbn [lift trace outcome fst snd app].
  rewrite !trace_bind, !outcome_bind.
  unfold runQuery. destruct (tnx opts) as [t |]; cbn [request outcome trace fst snd];
    eexists; repeat split.
Qed.

Lemma viaLoadRelations_nil ms fs target : viaLoadRelations ms fs target [].
Proof.
  exists [], [], None. split; [| simpl; lia].
  destruct (loadRelations_eq ms fs target [] None) as [-> _].
  destruct (getIdPropName ms target); [| reflexivity].
  destruct (getCollectionPath ms target); reflexivity.
Qed.

Lemma viaLoadRelations_one ms fs target (req : Request) docs names :
  viaLoadRelations ms fs target
    ([req] ++ trace (loadRelations ms fs target docs names)).
Proof. exists [req], docs, names. split; [reflexivity | simpl; lia]. Qed.

Lemma find_via ms fs opts target ooc :
  viaLoadRelations ms fs target (trace (find ms fs opts target ooc)).
Proof.
  unfold find. rewrite trace_bind. cbn [lift outcome trace fst snd].
  destruct (findQuery ms opts target ooc) as [q | e];
    [| apply viaLoadRelations_nil].
  cbn [app]. rewrite trace_bind. unfold runQuery.
  destruct (tnx opts); cbn [request outcome trace fst snd];
    apply viaLoadRelations_one.
Qed.

Lemma findOne_via ms fs opts target ooc :
  viaLoadRelations ms fs target (trace (findOne ms fs opts target ooc)).
Proof.
  unfold findOne. rewrite trace_bind. cbn [lift outcome trace fst snd].
  destruct (findOneQuery ms opts target ooc) as [q | e];
    [| apply viaLoadRelations_nil].
  cbn [app]. rewrite trace_bind.
  assert (H : forall req docs,
             viaLoadRelations ms fs target
               ([req] ++ trace
                  (match docs with
                   | [] => ret JUndefined
                   | doc0 :: _ =>
                       if negb (ds_exists doc0) then ret JUndefined
                       else
                         entities <- loadRelations ms fs target (map Some docs)
                                                   (relationsOf ooc) ;;
                         ret (first_of entities)
                   end))).
  { intros req docs.
    assert (Hnone : viaLoadRelations ms fs target ([req] ++ [])).
    { exists [req], [], None. split; [| simpl; lia].
      destruct (viaLoadRelations_nil ms fs target)
        as [f [d [n [E Hl]]]].
      destruct (loadRelations_eq ms fs target [] None) as [-> _].
      destruct (getIdPropName ms target); [| reflexivity].
      destruct (getCollectionPath ms target); reflexivity. }
    destruct docs as [| doc0 docs]; [exact Hnone |].
    destruct (negb (ds_exists doc0)); [exact Hnone |].
    rewrite trace_bind.
    destruct (outcome (loadRelations ms fs target (map Some (doc0 :: docs))
                                     (relationsOf ooc)));
      cbn [ret trace fst]; rewrite ?app_nil_r; apply viaLoadRelations_one. }
  unfold runQuery. destruct (tnx opts); cbn [request outcome trace fst snd];
    apply H.
Qed.

Lemma findByIds_via ms fs opts target idOrIds fo :
  viaLoadRelations ms fs target (trace (findByIds ms fs opts target idOrIds fo)).
Proof.
  unfold findByIds.
  destruct (truthy_val (collectionId opts)); [apply viaLoadRelations_nil |].
  rewrite trace_bind. cbn [lift outcome trace fst snd].
  destruct (match truthy_val (parentPath opts) with
            | Some p => Ok p
            | None => getCollectionPath ms target
            end) as [cp | e]; [| apply viaLoadRelations_nil].
  cbn [app]. rewrite trace_bind.
  assert (H : forall req snaps,
             viaLoadRelations ms fs target
               ([req] ++ trace
                  (match idOrIds with
                   | ManyIds _ =>
                       entities <- loadRelations ms fs target
                                     (map (fun v => if ds_exists v then Some v
                                                    else None) snaps)
                                     (optionRelations fo) ;;
                       ret (ByIdsMany entities)
                   | OneId _ =>
                       match map (fun v => if ds_exists v then Some v
                                           else None) snaps with
                       | [] => ret (ByIdsOne JUndefined)
                       | _ :: _ =>
                           entities <- loadRelations ms fs target
                                         (map (fun v => if ds_exists v
                                                        then Some v else None)
                                              snaps)
                                         (optionRelations fo) ;;
                           ret (ByIdsOne (first_of entities))
                       end
                   end))).
  { intros req snaps.
    assert (Hnone : viaLoadRelations ms fs target ([req] ++ [])).
    { exists [req], [], None. split; [| simpl; lia].
      destruct (loadRelations_eq ms fs target [] None) as [-> _].
      destruct (getIdPropName ms target); [| reflexivity].
      destruct (getCollectionPath ms target); reflexivity. }
    destruct idOrIds.
    - destruct (map _ snaps) eqn:Em; [exact Hnone |].
      rewrite trace_bind.
      destruct (outcome (loadRelations ms fs target (o :: l)
                                       (optionRelations fo)));
        cbn [ret trace fst]; rewrite ?app_nil_r; apply viaLoadRelations_one.
    - rewrite trace_bind.
      destruct (outcome (loadRelations ms fs target _ (optionRelations fo)));
        cbn [ret trace fst]; rewrite ?app_nil_r; apply viaLoadRelations_one. }
  unfold runGetAll. destruct (tnx opts); cbn [request outcome trace fst snd];
    apply H.
Qed.

(** ** The relation cache *)


(** ** find and findAndToken *)

Lemma runQuery_eq fs opts q :
  outcome (runQuery fs opts q) = Ok (queryDocs fs opts q)
  /\ List.length (trace (runQuery fs opts q)) = 1.
Proof. unfold runQuery, queryDocs. destruct (tnx opts); split; reflexivity. Qed.

Lemma find_eq ms fs opts target ooc q :
  findQuery ms opts target ooc = Ok q ->
  outcome (find ms fs opts target ooc)
  = outcome (loadRelations ms fs target (map Some (queryDocs fs opts q))
                           (relationsOf ooc))
  /\ trace (find ms fs opts target ooc)
     = trace (runQuery fs opts q)
       ++ trace (loadRelations ms fs target (map Some (queryDocs fs opts q))
                               (relationsOf ooc)).
Proof.
  intros Eq. unfold find. rewrite Eq.
  rewrite !trace_bind, !outcome_bind. cbn [lift trace outcome fst snd app].
  rewrite !trace_bind, !outcome_bind.
  destruct (runQuery_eq fs opts q) as [-> _]. split; reflexivity.
Qed.

Lemma find_err ms fs opts target ooc e :
  findQuery ms opts target ooc = Err e ->
  find ms fs opts target ooc = ([], Err e).
Proof. intros Eq. unfold find. now rewrite Eq. Qed.

Lemma find_result ms fs opts target ooc ents :
  outcome (find ms fs opts target ooc) = Ok ents ->
  exists q idp cp,
    findQuery ms opts target ooc = Ok q
    /\ getIdPropName ms target = Ok idp
    /\ getCollectionPath ms target = Ok cp
    /\ List.length ents = List.length (queryDocs fs opts q)
    /\ forall i d,
         nth_error (queryDocs fs opts q) i = Some d ->
         exists data',
           nth_error ents i = Some (Some (transformToClass target data'))
           /\ splicedData ms fs target cp idp (relationsOf ooc)
                (trace (loadRelations ms fs target
                          (map Some (queryDocs fs opts q)) (relationsOf ooc)))
                d = Some data'.
Proof.
  intros H. destruct (findQuery ms opts target ooc) as [q | e] eqn:Eq.
  2:{ rewrite (find_err _ _ _ _ _ _ Eq) in H. discriminate. }
  destruct (find_eq ms fs opts target ooc q Eq) as [Eo _].
  rewrite Eo in H. clear Eo.
  destruct (loadRelations_eq ms fs target (map Some (queryDocs fs opts q))
              (relationsOf ooc)) as [_ Eo].
  destruct (getIdPropName ms target) as [idp | e] eqn:Eid;
    [| rewrite Eo in H; discriminate].
  destruct (getCollectionPath ms target) as [cp | e] eqn:Ecp;
    [| rewrite Eo in H; discriminate].
  clear Eo. exists q, idp, cp. repeat (split; [reflexivity |]).
  destruct (loadRelations_result ms fs target _ _ idp cp ents Eid Ecp H)
    as [Hlen Hnth].
  split; [now rewrite Hlen, length_map |].
  intros i d Hd. rewrite Hnth, nth_error_map, Hd. cbn [option_map].
  unfold splicedData.
  destruct (spliceRow_Some
              (relationCacheData
                 (map (cacheEntryOf fs)
                      (trace (loadRelations ms fs target
                                (map Some (queryDocs fs opts q))
                                (relationsOf ooc)))))
              (expectedRow ms target cp idp d (namesOf (relationsOf ooc)) [])
              (docData idp d)) as [data' Hdata'].
  exists data'. now rewrite Hdata'.
Qed.

Lemma keys_assoc_set_in {A} (k k' : string) (v : A) (o : list (string * A)) :
  In k (map fst (assoc_set k' v o)) -> k = k' \/ In k (map fst o).
Proof.
  induction o as [| [k0 v0] o IH]; simpl.
  - intros [H | []]. auto.
  - destruct (String.eqb k0 k') eqn:E; simpl.
    + apply String.eqb_eq in E. subst. tauto.
    + intros [H | H]; [tauto |]. destruct (IH H); tauto.
Qed.

Lemma expectedRow_keys ms target cp idp d k names :
  forall row,
    In k (map fst (expectedRow ms target cp idp d names row)) ->
    In k (map fst row) \/ In k names.
Proof.
  induction names as [| r names IH]; intros row H; [auto |].
  unfold expectedRow in H. cbn [fold_left] in H.
  fold (expectedRow ms target cp idp d names) in H.
  apply IH in H. destruct H as [H | H]; [| simpl; auto].
  destruct (resolvedPath ms target cp idp d r); [| auto].
  apply keys_assoc_set_in in H. simpl. destruct H; subst; auto.
Qed.

Lemma splicedData_id ms fs target cp idp names t d data' :
  ~ In idp (namesOf names) ->
  splicedData ms fs target cp idp names t d = Some data' ->
  obj_get idp data' = Some (VStr (ds_id d)).
Proof.
  intros Hn H. unfold splicedData in H.
  destruct (spliceRow_keeps (relationCacheData (map (cacheEntryOf fs) t)) idp
              (expectedRow ms target cp idp d (namesOf names) [])
              (docData idp d)) as [x [Hx Hget]].
  - intros Hin. apply expectedRow_keys in Hin. destruct Hin as [[] | Hin].
    contradiction.
  - rewrite Hx in H. inversion H; subst x. rewrite Hget.
    unfold docData, obj_get, obj_set. apply assoc_get_set_same.
Qed.

Lemma obj_get_convert (k : string) (o : Obj) :
  obj_get k (convertToJsObject o) = option_map convertValue (obj_get k o).
Proof.
  unfold obj_get, convertToJsObject.
  induction o as [| [k' v] o IH]; simpl; [reflexivity |].
  destruct (String.eqb k' k); auto.
Qed.

Lemma noToken_false_iff (ooc : option OptionsOrConditions) (n : nat) :
  noToken (tokenOptions ooc) n = false
  <-> exists o l,
        ooc = Some (OOptions o) /\ o_limit o = Some l /\ l <> 0
        /\ o_order o <> None /\ l <= n.
Proof.
  unfold noToken, tokenOptions. cbn [o_limit o_order].
  destruct ooc as [[o | c] |].
  - unfold truthy_num. destruct (o_limit o) as [l |] eqn:El.
    + destruct (Nat.eqb l 0) eqn:E0; cbn [negb].
      * apply Nat.eqb_eq in E0. split; [discriminate |].
        intros [o' [l' [Ho [Hl [Hne _]]]]]. inversion Ho; subst o'.
        rewrite El in Hl. inversion Hl; subst. contradiction.
      * apply Nat.eqb_neq in E0. destruct (o_order o) as [ord |] eqn:Eo.
        -- rewrite (proj2 (Nat.eqb_neq l 0) E0). cbn [orb].
           rewrite Nat.ltb_ge. split.
           ++ intros H. exists o, l. repeat split; auto. congruence.
           ++ intros [o' [l' [Ho [Hl [_ [_ Hle]]]]]]. inversion Ho; subst o'.
              rewrite El in Hl. inversion Hl; subst. assumption.
        -- split; [discriminate |].
           intros [o' [l' [Ho [_ [_ [Hord _]]]]]]. inversion Ho; subst o'.
           congruence.
    + split; [discriminate |].
      intros [o' [l' [Ho [Hl _]]]]. inversion Ho; subst o'. congruence.
  - split; [discriminate |]. intros [o' [l' [Ho _]]]. discriminate.
  - split; [discriminate |]. intros [o' [l' [Ho _]]]. discriminate.
Qed.

Lemma last_nonnull {A} (l : list (option A)) :
  l <> [] -> Forall (fun x => x <> None) l ->
  exists a, List.last l None = Some a /\ In (Some a) l.
Proof.
  induction l as [| x l IH]; intros Hne Hall; [congruence |].
  inversion Hall as [| y l' Hx Hl]; subst.
  destruct l as [| x' l].
  - destruct x as [a |]; [| congruence]. exists a. simpl. auto.
  - destruct IH as [a [Ha Hin]]; [discriminate | assumption |].
    exists a. split; [exact Ha | right; exact Hin].
Qed.

Lemma find_nonnull ms fs opts target ooc ents :
  outcome (find ms fs opts target ooc) = Ok ents ->
  Forall (fun x => x <> None) ents.
Proof.
  intros H. destruct (find_result _ _ _ _ _ _ H)
    as [q [idp [cp [_ [_ [_ [Hlen Hnth]]]]]]].
  apply Forall_forall. intros x Hin. apply In_nth_error in Hin.
  destruct Hin as [i Hi].
  assert (Hlt : i < List.length (queryDocs fs opts q)).
  { rewrite <- Hlen. apply nth_error_Some. congruence. }
  apply nth_error_Some in Hlt.
  destruct (nth_error (queryDocs fs opts q) i) as [d |] eqn:Ed; [| congruence].
  destruct (Hnth i d Ed) as [data' [Hx _]]. congruence.
Qed.

(** findAndToken after find: the two ways it ends. *)
Lemma findAndToken_eq ms fs opts target ooc :
  trace (findAndToken ms fs opts target ooc)
  = trace (find ms fs opts target ooc)
  /\ match outcome (find ms fs opts target ooc) with
     | Err e => outcome (findAndToken ms fs opts target ooc) = Err e
     | Ok documents =>
         if noToken (tokenOptions ooc) (List.length documents)
         then outcome (findAndToken ms fs opts target ooc)
              = Ok (None, documents)
         else exists idp lastDocument,
             getIdPropName ms target = Ok idp
             /\ List.last documents None = Some lastDocument
             /\ outcome (findAndToken ms fs opts target ooc)
                = Ok (Some (jwt_sign
                              {| tk_options := tokenOptions ooc;
                                 tk_lastDocumentId :=
                                   entity_prop lastDocument idp |}
                              "fireorm"),
                      documents)
     end.
Proof.
  unfold findAndToken. rewrite trace_bind, outcome_bind.
  destruct (outcome (find ms fs opts target ooc)) as [documents | e] eqn:E;
    [| split; reflexivity].
  destruct (noToken (tokenOptions ooc) (List.length documents)) eqn:En.
  - cbn [ret trace outcome fst snd]. now rewrite app_nil_r.
  - destruct (find_result _ _ _ _ _ _ E) as [q [idp [cp [_ [Eid _]]]]].
    destruct (last_nonnull documents) as [lastDocument [Hlast _]].
    + apply noToken_false_iff in En.
      destruct En as [o [l [_ [_ [Hl [_ Hle]]]]]].
      intros ->. simpl in Hle. lia.
    + eapply find_nonnull; eassumption.
    + unfold CQ_getIdPropName. rewrite Eid.
      rewrite trace_bind, outcome_bind. cbn [lift trace outcome fst snd].
      rewrite Hlast. cbn [ret trace outcome fst snd app].
      split; [now rewrite app_nil_r |].
      exists idp, lastDocument. repeat split; auto.
Qed.

Lemma nth_error_last {A} (l : list A) (d : A) :
  l <> [] -> nth_error l (List.length l - 1) = Some (List.last l d).
Proof.
  induction l as [| x l IH]; intros Hne; [congruence |].
  destruct l as [| y l]; [reflexivity |].
  specialize (IH ltac:(discriminate)).
  replace (List.length (x :: y :: l) - 1) with (S (List.length (y :: l) - 1))
    by (simpl; lia).
  cbn [nth_error]. rewrite IH. reflexivity.
Qed.

Lemma tokenOptions_shape (o : FindOptions) (l : nat) :
  o_limit o = Some l -> l <> 0 ->
  tokenOptions (Some (OOptions o)) = shapeOf o.
Proof.
  intros Hl Hne. unfold tokenOptions, shapeOf. cbn.
  rewrite Hl. unfold truthy_num.
  destruct (Nat.eqb l 0) eqn:E; [| reflexivity].
  apply Nat.eqb_eq in E. contradiction.
Qed.

(** The id property of the last entity of a find is the id of the last
    document retrieved, unless a requested relation has the name of the
    id property. *)
Lemma find_last_id ms fs opts target ooc documents idp lastDocument :
  outcome (find ms fs opts target ooc) = Ok documents ->
  getIdPropName ms target = Ok idp ->
  List.last documents None = Some lastDocument ->
  documents <> [] ->
  ~ In idp (namesOf (relationsOf ooc)) ->
  entity_prop lastDocument idp
  = VStr (ds_id (List.last (returnedDocs ms fs opts target ooc) emptySnapshot))
  /\ returnedDocs ms fs opts target ooc <> [].
Proof.
  intros Hfind Eid Hlast Hne Hrel.
  destruct (find_result _ _ _ _ _ _ Hfind)
    as [q [idp' [cp [Eq [Eid' [Ecp [Hlen Hnth]]]]]]].
  rewrite Eid in Eid'. inversion Eid'; subst idp'. clear Eid'.
  unfold returnedDocs. rewrite Eq.
  assert (Hne' : queryDocs fs opts q <> []).
  { intros E. rewrite E in Hlen. destruct documents; [congruence | discriminate]. }
  split; [| assumption].
  pose proof (nth_error_last (queryDocs fs opts q) emptySnapshot Hne') as Hd.
  pose proof (nth_error_last documents None Hne) as He.
  rewrite Hlast, Hlen in He.
  destruct (Hnth _ _ Hd) as [data' [Hent Hdata']].
  rewrite Hent in He. inversion He; subst lastDocument.
  unfold entity_prop, transformToClass. cbn [e_props].
  rewrite obj_get_convert.
  now rewrite (splicedData_id _ _ _ _ _ _ _ _ _ Hrel Hdata').
Qed.

(** ** Token payloads as JSON *)

(** Induction on values, with the hypothesis available for every field
    of an object and every item of an array. *)
Lemma Value_nested_ind (P : Value -> Prop) :
  P VUndefined -> P VNull -> (forall b, P (VBool b)) -> (forall n, P (VNum n)) ->
  (forall s, P (VStr s)) -> (forall t, P (VDate t)) ->
  (forall t, P (VTimestamp t)) -> (forall la lo, P (VGeoPoint la lo)) ->
  (forall p, P (VRef p)) ->
  (forall fields, Forall (fun kv => P (snd kv)) fields -> P (VObj fields)) ->
  (forall items, Forall P items -> P (VArr items)) ->
  forall v, P v.
Proof.
  intros HU HN HB HZ HS HD HT HG HR HO HA.
  exact (fix IH (v : Value) : P v :=
           match v with
           | VUndefined => HU
           | VNull => HN
           | VBool b => HB b
           | VNum n => HZ n
           | VStr s => HS s
           | VDate t => HD t
           | VTimestamp t => HT t
           | VGeoPoint la lo => HG la lo
           | VRef p => HR p
           | VObj fields =>
               HO fields
                  ((fix go (l : list (string * Value))
                      : Forall (fun kv => P (snd kv)) l :=
                      match l with
                      | [] => Forall_nil _
                      | kv :: rest => Forall_cons kv (IH (snd kv)) (go rest)
                      end) fields)
           | VArr items =>
               HA items
                  ((fix go (l : list Value) : Forall P l :=
                      match l with
                      | [] => Forall_nil _
                      | x :: rest => Forall_cons x (IH x) (go rest)
                      end) items)
           end).
Qed.

Lemma jsonValue_safe : forall v, jsonSafe v = true -> jsonValue v = v.
Proof.
  induction v as [| | b | n | s | t | t | la lo | p | fields IH | items IH]
    using Value_nested_ind; try reflexivity; try discriminate.
  - cbn [jsonSafe jsonValue]. intros H. f_equal.
    induction IH as [| [k x] fields Hx _ IHf]; [reflexivity |].
    apply andb_true_iff in H. destruct H as [Hsafe Hrest].
    rewrite (IHf Hrest). cbn [snd] in Hx.
    destruct x; try discriminate Hsafe; try reflexivity;
      now rewrite (Hx Hsafe).
  - cbn [jsonSafe jsonValue]. intros H. f_equal.
    induction IH as [| x items Hx _ IHi]; [reflexivity |].
    apply andb_true_iff in H. destruct H as [Hsafe Hrest].
    cbn [map]. rewrite (IHi Hrest).
    destruct x; try discriminate Hsafe; try reflexivity;
      now rewrite (Hx Hsafe).
Qed.

Lemma jsonOptions_safe (o : FindOptions) :
  jsonSafeWhere o = true -> jsonOptions o = o.
Proof.
  unfold jsonSafeWhere, jsonOptions. destruct o as [w s ord l off sa st eb ea r].
  cbn [o_where o_select o_order o_limit o_offset o_startAfter o_startAt
       o_endBefore o_endAt o_relations].
  destruct w as [w |]; [| reflexivity]. intros H.
  cbn [option_map]. unfold jsonObj. now rewrite (jsonValue_safe (VObj w) H).
Qed.

Lemma jwt_verify_sign (payload : TokenObj) (secret : string) :
  jwt_verify (jwt_sign payload secret) secret = Some (jsonToken payload).
Proof. unfold jwt_verify, jwt_sign. now rewrite String.eqb_refl. Qed.

(** ** The pagination token *)

(** C3, as stated, fails on a limit of 0: the options give a limit and
    an order and the two documents returned are not fewer than the
    limit, yet findAndToken treats a limit of 0 as no limit (find does
    not apply it either) and returns no token. *)
Lemma C3_zero_limit_counterexample :
  ~ tokenIffLimitAndOrder blogStorage (memFirestore blogStore) noOptions Post
      (byTitle (Some 0) None).
Proof.
  intros H.
  destruct (outcome (findAndToken blogStorage (memFirestore blogStore)
                       noOptions Post (Some (OOptions (byTitle (Some 0) None)))))
    as [[tok documents] | e] eqn:E; [| vm_compute in E; discriminate].
  specialize (H tok documents E).
  vm_compute in E. inversion E; subst tok documents. clear E.
  apply (proj2 H); [| reflexivity].
  exists 0. repeat split; [discriminate | simpl; lia].
Qed.

(** C3, amended.  findAndToken issues the reads of find and fails as
    find fails.  When find returns, findAndToken returns the very same
    entity list, with a token exactly when the argument is an options
    object with an order and a limit that is not 0 and at least limit
    documents came back.  The token is signed under 'fireorm' and its
    payload is the where, select, order and limit of the options with
    the id property of the last entity, all as JSON; that id property is
    the id of the last document retrieved unless a requested relation
    bears the name of the id property. *)
Theorem C3_findAndToken_token
  (ms : MetadataStorage) (fs : Firestore) (opts : CollectionQueryOption)
  (target : JsFunction) (ooc : option OptionsOrConditions) :
  trace (findAndToken ms fs opts target ooc) = trace (find ms fs opts target ooc)
  /\ (forall e,
        outcome (find ms fs opts target ooc) = Err e ->
        outcome (findAndToken ms fs opts target ooc) = Err e)
  /\ (forall documents,
        outcome (find ms fs opts target ooc) = Ok documents ->
        exists tok,
          outcome (findAndToken ms fs opts target ooc) = Ok (tok, documents)
          /\ (tok <> None
              <-> exists o l,
                    ooc = Some (OOptions o) /\ o_limit o = Some l /\ l <> 0
                    /\ o_order o <> None /\ l <= List.length documents)
          /\ forall t,
               tok = Some t ->
               exists o idp lastDocument,
                 ooc = Some (OOptions o)
                 /\ getIdPropName ms target = Ok idp
                 /\ List.last documents None = Some lastDocument
                 /\ t = jwt_sign {| tk_options := shapeOf o;
                                    tk_lastDocumentId :=
                                      entity_prop lastDocument idp |}
                                 "fireorm"
                 /\ jwt_verify t "fireorm"
                    = Some {| tk_options := jsonOptions (shapeOf o);
                              tk_lastDocumentId :=
                                jsonValue (entity_prop lastDocument idp) |}
                 /\ (~ In idp (namesOf (relationsOf ooc)) ->
                     entity_prop lastDocument idp
                     = VStr (ds_id (List.last
                                      (returnedDocs ms fs opts target ooc)
                                      emptySnapshot)))).
Proof.
  destruct (findAndToken_eq ms fs opts target ooc) as [Ht Ho].
  split; [assumption |]. split.
  - intros e E. now rewrite E in Ho.
  - intros documents E. rewrite E in Ho.
    destruct (noToken (tokenOptions ooc) (List.length documents)) eqn:En.
    + exists None. split; [assumption |]. split.
      * split; [congruence |]. intros Hex.
        apply noToken_false_iff in Hex. congruence.
      * discriminate.
    + destruct Ho as [idp [lastDocument [Eid [Hlast Hout]]]].
      pose proof (proj1 (noToken_false_iff _ _) En)
        as [o [l [Hooc [Hl [Hne [Hord Hle]]]]]].
      eexists. split; [exact Hout |]. split.
      * split; [| discriminate]. intros _. exists o, l. auto.
      * intros t Ht'. inversion Ht'; subst t. clear Ht'.
        exists o, idp, lastDocument. subst ooc.
        rewrite (tokenOptions_shape o l Hl Hne).
        split; [reflexivity |]. split; [assumption |].
        split; [assumption |]. split; [reflexivity |].
        split; [apply jwt_verify_sign |].
        intros Hrel.
        apply (find_last_id ms fs opts target (Some (OOptions o)) documents);
          auto.
        intros ->. simpl in Hle. lia.
Qed.

(** An instance of C3 amended: one post per page, ordered by title. *)
Lemma C3_findAndToken_token_witness :
  exists tok,
    outcome (findAndToken blogStorage (memFirestore blogStore) noOptions Post
               (Some (OOptions (byTitle (Some 1) None))))
    = Ok (tok, firstPostPage)
    /\ tok <> None.
Proof.
  destruct (proj2 (proj2 (C3_findAndToken_token blogStorage
                            (memFirestore blogStore) noOptions Post
                            (Some (OOptions (byTitle (Some 1) None)))))
              firstPostPage eq_refl) as [tok [Hout [Hiff _]]].
  exists tok. split; [exact Hout |].
  apply Hiff. exists (byTitle (Some 1) None), 1.
  repeat split; try discriminate. simpl. lia.
Defined.

Lemma low_findAndToken ms fs opts target ooc :
  low (findAndToken ms fs opts target ooc).
Proof.
  unfold findAndToken. apply low_bind; [apply low_find |]. intros documents.
  destruct (noToken _ _); [auto with low |].
  apply low_bind; [unfold CQ_getIdPropName; auto with low |]. intros idp.
  destruct (List.last documents None); auto with low.
  unfold low, throw. cbn [outcome snd]. auto with low.
Qed.

Lemma findAndToken_returns ms fs opts target ooc documents :
  outcome (find ms fs opts target ooc) = Ok documents ->
  exists tok, outcome (findAndToken ms fs opts target ooc) = Ok (tok, documents).
Proof.
  intros E. destruct (findAndToken_eq ms fs opts target ooc) as [_ Ho].
  rewrite E in Ho.
  destruct (noToken (tokenOptions ooc) (List.length documents)); [eauto |].
  destruct Ho as [idp [lastDocument [_ [_ Hout]]]]. eauto.
Qed.

(** findByToken, case by case. *)
Lemma findByToken_eq ms fs opts target token :
  match jwt_verify token "fireorm" with
  | None => findByToken ms fs opts target token = ([], Err InvalidPaginationToken)
  | Some tokenObj =>
      if truthy (tk_lastDocumentId tokenObj) then
        match getDocumentRef ms target (tk_lastDocumentId tokenObj) with
        | Err e => findByToken ms fs opts target token = ([], Err e)
        | Ok path =>
            if ds_exists (fs_getDoc fs path) then
              trace (findByToken ms fs opts target token)
              = ReqDocGet path
                :: trace (findAndToken ms fs opts target
                            (Some (OOptions
                                     (withStartAfter (tk_options tokenObj)
                                        [CSnap (fs_getDoc fs path)]))))
              /\ outcome (findByToken ms fs opts target token)
                 = outcome (findAndToken ms fs opts target
                              (Some (OOptions
                                       (withStartAfter (tk_options tokenObj)
                                          [CSnap (fs_getDoc fs path)]))))
            else findByToken ms fs opts target token
                 = ([ReqDocGet path], Err InvalidPaginationToken)
        end
      else findByToken ms fs opts target token
           = ([], Err InvalidPaginationToken)
  end.
Proof.
  unfold findByToken. destruct (jwt_verify token "fireorm") as [p |];
    [| reflexivity].
  destruct (truthy (tk_lastDocumentId p)); [| reflexivity]. cbn [negb].
  destruct (getDocumentRef ms target (tk_lastDocumentId p)) as [path | e];
    [| reflexivity].
  destruct (ds_exists (fs_getDoc fs path)) eqn:Ex; cbn [negb].
  - rewrite !trace_bind, !outcome_bind. cbn [lift outcome trace fst snd app].
    rewrite !trace_bind, !outcome_bind. cbn [request outcome trace fst snd].
    rewrite Ex. cbn [negb app]. split; reflexivity.
  - cbn [bind lift request]. rewrite Ex. reflexivity.
Qed.





(** On the same store a query made of order and limit only is paged
    faithfully: the two pages are the original query in order. *)
Lemma plain_query_pages_follow :
  pagesFollowOriginal blogStorage (memFirestore blogStore) noOptions Post
    (byTitle (Some 1) None).
Proof.
  intros tok page1 H. vm_compute in H. inversion H; subst tok page1.
  eexists _, _, _. split; [vm_compute; reflexivity |].
  split; vm_compute; reflexivity.
Qed.

(** With a parentPath the documents come from the sub-collection, but
    the token's document is looked up under the collection of the class:
    on this store it is not found there and the token is refused. *)
Lemma parentPath_token_is_refused :
  exists tok page,
    outcome (findAndToken blogStorage (memFirestore blogStore)
               {| collectionId := None; parentPath := Some "users/u1/posts";
                  tnx := None |}
               Post (Some (OOptions (byTitle (Some 1) None))))
    = Ok (Some tok, page)
    /\ outcome (findByToken blogStorage (memFirestore blogStore)
                  {| collectionId := None; parentPath := Some "users/u1/posts";
                     tnx := None |}
                  Post tok)
       = Err InvalidPaginationToken.
Proof. eexists _, _. split; vm_compute; reflexivity. Qed.

(** ** Relation conditions in find and findOne *)

(** C6 fails on the code.  For the condition author = 'u1' on the
    relation author of Post, whose lazy type is [() => User], findOne
    calls the thunk and compares the field with the reference users/u1,
    while find hands the thunk itself to getCollectionPath, where no
    collection is registered for it, and ends in CollectionNotFound
    before any read. *)
Lemma C6_find_does_not_call_the_thunk :
  find blogStorage (memFirestore blogStore) noOptions Post
       (Some (OConditions [("author", VStr "u1")]))
  = ([], Err CollectionNotFound)
  /\ findOneQuery blogStorage noOptions Post
       (Some (OConditions [("author", VStr "u1")]))
     = Ok {| q_source := QCollection "posts";
             q_steps := [SWhere "author" (VStr "==") (VRef "users/u1")] |}
  /\ findQuery blogStorage noOptions Post
       (Some (OConditions [("author", VStr "u1")]))
     = Err CollectionNotFound.
Proof. repeat split. Qed.

(** ** findByIds and missing documents *)

(** C10 fails on the code when relations are requested.  For the ids
    zz (no such post) and p1 with the relation comments, the null at
    index 0 leaves relationDocMapping empty, the row pushed for p1 lands
    at index 0, and setting relationDocMapping[1].comments is a
    TypeError: findByIds is rejected because of the missing document.
    With the ids in the other order it returns the entity and null. *)
Lemma C10_missing_document_rejects :
  findByIds blogStorage (memFirestore blogStore) noOptions Post
            (ManyIds ["zz"; "p1"]) (Some (relationsOnly ["comments"]))
  = ([ReqGetAll ["posts/zz"; "posts/p1"]], Err TypeError)
  /\ outcome (findByIds blogStorage (memFirestore blogStore) noOptions Post
                        (ManyIds ["p1"; "zz"])
                        (Some (relationsOnly ["comments"])))
     = Ok (ByIdsMany
             [Some {| e_class := Post;
                      e_props :=
                        [("title", VStr "a"); ("author", VStr "u1");
                         ("id", VStr "p1");
                         ("comments",
                          VArr [VObj [("post", VStr "p1");
                                      ("text", VStr "first")]])] |};
              None]).
Proof. split; reflexivity. Qed.

(** ** findOne and findOneOrFail *)

Lemma findOne_cases ms fs opts target ooc :
  match findOneQuery ms opts target ooc with
  | Err e => findOne ms fs opts target ooc = ([], Err e)
  | Ok q =>
      match queryDocs fs opts (q_add q (SLimit 1)) with
      | [] => outcome (findOne ms fs opts target ooc) = Ok JUndefined
      | d :: rest =>
          if ds_exists d then
            outcome (findOne ms fs opts target ooc)
            = match outcome (loadRelations ms fs target (map Some (d :: rest))
                                           (relationsOf ooc)) with
              | Ok entities => Ok (first_of entities)
              | Err e => Err e
              end
          else outcome (findOne ms fs opts target ooc) = Ok JUndefined
      end
  end.
Proof.
  unfold findOne. destruct (findOneQuery ms opts target ooc) as [q | e];
    [| reflexivity].
  rewrite !outcome_bind. cbn [lift outcome snd].
  rewrite !outcome_bind.
  destruct (runQuery_eq fs opts (q_add q (SLimit 1))) as [-> _].
  destruct (queryDocs fs opts (q_add q (SLimit 1))) as [| d rest];
    [reflexivity |].
  destruct (ds_exists d); cbn [negb]; [| reflexivity].
  rewrite outcome_bind.
  now destruct (outcome (loadRelations ms fs target (map Some (d :: rest))
                                       (relationsOf ooc))).
Qed.

Lemma loadRelations_first ms fs target d rest names entities :
  outcome (loadRelations ms fs target (Some d :: rest) names) = Ok entities ->
  exists e, first_of entities = JSome e.
Proof.
  intros H.
  destruct (loadRelations_eq ms fs target (Some d :: rest) names) as [_ Eo].
  destruct (getIdPropName ms target) as [idp | e] eqn:Eid;
    [| rewrite Eo in H; discriminate].
  destruct (getCollectionPath ms target) as [cp | e] eqn:Ecp;
    [| rewrite Eo in H; discriminate].
  destruct (loadRelations_result ms fs target _ _ idp cp entities Eid Ecp H)
    as [_ Hnth].
  specialize (Hnth 0). cbn [nth_error option_map] in Hnth.
  unfold splicedData in Hnth.
  destruct (spliceRow_Some
              (relationCacheData
                 (map (cacheEntryOf fs)
                      (trace (loadRelations ms fs target (Some d :: rest) names))))
              (expectedRow ms target cp idp d (namesOf names) [])
              (docData idp d)) as [data' Hdata'].
  rewrite Hdata' in Hnth. cbn [option_map] in Hnth.
  destruct entities as [| [e |] entities]; try discriminate.
  exists e. reflexivity.
Qed.

(** C5. findOneOrFail ends in the entity-not-found error, naming the
    class, exactly when findOne resolves to undefined, which is exactly
    when its query, limited to one document, brings no existing
    document; when findOne resolves to an entity it resolves to the same
    entity; when findOne is rejected the same error reaches the caller;
    and it issues exactly the reads of one findOne call: nothing is
    retried. *)
Theorem C5_findOneOrFail
  (ms : MetadataStorage) (fs : Firestore) (opts : CollectionQueryOption)
  (target : JsFunction) (ooc : option OptionsOrConditions) :
  (forall n,
     outcome (findOneOrFail ms fs opts target ooc) = Err (EntityNotFound n)
     <-> outcome (findOne ms fs opts target ooc) = Ok JUndefined
         /\ n = fn_name target)
  /\ (outcome (findOne ms fs opts target ooc) = Ok JUndefined
      <-> exists q,
            findOneQuery ms opts target ooc = Ok q
            /\ (queryDocs fs opts (q_add q (SLimit 1)) = []
                \/ exists d rest,
                     queryDocs fs opts (q_add q (SLimit 1)) = d :: rest
                     /\ ds_exists d = false))
  /\ (forall v,
        outcome (findOne ms fs opts target ooc) = Ok v -> v <> JUndefined ->
        (exists e, v = JSome e)
        /\ outcome (findOneOrFail ms fs opts target ooc) = Ok v)
  /\ (forall e,
        outcome (findOne ms fs opts target ooc) = Err e ->
        outcome (findOneOrFail ms fs opts target ooc) = Err e)
  /\ trace (findOneOrFail ms fs opts target ooc)
     = trace (findOne ms fs opts target ooc).
Proof.
  pose proof (low_findOne ms fs opts target ooc) as L.
  pose proof (findOne_cases ms fs opts target ooc) as Hc.
  assert (Hshape : forall v,
             outcome (findOne ms fs opts target ooc) = Ok v ->
             v = JUndefined \/ exists e, v = JSome e).
  { intros v Hv.
    destruct (findOneQuery ms opts target ooc) as [q | e];
      [| rewrite Hc in Hv; discriminate].
    destruct (queryDocs fs opts (q_add q (SLimit 1))) as [| d rest];
      [left; congruence |].
    destruct (ds_exists d); [| left; congruence].
    rewrite Hc in Hv.
    destruct (outcome (loadRelations ms fs target (map Some (d :: rest))
                                     (relationsOf ooc)))
      as [entities |] eqn:El; [| discriminate].
    inversion Hv; subst v. right.
    apply (loadRelations_first ms fs target d (map Some rest) _ _ El). }
  split; [| split; [| split; [| split]]].
  - intros n. unfold findOneOrFail. rewrite outcome_bind.
    destruct (outcome (findOne ms fs opts target ooc)) as [v | e] eqn:E.
    + split.
      * destruct v; simpl; intros H; inversion H; auto.
      * intros [H ->]. inversion H. reflexivity.
    + split.
      * intros H. inversion H; subst.
        destruct (low_not_high _ (L _ E)) as [_ [_ [Hn _]]].
        now destruct (Hn n).
      * intros [H _]. discriminate.
  - destruct (findOneQuery ms opts target ooc) as [q | e].
    2:{ rewrite Hc. split; [discriminate | intros [q [Hq _]]; discriminate]. }
    destruct (queryDocs fs opts (q_add q (SLimit 1))) as [| d rest] eqn:Eq.
    { split; [| auto]. intros _. exists q. auto. }
    destruct (ds_exists d) eqn:Ex.
    + split.
      * intros H. rewrite Hc in H.
        destruct (outcome (loadRelations ms fs target (map Some (d :: rest))
                                         (relationsOf ooc)))
          as [entities |] eqn:El; [| discriminate].
        destruct (loadRelations_first ms fs target d (map Some rest) _ _ El)
          as [e He].
        rewrite He in H. discriminate.
      * intros [q' [Hq [Hnil | [d' [rest' [Hd Hx]]]]]];
          inversion Hq; subst q'; [congruence |].
        rewrite Eq in Hd. inversion Hd; subst. congruence.
    + split; [| auto]. intros _. exists q. split; [reflexivity |].
      right. exists d, rest. auto.
  - intros v Hv Hne. destruct (Hshape v Hv) as [-> | [e ->]]; [congruence |].
    split; [eauto |]. unfold findOneOrFail. rewrite outcome_bind, Hv.
    reflexivity.
  - intros e He. unfold findOneOrFail. now rewrite outcome_bind, He.
  - unfold findOneOrFail. rewrite trace_bind.
    destruct (outcome (findOne ms fs opts target ooc)) as [v | e];
      [| reflexivity].
    destruct v; simpl; now rewrite app_nil_r.
Qed.

(** An instance of C5: no post is called "zz". *)
Lemma C5_findOneOrFail_witness :
  outcome (findOneOrFail blogStorage (memFirestore blogStore) noOptions Post
             (Some (OConditions [("title", VStr "zz")])))
  = Err (EntityNotFound "Post").
Proof.
  apply (proj1 (C5_findOneOrFail blogStorage (memFirestore blogStore)
                  noOptions Post (Some (OConditions [("title", VStr "zz")])))).
  split; reflexivity.
Defined.



(** An instance of C8 on the blog registry. *)
Lemma C8_missing_metadata_errors_witness :
  getCollectionName blogStorage Post = Ok "posts"
  /\ getIdPropName blogStorage (ArrowFn User) = Err IdPerpertyNotFound.
Proof.
  pose proof (C8_missing_metadata_errors {| uuid_v1 := "1"; uuid_v4 := "4" |}
                blogStorage (ArrowFn User)) as [_ [_ [_ [_ [H _]]]]].
  split; [reflexivity |].
  apply H. intros [p [Hin Ht]]. simpl in Hin.
  repeat (destruct Hin as [Hin | Hin]; [subst p; discriminate Ht |]).
  exact Hin.
Defined.

(** ** Further facts on findByIds and on conditions *)

Lemma splicedData_no_relations ms fs target cp idp names t d :
  namesOf names = [] ->
  splicedData ms fs target cp idp names t d = Some (docData idp d).
Proof. intros E. unfold splicedData. rewrite E. reflexivity. Qed.

(** Without requested relations findByIds on a list of ids returns, in
    the order of the snapshots the client gives for the references
    collectionPath/id, null for a missing document and the entity of the
    document's data and id otherwise. *)
Lemma findByIds_without_relations ms fs opts target ids fo cp idp :
  truthy_val (collectionId opts) = None ->
  match truthy_val (parentPath opts) with
  | Some p => Ok p
  | None => getCollectionPath ms target
  end = Ok cp ->
  getIdPropName ms target = Ok idp ->
  hasCollection ms target ->
  namesOf (optionRelations fo) = [] ->
  outcome (findByIds ms fs opts target (ManyIds ids) fo)
  = Ok (ByIdsMany
          (map (fun v => if ds_exists v
                         then Some (transformToClass target (docData idp v))
                         else None)
               (allDocs fs opts
                  (map (fun id => (cp ++ "/" ++ id)%string) ids)))).
Proof.
  intros Hcid Hcp Eid Hcol Hnames. unfold findByIds. rewrite Hcid, Hcp.
  rewrite !outcome_bind. cbn [lift outcome snd]. rewrite !outcome_bind.
  assert (Hall : outcome (runGetAll fs opts
                            (map (fun id => (cp ++ "/" ++ id)%string) ids))
                 = Ok (allDocs fs opts
                         (map (fun id => (cp ++ "/" ++ id)%string) ids))).
  { unfold runGetAll, allDocs. now destruct (tnx opts). }
  rewrite Hall. rewrite outcome_bind.
  set (snaps := allDocs fs opts _).
  set (docs := map (fun v => if ds_exists v then Some v else None) snaps).
  destruct (getCollection_spec ms target) as [[Hn _] | [c [_ [_ [_ Ec]]]]];
    [contradiction |].
  destruct (loadRelations_total ms fs target docs (optionRelations fo))
    as [result Hres].
  - destruct (getIdProp_spec ms target) as [[_ E] | [p [Hin [Ht _]]]].
    + unfold getIdPropName in Eid. rewrite E in Eid. discriminate.
    + exists p. auto.
  - assumption.
  - rewrite Hnames. intros r arg [].
  - rewrite Hnames. discriminate.
  - rewrite Hres. cbn [ret outcome snd]. do 2 f_equal.
    destruct (loadRelations_result ms fs target docs (optionRelations fo)
                idp (collectionPathOf c) result Eid Ec Hres) as [Hlen Hnth].
    apply nth_error_ext. intros i. rewrite Hnth. unfold docs.
    rewrite !nth_error_map.
    destruct (nth_error snaps i) as [v |]; cbn [option_map]; [| reflexivity].
    destruct (ds_exists v); [| reflexivity].
    now rewrite splicedData_no_relations.
Qed.

Lemma foldRes_ext {A S} (f g : S -> A -> Res S) (l : list A) :
  (forall s a, In a l -> f s a = g s a) ->
  forall s, foldRes f s l = foldRes g s l.
Proof.
  induction l as [| a l IH]; intros H s; [reflexivity |].
  cbn [foldRes]. rewrite (H s a (or_introl eq_refl)).
  destruct (g s a); cbn [res_bind]; [| reflexivity].
  apply IH. intros s' a' Hin. apply H. now right.
Qed.

(** For bare conditions none of which is on a declared relation, find
    and findOne build the same query. *)
Lemma plain_conditions_same_query ms opts target w :
  noRelationCondition ms target w ->
  findQuery ms opts target (Some (OConditions w))
  = findOneQuery ms opts target (Some (OConditions w)).
Proof.
  intros H. unfold findQuery, findOneQuery.
  destruct (getQuery ms opts target) as [q | e]; [| reflexivity].
  cbn [res_bind getFindConditionsFromFindManyOptions
       getFindConditionsFromFindOneOptions].
  fold (relationArgs ms target).
  rewrite (foldRes_ext (findCondition ms (relationArgs ms target))
                       (findOneCondition ms (relationArgs ms target)) w);
    [reflexivity |].
  intros s [f v] Hin. unfold findCondition, findOneCondition.
  now rewrite (H f v Hin).
Qed.
(* ================================================================== *)
(** * Further properties of the two files *)
(* ================================================================== *)

(** ** convertToJsObject and transformToClass *)

Lemma clientFree_fields (fields : list (string * Value)) :
  clientFree (VObj fields) = forallb (fun kv => clientFree (snd kv)) fields.
Proof.
  induction fields as [| [k x] rest IH]; [reflexivity |].
  cbn [clientFree forallb snd] in *. now rewrite <- IH.
Qed.

Lemma clientFree_items (items : list Value) :
  clientFree (VArr items) = forallb clientFree items.
Proof.
  induction items as [| x rest IH]; [reflexivity |].
  cbn [clientFree forallb] in *. now rewrite <- IH.
Qed.

Lemma convertValue_clientFree (v : Value) : clientFree (convertValue v) = true.
Proof.
  induction v as [| | b | n | s | t | t | la lo | p | fields IH | items IH]
    using Value_nested_ind; try reflexivity.
  - cbn [convertValue]. rewrite clientFree_fields, forallb_forall.
    intros kv Hin. apply in_map_iff in Hin. destruct Hin as [[k x] [<- Hin]].
    rewrite Forall_forall in IH. exact (IH (k, x) Hin).
  - cbn [convertValue]. rewrite clientFree_items, forallb_forall.
    intros y Hin. apply in_map_iff in Hin. destruct Hin as [x [<- Hin]].
    rewrite Forall_forall in IH. exact (IH x Hin).
Qed.

Lemma convertValue_fixed (v : Value) :
  clientFree v = true -> convertValue v = v.
Proof.
  induction v as [| | b | n | s | t | t | la lo | p | fields IH | items IH]
    using Value_nested_ind; try reflexivity; try discriminate.
  - rewrite clientFree_fields, forallb_forall. intros H.
    cbn [convertValue]. f_equal.
    rewrite Forall_forall in IH.
    rewrite <- (map_id fields) at 2. apply map_ext_in.
    intros [k x] Hin. f_equal. exact (IH (k, x) Hin (H (k, x) Hin)).
  - rewrite clientFree_items, forallb_forall. intros H.
    cbn [convertValue]. f_equal.
    rewrite Forall_forall in IH.
    rewrite <- (map_id items) at 2. apply map_ext_in.
    intros x Hin. exact (IH x Hin (H x Hin)).
Qed.

Lemma convertToJsObject_as_value (obj : Obj) :
  VObj (convertToJsObject obj) = convertValue (VObj obj).
Proof. reflexivity. Qed.

(** X1. convertToJsObject removes every instance of a client class: in
    the object it returns no Timestamp, GeoPoint or DocumentReference is
    left at any depth, in nested maps and in arrays alike, while the keys
    of the object and their order are kept; transformToClass builds an
    instance of the class it was given whose properties are that
    object. *)
Theorem convertToJsObject_leaves_no_client_class
  (target : JsFunction) (obj : Obj) :
  clientFree (VObj (convertToJsObject obj)) = true
  /\ map fst (convertToJsObject obj) = map fst obj
  /\ e_class (transformToClass target obj) = target
  /\ clientFree (VObj (e_props (transformToClass target obj))) = true
  /\ map fst (e_props (transformToClass target obj)) = map fst obj.
Proof.
  assert (Hfree : clientFree (VObj (convertToJsObject obj)) = true).
  { rewrite convertToJsObject_as_value. apply convertValue_clientFree. }
  assert (Hkeys : map fst (convertToJsObject obj) = map fst obj).
  { unfold convertToJsObject. rewrite map_map. apply map_ext.
    now intros [k x]. }
  repeat split; assumption.
Qed.

(** X2. convertToJsObject is idempotent, and it returns an object that
    holds no instance of a client class as it is: converting the data of
    an entity that went through transformToClass changes nothing. *)
Theorem convertToJsObject_idempotent (obj : Obj) :
  convertToJsObject (convertToJsObject obj) = convertToJsObject obj
  /\ (clientFree (VObj obj) = true -> convertToJsObject obj = obj).
Proof.
  assert (Hfix : forall o, clientFree (VObj o) = true -> convertToJsObject o = o).
  { intros o H. pose proof (convertValue_fixed (VObj o) H) as E.
    cbn [convertValue] in E. injection E as E. exact E. }
  split; [| apply Hfix].
  apply Hfix. rewrite convertToJsObject_as_value. apply convertValue_clientFree.
Qed.
(** ** metadata-storage.ts *)

Lemma find_first {A} (f : A -> bool) (before after : list A) (a : A) :
  (forall x, In x before -> f x = false) -> f a = true ->
  List.find f (before ++ a :: after) = Some a.
Proof.
  intros Hb Ha. induction before as [| x before IH]; cbn [app List.find].
  - now rewrite Ha.
  - rewrite (Hb x (or_introl eq_refl)). apply IH.
    intros y Hy. apply Hb. now right.
Qed.

Lemma JsFunction_eqb_neq (f g : JsFunction) :
  f <> g -> JsFunction_eqb f g = false.
Proof.
  intros H. destruct (JsFunction_eqb f g) eqn:E; [| reflexivity].
  apply JsFunction_eqb_eq in E. contradiction.
Qed.

(** X20. The first collection entry registered for a class is the one
    that counts: getCollection returns it and getCollectionName returns
    its prefix followed by its name (the name alone when it has no
    prefix or an empty one), whatever entries for the same class were
    registered after it. *)
Theorem getCollectionName_reads_the_first_entry
  (ms : MetadataStorage) (target : JsFunction)
  (before after : list CollectionMetadataArgs) (c : CollectionMetadataArgs) :
  collections ms = before ++ c :: after ->
  c_target c = target ->
  (forall c', In c' before -> c_target c' <> target) ->
  getCollection ms target = Ok c
  /\ getCollectionName ms target
     = Ok (match prefix (c_options c) with
           | Some p => (p ++ c_name c)%string
           | None => c_name c
           end).
Proof.
  intros Hc Ht Hb. unfold getCollection, getCollectionName. rewrite Hc.
  rewrite find_first.
  - split; [reflexivity |]. f_equal. unfold truthy_val.
    destruct (prefix (c_options c)) as [p |]; [| reflexivity].
    destruct (String.eqb p "") eqn:E; [| reflexivity].
    apply String.eqb_eq in E. now subst p.
  - intros c' Hin. apply JsFunction_eqb_neq. now apply Hb.
  - rewrite Ht. apply JsFunction_eqb_refl.
Qed.

Lemma getCollectionName_reads_the_first_entry_witness :
  getCollection
    {| collections :=
         [plainCollection "users" User;
          {| c_name := "posts"; c_target := Post;
             c_options := {| prefix := Some "blog_" |} |};
          plainCollection "articles" Post];
       ids := []; properties := []; relations := [] |} Post
  = Ok {| c_name := "posts"; c_target := Post;
          c_options := {| prefix := Some "blog_" |} |}
  /\ getCollectionName
       {| collections :=
            [plainCollection "users" User;
             {| c_name := "posts"; c_target := Post;
                c_options := {| prefix := Some "blog_" |} |};
             plainCollection "articles" Post];
          ids := []; properties := []; relations := [] |} Post
     = Ok "blog_posts".
Proof.
  apply (getCollectionName_reads_the_first_entry
           {| collections :=
                [plainCollection "users" User;
                 {| c_name := "posts"; c_target := Post;
                    c_options := {| prefix := Some "blog_" |} |};
                 plainCollection "articles" Post];
              ids := []; properties := []; relations := [] |} Post
           [plainCollection "users" User] [plainCollection "articles" Post]).
  - reflexivity.
  - reflexivity.
  - intros c' [<- | []]. discriminate.
Defined.

(** getProperties never throws: it returns exactly the property
    entries registered for the class, in the order of registration,
    and the empty array for a class with none, also when the class has
    neither a collection nor an id property registered. *)
Lemma getProperties_returns_the_entries_of_the_class
  (ms : MetadataStorage) (target : JsFunction) :
  (forall p, In p (getProperties ms target)
             <-> In p (properties ms) /\ p_target p = target)
  /\ (getProperties ms target = []
      <-> forall p, In p (properties ms) -> p_target p <> target)
  /\ (forall l1 l2,
        properties ms = l1 ++ l2 ->
        getProperties ms target
        = filter (fun p => JsFunction_eqb (p_target p) target) l1
          ++ filter (fun p => JsFunction_eqb (p_target p) target) l2).
Proof.
  unfold getProperties. split; [| split].
  - intros p. rewrite filter_In, JsFunction_eqb_eq. reflexivity.
  - split.
    + intros E p Hin Ht.
      assert (H : In p (filter (fun property =>
                                  JsFunction_eqb (p_target property) target)
                               (properties ms))).
      { apply filter_In. split; [assumption |]. now apply JsFunction_eqb_eq. }
      rewrite E in H. destruct H.
    + intros H.
      destruct (filter _ (properties ms)) as [| p l] eqn:E; [reflexivity |].
      assert (Hin : In p (filter (fun property =>
                                    JsFunction_eqb (p_target property) target)
                                 (properties ms)))
        by (rewrite E; now left).
      apply filter_In in Hin. destruct Hin as [Hin Ht].
      apply JsFunction_eqb_eq in Ht. exfalso. exact (H p Hin Ht).
  - intros l1 l2 ->. apply filter_app.
Qed.

(** getIdGenerataValue returns undefined exactly when the id
    property registered for the class has the strategy 'auto'; with a
    function as strategy it returns what the function returns, and with
    'uuid/v1' or 'uuid/v4' what the uuid module of that name
    generates. *)
Lemma getIdGenerataValue_by_strategy
  (uuid : UuidSource) (ms : MetadataStorage) (target : JsFunction) :
  (getIdGenerataValue uuid ms target = Ok None
   <-> exists p, getIdProp ms target = Ok p /\ id_strategy p = StrategyAuto)
  /\ (forall p f,
        getIdProp ms target = Ok p -> id_strategy p = StrategyFn f ->
        getIdGenerataValue uuid ms target = Ok (Some (f tt)))
  /\ (forall p,
        getIdProp ms target = Ok p -> id_strategy p = StrategyUuidV1 ->
        getIdGenerataValue uuid ms target = Ok (Some (uuid_v1 uuid)))
  /\ (forall p,
        getIdProp ms target = Ok p -> id_strategy p = StrategyUuidV4 ->
        getIdGenerataValue uuid ms target = Ok (Some (uuid_v4 uuid))).
Proof.
  unfold getIdGenerataValue. split; [| repeat split].
  - split.
    + destruct (getIdProp ms target) as [p | e]; [| discriminate].
      cbn [res_bind]. intros H. exists p. split; [reflexivity |].
      destruct (id_strategy p); try discriminate H. reflexivity.
    + intros [p [-> Hs]]. cbn [res_bind]. now rewrite Hs.
  - intros p f -> Hs. cbn [res_bind]. now rewrite Hs.
  - intros p -> Hs. cbn [res_bind]. now rewrite Hs.
  - intros p -> Hs. cbn [res_bind]. now rewrite Hs.
Qed.
(** ** convertToFirestoreObject and transformToPlain *)

Lemma forEachRes_Forall2 {A B : Type} (f : A -> Res B) (l : list A) :
  forall bs, forEachRes f l = Ok bs -> Forall2 (fun a b => f a = Ok b) l bs.
Proof.
  induction l as [| a l IH]; cbn [forEachRes]; intros bs H.
  - injection H as <-. constructor.
  - destruct (f a) as [b | e] eqn:Ea; [| discriminate].
    cbn [res_bind] in H.
    destruct (forEachRes f l) as [bs' | e]; [| discriminate].
    cbn [res_bind] in H. injection H as <-.
    constructor; [assumption | now apply IH].
Qed.

Lemma forEachRes_cases {A B : Type} (f : A -> Res B) (bad : A -> bool)
  (l : list A) :
  (forall a, In a l ->
             (bad a = true -> f a = Err TypeError)
             /\ (bad a = false -> exists b, f a = Ok b)) ->
  (existsb bad l = true -> forEachRes f l = Err TypeError)
  /\ (existsb bad l = false -> exists bs, forEachRes f l = Ok bs).
Proof.
  induction l as [| a l IH]; intros H.
  - split; [discriminate | intros _; now exists []].
  - cbn [existsb forEachRes].
    destruct (H a (or_introl eq_refl)) as [Hbad Hgood].
    destruct (IH (fun x Hx => H x (or_intror Hx))) as [IHbad IHgood].
    destruct (bad a).
    + split; [| discriminate]. intros _. now rewrite Hbad.
    + destruct (Hgood eq_refl) as [b ->]. cbn [res_bind orb].
      split; intros E.
      * now rewrite (IHbad E).
      * destruct (IHgood E) as [bs ->]. now eexists.
Qed.

Lemma nullInside_fields (fields : list (string * Value)) :
  nullInside (VObj fields)
  = existsb (fun kv => isNull (snd kv) || nullInside (snd kv)) fields.
Proof.
  induction fields as [| [k x] rest IH]; [reflexivity |].
  cbn [nullInside existsb snd] in *. now rewrite <- IH.
Qed.

Lemma nullInside_items (items : list Value) :
  nullInside (VArr items)
  = existsb (fun x => isNull x || nullInside x) items.
Proof.
  induction items as [| x rest IH]; [reflexivity |].
  cbn [nullInside existsb] in *. now rewrite <- IH.
Qed.

Lemma plainData_fields (fields : list (string * Value)) :
  plainData (VObj fields) = true ->
  dollar_ref (VObj fields) = None
  /\ forall kv, In kv fields -> plainData (snd kv) = true.
Proof.
  cbn [plainData]. destruct (dollar_ref (VObj fields)); [discriminate |].
  intros H. split; [reflexivity |].
  induction fields as [| [k x] rest IH]; [intros ? [] |].
  apply andb_true_iff in H. destruct H as [Hx Hrest].
  intros kv [<- | Hin]; [exact Hx | now apply IH].
Qed.

Lemma plainData_items (items : list Value) :
  plainData (VArr items) = true ->
  forall x, In x items -> plainData x = true.
Proof.
  cbn [plainData]. intros H.
  induction items as [| x rest IH]; [intros ? [] |].
  apply andb_true_iff in H. destruct H as [Hx Hrest].
  intros y [<- | Hin]; [exact Hx | now apply IH].
Qed.

Section ConvertToFirestoreObject.

Variable collectionDoc : Value -> Value -> Res string.
Variable walkReference : string -> Res unit.

Local Abbreviation convert :=
  (convertToFirestoreObject collectionDoc walkReference).
Local Abbreviation property := (convertProperty collectionDoc convert).
Local Abbreviation element := (convertElement convert).

Lemma convert_fields (fields : list (string * Value)) :
  convert (VObj fields)
  = res_bind
      (forEachRes
         (fun kv => res_bind (property (snd kv))
                      (fun x' => Ok (option_map (pair (fst kv)) x')))
         fields)
      (fun fields' => Ok (VObj (present fields'))).
Proof. reflexivity. Qed.

Lemma convert_items (items : list Value) :
  convert (VArr items)
  = res_bind
      (forEachRes
         (fun x => res_bind (property x)
                     (fun x' => Ok (match x' with
                                    | Some v => v
                                    | None => VUndefined
                                    end)))
         items)
      (fun items' => Ok (VArr items')).
Proof. reflexivity. Qed.

Lemma property_object (fields : list (string * Value)) :
  dollar_ref (VObj fields) = None ->
  property (VObj fields)
  = res_bind (convert (VObj fields)) (fun x' => Ok (Some x')).
Proof. intros E. unfold convertProperty. now rewrite E. Qed.

Lemma property_array (items : list Value) :
  property (VArr items)
  = res_bind (forEachRes element items) (fun items' => Ok (Some (VArr items'))).
Proof. reflexivity. Qed.

Lemma endsOnNull_all :
  forall v, endsOnNull collectionDoc walkReference v.
Proof.
  induction v as [| | b | n | s | t | t | la lo | p | fields IH | items IH]
    using Value_nested_ind; unfold endsOnNull; intros Hplain;
    try discriminate Hplain;
    try (repeat split; intros H; try discriminate H; try reflexivity;
         eexists; reflexivity).
  - (* an object *)
    destruct (plainData_fields fields Hplain) as [Hno Hall].
    rewrite Forall_forall in IH.
    assert (A : (nullInside (VObj fields) = true ->
                 convert (VObj fields) = Err TypeError)
                /\ (nullInside (VObj fields) = false ->
                    exists v', convert (VObj fields) = Ok v')).
    { rewrite nullInside_fields, convert_fields.
      destruct (forEachRes_cases
                  (fun kv => res_bind (property (snd kv))
                               (fun x' => Ok (option_map (pair (fst kv)) x')))
                  (fun kv => isNull (snd kv) || nullInside (snd kv)) fields)
        as [Hbad Hgood].
      { intros kv Hin. destruct (IH kv Hin (Hall kv Hin)) as [_ [[Hb Hg] _]].
        split; intros E.
        - now rewrite (Hb E).
        - destruct (Hg E) as [o ->]. now eexists. }
      split; intros E.
      - now rewrite (Hbad E).
      - destruct (Hgood E) as [bs ->]. now eexists. }
    destruct A as [Abad Agood]. cbn [isUndefined isNull orb].
    rewrite (property_object fields Hno). unfold convertElement.
    repeat split; intros E;
      first [ now rewrite (Abad E)
            | destruct (Agood E) as [v' ->]; now eexists ].
  - (* an array *)
    pose proof (plainData_items items Hplain) as Hall.
    rewrite Forall_forall in IH. cbn [isUndefined isNull orb].
    rewrite nullInside_items, convert_items, property_array.
    destruct (forEachRes_cases
                (fun x => res_bind (property x)
                            (fun x' => Ok (match x' with
                                           | Some v => v
                                           | None => VUndefined
                                           end)))
                (fun x => isNull x || nullInside x) items) as [Pbad Pgood].
    { intros x Hin. destruct (IH x Hin (Hall x Hin)) as [_ [[Hb Hg] _]].
      split; intros E.
      - now rewrite (Hb E).
      - destruct (Hg E) as [o ->]. now eexists. }
    destruct (forEachRes_cases element (fun x => isNull x || nullInside x)
                               items) as [Ebad Egood].
    { intros x Hin. now destruct (IH x Hin (Hall x Hin)) as [_ [_ HE]]. }
    unfold convertElement at 3 4. rewrite convert_items.
    repeat split; intros E;
      first [ now rewrite (Pbad E)
            | now rewrite (Ebad E)
            | destruct (Pgood E) as [bs ->]; now eexists
            | destruct (Egood E) as [bs ->]; now eexists ].
Qed.


End ConvertToFirestoreObject.

(** X3. transformToPlain cannot write a null: on plain data (what
    classToPlain gives holds no DocumentReference and no truthy $ref)
    it ends in a TypeError exactly when a null is the value of a
    property or an element of an array at some depth of the plain
    object (or the plain object itself is null or undefined), because
    convertToFirestoreObject then calls itself on null and Object.keys
    throws; in every other case it returns. *)
Theorem transformToPlain_rejects_null
  (collectionDoc : Value -> Value -> Res string)
  (walkReference : string -> Res unit) (classToPlain : Entity -> Value)
  (entity : Entity) (plain : Value) :
  classToPlain entity = plain ->
  plainData plain = true ->
  (transformToPlain collectionDoc walkReference classToPlain entity
   = Err TypeError
   <-> isUndefined plain || isNull plain || nullInside plain = true)
  /\ (isUndefined plain || isNull plain || nullInside plain = false ->
      exists written,
        transformToPlain collectionDoc walkReference classToPlain entity
        = Ok written).
Proof.
  intros <- Hplain. unfold transformToPlain.
  destruct (endsOnNull_all collectionDoc walkReference (classToPlain entity)
              Hplain) as [[Hbad Hgood] _].
  cbv zeta in Hbad, Hgood.
  split; [split |]; [| exact Hbad | exact Hgood].
  intros E.
  destruct (isUndefined (classToPlain entity) || isNull (classToPlain entity)
            || nullInside (classToPlain entity)); [reflexivity |].
  destruct (Hgood eq_refl) as [v' Ev]. rewrite Ev in E. discriminate.
Qed.

Lemma transformToPlain_rejects_null_witness :
  transformToPlain (fun _ _ => Err InvalidArgument) (fun _ => Ok tt)
                   (fun e => VObj (e_props e))
                   {| e_class := Post;
                      e_props := [("title", VStr "a"); ("subtitle", VNull)] |}
  = Err TypeError.
Proof.
  apply (transformToPlain_rejects_null
           (fun _ _ => Err InvalidArgument) (fun _ => Ok tt)
           (fun e => VObj (e_props e))
           {| e_class := Post;
              e_props := [("title", VStr "a"); ("subtitle", VNull)] |}
           (VObj [("title", VStr "a"); ("subtitle", VNull)]));
    reflexivity.
Defined.

Lemma noUndefinedField_fields (fields : list (string * Value)) :
  noUndefinedField (VObj fields)
  = forallb (fun kv =>
               negb (isUndefined (snd kv))
               && match snd kv with
                  | VArr items => negb (existsb isUndefined items)
                  | _ => true
                  end
               && noUndefinedField (snd kv)) fields.
Proof.
  induction fields as [| [k x] rest IH]; [reflexivity |].
  cbn [noUndefinedField forallb snd] in *. now rewrite <- IH.
Qed.

Lemma noUndefinedField_items (items : list Value) :
  noUndefinedField (VArr items) = forallb noUndefinedField items.
Proof.
  induction items as [| x rest IH]; [reflexivity |].
  cbn [noUndefinedField forallb] in *. now rewrite <- IH.
Qed.

Lemma Forall2_image {A B : Type} (R : A -> B -> Prop) (P : B -> Prop)
  (l : list A) (bs : list B) :
  Forall2 R l bs ->
  (forall a b, In a l -> R a b -> P b) ->
  Forall P bs.
Proof.
  induction 1 as [| a b l bs Hab _ IH]; intros H; constructor.
  - exact (H a b (or_introl eq_refl) Hab).
  - apply IH. intros a' b' Hin. apply H. now right.
Qed.

Lemma present_In {A : Type} (l : list (option A)) (a : A) :
  In a (present l) -> In (Some a) l.
Proof.
  induction l as [| [x |] l IH]; cbn [present]; intros H.
  - destruct H.
  - destruct H as [<- | H]; [now left | right; now apply IH].
  - right. now apply IH.
Qed.

Lemma keepsNoUndefined_all collectionDoc walkReference :
  forall v, keepsNoUndefined collectionDoc walkReference v.
Proof.
  set (convert := convertToFirestoreObject collectionDoc walkReference).
  assert (Hleaf : forall v v', Ok v = Ok v' -> isUndefined v = false ->
                               noUndefinedField v = true ->
                               isUndefined v' = false
                               /\ noUndefinedField v' = true).
  { intros v v' H; injection H as <-. now split. }
  induction v as [| | b | n | s | t | t | la lo | p | fields IH | items IH]
    using Value_nested_ind; unfold keepsNoUndefined; cbv zeta;
    fold convert.
  1-8: (split; [| split]; [intros v' H | intros x' H | intros e' H];
        cbn in H; try discriminate H;
        try (injection H as <-; repeat split; reflexivity)).
  - (* a reference *)
    assert (A : forall v', convert (VRef p) = Ok v' ->
                           isUndefined v' = false
                           /\ noUndefinedField v' = true).
    { intros v' H. cbn in H. destruct (walkReference p); [| discriminate].
      cbn in H. injection H as <-. now split. }
    split; [exact A | split].
    + intros x' H. cbn [convertProperty dollar_ref] in H.
      destruct (convert (VRef p)) as [v' |] eqn:E; [| discriminate].
      cbn in H. injection H as <-. destruct (A v' eq_refl) as [H1 H2].
      repeat split; try assumption.
      cbn in E. destruct (walkReference p); [| discriminate].
      cbn in E. injection E as <-. exact I.
    + intros e' H. cbn [convertElement] in H. now apply A.
  - (* an object *)
    rewrite Forall_forall in IH.
    assert (A : forall v', convert (VObj fields) = Ok v' ->
                           isUndefined v' = false
                           /\ noUndefinedField v' = true
                           /\ exists fields', v' = VObj fields').
    { intros v' H. unfold convert in H. rewrite convert_fields in H.
      fold convert in H.
      destruct (forEachRes _ fields) as [fields' |] eqn:E; [| discriminate].
      cbn [res_bind] in H. injection H as <-.
      split; [reflexivity |]. split; [| now eexists].
      rewrite noUndefinedField_fields, forallb_forall.
      intros [k x'] Hin. apply present_In in Hin.
      apply forEachRes_Forall2 in E.
      assert (F : Forall (fun o => forall k x', o = Some (k, x') ->
                    isUndefined x' = false
                    /\ match x' with
                       | VArr items => existsb isUndefined items = false
                       | _ => True
                       end
                    /\ noUndefinedField x' = true) fields').
      { apply (Forall2_image _ _ _ _ E). intros kv o Hkv Ho k0 x0 ->.
        destruct (convertProperty collectionDoc convert (snd kv))
          as [[y |] |] eqn:Ep; cbn in Ho; try discriminate Ho.
        injection Ho as _ <-.
        destruct (IH kv Hkv) as [_ [HP _]]. cbv zeta in HP. fold convert in HP.
        now apply HP. }
      rewrite Forall_forall in F.
      destruct (F _ Hin k x' eq_refl) as [H1 [H2 H3]]. cbn [snd].
      rewrite H1, H3. destruct x'; try reflexivity. now rewrite H2. }
    split; [| split].
    + intros v' H. destruct (A v' H) as [H1 [H2 _]]. now split.
    + intros x' H. unfold convertProperty in H.
      destruct (dollar_ref (VObj fields)) as [r |].
      * destruct (collectionDoc _ _); [| discriminate].
        cbn in H. injection H as <-. now repeat split.
      * destruct (convert (VObj fields)) as [v' |] eqn:E; [| discriminate].
        cbn in H. injection H as <-.
        destruct (A v' eq_refl) as [H1 [H2 [fields' ->]]]. now repeat split.
    + intros e' H. cbn [convertElement] in H.
      destruct (A e' H) as [H1 [H2 _]]. now split.
  - (* an array *)
    rewrite Forall_forall in IH.
    assert (A : forall v', convert (VArr items) = Ok v' ->
                           isUndefined v' = false
                           /\ noUndefinedField v' = true).
    { intros v' H. unfold convert in H. rewrite convert_items in H.
      fold convert in H.
      destruct (forEachRes _ items) as [items' |] eqn:E; [| discriminate].
      cbn [res_bind] in H. injection H as <-.
      split; [reflexivity |].
      rewrite noUndefinedField_items, forallb_forall.
      apply forEachRes_Forall2 in E.
      apply Forall_forall.
      apply (Forall2_image _ _ _ _ E). intros x y Hx Hy.
      destruct (convertProperty collectionDoc convert x)
        as [[z |] |] eqn:Ep; cbn in Hy; try discriminate Hy;
        injection Hy as <-; [| reflexivity].
      destruct (IH x Hx) as [_ [HP _]]. cbv zeta in HP. fold convert in HP.
      now destruct (HP z Ep) as [_ [_ H3]]. }
    split; [exact A | split].
    + intros x' H. unfold convert in H. rewrite property_array in H.
      fold convert in H.
      destruct (forEachRes _ items) as [items' |] eqn:E; [| discriminate].
      cbn [res_bind] in H. injection H as <-.
      apply forEachRes_Forall2 in E.
      assert (F : Forall (fun e' => isUndefined e' = false
                                    /\ noUndefinedField e' = true) items').
      { apply (Forall2_image _ _ _ _ E). intros x y Hx Hy.
        destruct (IH x Hx) as [_ [_ HE]]. cbv zeta in HE. fold convert in HE.
        now apply HE. }
      rewrite Forall_forall in F.
      split; [reflexivity |]. split.
      * destruct (existsb isUndefined items') eqn:Ex; [| reflexivity].
        apply existsb_exists in Ex. destruct Ex as [y [Hy Hu]].
        destruct (F y Hy) as [Hn _]. congruence.
      * rewrite noUndefinedField_items, forallb_forall.
        intros y Hy. now destruct (F y Hy).
    + intros e' H. cbn [convertElement] in H. now apply A.
Qed.

(** X4. What convertToFirestoreObject returns holds no undefined where
    the store refuses one: whenever the call returns, no object of the
    result, at any depth, has a property whose value is undefined (the
    key was deleted), and no array that is the value of a property has
    an undefined element (it was replaced by null). *)
Theorem convertToFirestoreObject_leaves_no_undefined
  (collectionDoc : Value -> Value -> Res string)
  (walkReference : string -> Res unit) (obj written : Value) :
  convertToFirestoreObject collectionDoc walkReference obj = Ok written ->
  noUndefinedField written = true.
Proof.
  intros H.
  destruct (keepsNoUndefined_all collectionDoc walkReference obj) as [A _].
  now destruct (A written H).
Qed.

Lemma convertToFirestoreObject_leaves_no_undefined_witness :
  noUndefinedField
    (VObj [("title", VStr "a"); ("tags", VArr [VStr "x"; VNull])]) = true.
Proof.
  apply (convertToFirestoreObject_leaves_no_undefined
           (fun _ _ => Err InvalidArgument) (fun _ => Ok tt)
           (VObj [("title", VStr "a"); ("draft", VUndefined);
                  ("tags", VArr [VStr "x"; VUndefined])])).
  reflexivity.
Defined.

Lemma refObject_as_object collectionDoc walkReference (path id : string) :
  convertToFirestoreObject collectionDoc walkReference (refObject path id)
  = Ok (refObject path id).
Proof. reflexivity. Qed.

Lemma refObjects_as_elements collectionDoc walkReference
  (refs : list (string * string)) :
  forEachRes
    (convertElement (convertToFirestoreObject collectionDoc walkReference))
    (map (fun r => refObject (fst r) (snd r)) refs)
  = Ok (map (fun r => refObject (fst r) (snd r)) refs).
Proof.
  induction refs as [| [path id] refs IH]; [reflexivity |].
  cbn [map forEachRes fst snd]. rewrite IH.
  unfold convertElement, refObject at 1.
  fold (refObject path id). rewrite refObject_as_object. reflexivity.
Qed.

(** X5. convertToFirestoreObject turns the plain form of a reference,
    { $ref: { id, path } }, into the DocumentReference
    collection(path).doc(id) only where it is the value of a property.
    Inside an array that is the value of a property the elements are
    not tested for $ref: an array of such plain references is returned
    as it came, whatever its length, with no call of the client. *)
Theorem references_in_arrays_are_not_converted
  (collectionDoc : Value -> Value -> Res string)
  (walkReference : string -> Res unit)
  (key path id : string) (refs : list (string * string)) :
  convertToFirestoreObject collectionDoc walkReference
    (VObj [(key, refObject path id)])
  = res_bind (collectionDoc (VStr path) (VStr id))
      (fun p => Ok (VObj [(key, VRef p)]))
  /\ convertToFirestoreObject collectionDoc walkReference
       (VObj [(key, VArr (map (fun r => refObject (fst r) (snd r)) refs))])
     = Ok (VObj [(key, VArr (map (fun r => refObject (fst r) (snd r)) refs))]).
Proof.
  split.
  - cbn. destruct (collectionDoc (VStr path) (VStr id)); reflexivity.
  - rewrite convert_fields. cbn [forEachRes snd fst].
    rewrite property_array, refObjects_as_elements. reflexivity.
Qed.
(** ** The reads of loadRelations *)

Lemma loadRelation_reads ms fs target cp idp index d st r req :
  In req (trace (loadRelation ms fs cp idp (relationArgs ms target) index
                              (docData idp d) st r)) ->
  relationRead ms target cp idp d r req.
Proof.
  destruct st as [m cache]. unfold loadRelation, relationRead.
  destruct (List.find _ (relationArgs ms target)) as [arg |];
    [| intros []].
  intros H. exists arg. split; [reflexivity |]. revert H.
  destruct (r_relationType arg).
  - (* one-to-many *)
    destruct (call_fn (r_type arg)) as [c |] eqn:Ec; mstep; [| intros []].
    destruct (getCollectionPath ms c) as [rp |] eqn:Ep; mstep; [| intros []].
    destruct (assignRow _ _ _ _) as [m2 |]; mstep; [| intros []].
    destruct (assoc_get _ cache); mstep; [intros [] |].
    intros [<- | []]. exists c, rp. split; [reflexivity |].
    split; [assumption |].
    unfold docData, obj_get, obj_set. rewrite assoc_get_set_same.
    reflexivity.
  - (* many-to-one *)
    unfold dot_pick.
    destruct (obj_get r (docData idp d)) as [v |]; [| intros []].
    destruct v; try (intros []).
    destruct (assignRow _ _ _ _) as [m2 |]; mstep; [| intros []].
    destruct (assoc_get _ cache); mstep; [intros [] |].
    intros [<- | []]. exists path. split; reflexivity.
  - intros [].
Qed.

Lemma loadNames_reads ms fs target cp idp index d names :
  forall st req,
    In req (trace (foldM (loadRelation ms fs cp idp (relationArgs ms target)
                                       index (docData idp d)) st names)) ->
    exists r, In r names /\ relationRead ms target cp idp d r req.
Proof.
  induction names as [| r names IH]; intros st req; cbn [foldM].
  - intros [].
  - rewrite trace_bind.
    destruct (outcome (loadRelation ms fs cp idp (relationArgs ms target)
                                    index (docData idp d) st r)) as [st' |].
    + rewrite in_app_iff. intros [H | H].
      * exists r. split; [now left |]. eapply loadRelation_reads; eassumption.
      * destruct (IH st' req H) as [r' [Hin Hr]]. exists r'. split; [now right | assumption].
    + intros H. exists r. split; [now left |].
      eapply loadRelation_reads; eassumption.
Qed.

Lemma loadDoc_reads ms fs target cp idp relationNames index doc st req :
  In req (trace (loadDoc ms fs target cp idp relationNames index doc st)) ->
  exists d r, doc = Some d /\ In r (namesOf relationNames)
              /\ relationRead ms target cp idp d r req.
Proof.
  unfold loadDoc. destruct doc as [d |]; [| intros []].
  destruct relationNames as [[| r0 names] |]; try (intros []).
  rewrite trace_bind. fold (relationArgs ms target). fold (docData idp d).
  intros H.
  assert (H' : In req (trace (foldM (loadRelation ms fs cp idp
                                       (relationArgs ms target) index
                                       (docData idp d)) st (r0 :: names)))).
  { destruct (outcome (foldM _ st (r0 :: names))); [| exact H].
    mstep. now rewrite app_nil_r in H. }
  destruct (loadNames_reads _ _ _ _ _ _ _ _ _ _ H') as [r [Hin Hr]].
  exists d, r. now repeat split.
Qed.

Lemma loadDocs_reads ms fs target cp idp relationNames docs :
  forall index st req,
    In req (trace (loadDocs ms fs target cp idp relationNames index docs st)) ->
    exists d r, In (Some d) docs /\ In r (namesOf relationNames)
                /\ relationRead ms target cp idp d r req.
Proof.
  induction docs as [| doc docs IH]; intros index st req; cbn [loadDocs].
  - intros [].
  - rewrite trace_bind.
    assert (Hdoc : In req (trace (loadDoc ms fs target cp idp relationNames
                                          index doc st)) ->
                   exists d r, In (Some d) (doc :: docs)
                               /\ In r (namesOf relationNames)
                               /\ relationRead ms target cp idp d r req).
    { intros H. destruct (loadDoc_reads _ _ _ _ _ _ _ _ _ _ H)
        as [d [r [-> [Hin Hr]]]].
      exists d, r. repeat split; [now left | assumption | assumption]. }
    destruct (outcome (loadDoc ms fs target cp idp relationNames index doc st))
      as [r1 |]; [| exact Hdoc].
    rewrite in_app_iff. intros [H | H]; [now apply Hdoc |].
    rewrite trace_bind in H.
    assert (H' : In req (trace (loadDocs ms fs target cp idp relationNames
                                         (S index) docs (snd r1)))).
    { destruct (outcome (loadDocs _ _ _ _ _ _ (S index) docs (snd r1)));
        [| exact H].
      mstep. now rewrite app_nil_r in H. }
    destruct (IH _ _ _ H') as [d [r [Hd [Hin Hr]]]].
    exists d, r. repeat split; [now right | assumption | assumption].
Qed.

Lemma relation_reads_have_a_fixed_shape_aux ms fs target docs relationNames
  idp cp req :
  getIdPropName ms target = Ok idp ->
  getCollectionPath ms target = Ok cp ->
  In req (trace (loadRelations ms fs target docs relationNames)) ->
  exists d r,
    In (Some d) docs /\ In r (namesOf relationNames)
    /\ relationRead ms target cp idp d r req.
Proof.
  intros Eid Ecp.
  destruct (loadRelations_eq ms fs target docs relationNames) as [-> _].
  rewrite Eid, Ecp. apply loadDocs_reads.
Qed.

(** X6. loadRelations reads nothing but relations: every read it issues
    is, for one of the documents and one of the requested relation
    names declared for the class, either the get of the reference held
    in the field of a many-to-one relation, or the query of a
    one-to-many relation on the collection of the related class, which
    asks for the documents whose inverse side equals the reference
    collectionPath/id built from the registered collection of the class
    and the id of the document, whatever the path the document was
    retrieved at. *)
Theorem relation_reads_have_a_fixed_shape
  (ms : MetadataStorage) (fs : Firestore) (target : JsFunction)
  (docs : list (option DocumentSnapshot))
  (relationNames : option (list string)) (idp cp : string) (req : Request) :
  getIdPropName ms target = Ok idp ->
  getCollectionPath ms target = Ok cp ->
  In req (trace (loadRelations ms fs target docs relationNames)) ->
  exists d r,
    In (Some d) docs /\ In r (namesOf relationNames)
    /\ relationRead ms target cp idp d r req.
Proof.
  apply relation_reads_have_a_fixed_shape_aux.
Qed.

(** ** The reads of the query methods *)

Lemma loadRelations_no_docs ms fs target names :
  trace (loadRelations ms fs target [] names) = [].
Proof.
  destruct (loadRelations_eq ms fs target [] names) as [-> _].
  destruct (getIdPropName ms target); [| reflexivity].
  destruct (getCollectionPath ms target); reflexivity.
Qed.

Lemma runQuery_read fs opts q :
  runQuery fs opts q = ([queryRead opts q], Ok (queryDocs fs opts q)).
Proof. unfold runQuery, queryRead, queryDocs. now destruct (tnx opts). Qed.

Lemma runGetAll_read fs opts docRefs :
  runGetAll fs opts docRefs = ([allRead opts docRefs], Ok (allDocs fs opts docRefs)).
Proof. unfold runGetAll, allRead, allDocs. now destruct (tnx opts). Qed.

Lemma find_reads ms fs opts target ooc q :
  findQuery ms opts target ooc = Ok q ->
  trace (find ms fs opts target ooc)
  = queryRead opts q
    :: trace (loadRelations ms fs target (map Some (queryDocs fs opts q))
                            (relationsOf ooc)).
Proof.
  intros Eq. destruct (find_eq ms fs opts target ooc q Eq) as [_ ->].
  now rewrite runQuery_read.
Qed.

Lemma findOne_reads ms fs opts target ooc q :
  findOneQuery ms opts target ooc = Ok q ->
  exists docs names,
    trace (findOne ms fs opts target ooc)
    = queryRead opts (q_add q (SLimit 1))
      :: trace (loadRelations ms fs target docs names).
Proof.
  intros Eq. unfold findOne. rewrite Eq, trace_bind.
  cbn [lift outcome trace fst snd app].
  rewrite trace_bind, runQuery_read. cbn [outcome trace fst snd app].
  destruct (queryDocs fs opts (q_add q (SLimit 1))) as [| doc0 docs].
  - exists [], None. mstep. now rewrite loadRelations_no_docs.
  - destruct (negb (ds_exists doc0)).
    + exists [], None. mstep. now rewrite loadRelations_no_docs.
    + exists (map Some (doc0 :: docs)), (relationsOf ooc).
      rewrite trace_bind.
      destruct (outcome (loadRelations ms fs target (map Some (doc0 :: docs))
                                       (relationsOf ooc)));
        mstep; now rewrite ?app_nil_r.
Qed.

Lemma findByIds_reads ms fs opts target idOrIds fo :
  trace (findByIds ms fs opts target idOrIds fo) = []
  \/ exists docRefs docs names,
       trace (findByIds ms fs opts target idOrIds fo)
       = allRead opts docRefs
         :: trace (loadRelations ms fs target docs names).
Proof.
  unfold findByIds.
  destruct (truthy_val (collectionId opts)); [now left |].
  rewrite trace_bind. mstep.
  destruct (match truthy_val (parentPath opts) with
            | Some p => Ok p
            | None => getCollectionPath ms target
            end) as [cp | e]; [| now left].
  right. cbn [app]. rewrite trace_bind, runGetAll_read.
  cbn [outcome trace fst snd app].
  set (docRefs := map _ _).
  set (snaps := map _ (allDocs fs opts docRefs)).
  exists docRefs.
  destruct idOrIds.
  - destruct snaps as [| s snaps].
    + exists [], None. mstep. now rewrite loadRelations_no_docs.
    + exists (s :: snaps), (optionRelations fo). rewrite trace_bind.
      destruct (outcome (loadRelations ms fs target (s :: snaps)
                                       (optionRelations fo)));
        mstep; now rewrite ?app_nil_r.
  - exists snaps, (optionRelations fo). rewrite trace_bind.
    destruct (outcome (loadRelations ms fs target snaps (optionRelations fo)));
      mstep; now rewrite ?app_nil_r.
Qed.

Lemma loadRelations_outside ms fs target docs names :
  Forall (fun r => isTxRead r = false)
         (trace (loadRelations ms fs target docs names)).
Proof.
  apply Forall_forall. intros req.
  destruct (loadRelations_eq ms fs target docs names) as [-> _].
  destruct (getIdPropName ms target) as [idp |]; [| intros []].
  destruct (getCollectionPath ms target) as [cp |]; [| intros []].
  intros H. apply loadDocs_reads in H.
  destruct H as [d [r [_ [_ [arg [_ H]]]]]].
  destruct (r_relationType arg).
  - destruct H as [c [rp [_ [_ ->]]]]. reflexivity.
  - destruct H as [p [_ ->]]. reflexivity.
  - destruct H.
Qed.

(** X7. With a transaction in the options only the retrieval goes
    through it.  find and findOne issue their query with tnx.get and
    findByIds its references with tnx.getAll, as their first read;
    every read after it, that is every relation read of loadRelations,
    is issued on the client outside the transaction, and so is the read
    of the cursor document that findByToken starts with. *)
Theorem relation_reads_bypass_the_transaction
  (ms : MetadataStorage) (fs : Firestore) (opts : CollectionQueryOption)
  (target : JsFunction) (t : Transaction) :
  tnx opts = Some t ->
  (forall docs names,
     Forall (fun r => isTxRead r = false)
            (trace (loadRelations ms fs target docs names)))
  /\ (forall ooc q,
        findQuery ms opts target ooc = Ok q ->
        exists rest,
          trace (find ms fs opts target ooc) = ReqTxGet q :: rest
          /\ Forall (fun r => isTxRead r = false) rest)
  /\ (forall ooc q,
        findOneQuery ms opts target ooc = Ok q ->
        exists rest,
          trace (findOne ms fs opts target ooc)
          = ReqTxGet (q_add q (SLimit 1)) :: rest
          /\ Forall (fun r => isTxRead r = false) rest)
  /\ (forall idOrIds fo,
        trace (findByIds ms fs opts target idOrIds fo) = []
        \/ exists docRefs rest,
             trace (findByIds ms fs opts target idOrIds fo)
             = ReqTxGetAll docRefs :: rest
             /\ Forall (fun r => isTxRead r = false) rest)
  /\ (forall token r,
        hd_error (trace (findByToken ms fs opts target token)) = Some r ->
        isTxRead r = false).
Proof.
  intros Ht.
  assert (Eq : forall q, queryRead opts q = ReqTxGet q)
    by (intros q; unfold queryRead; now rewrite Ht).
  assert (Ea : forall l, allRead opts l = ReqTxGetAll l)
    by (intros l; unfold allRead; now rewrite Ht).
  split; [intros; apply loadRelations_outside |].
  split; [| split; [| split]].
  - intros ooc q Hq. rewrite (find_reads ms fs opts target ooc q Hq), Eq.
    eexists. split; [reflexivity | apply loadRelations_outside].
  - intros ooc q Hq.
    destruct (findOne_reads ms fs opts target ooc q Hq) as [docs [names ->]].
    rewrite Eq. eexists. split; [reflexivity | apply loadRelations_outside].
  - intros idOrIds fo.
    destruct (findByIds_reads ms fs opts target idOrIds fo)
      as [E | [docRefs [docs [names E]]]]; [now left | right].
    rewrite E, Ea. eexists _, _.
    split; [reflexivity | apply loadRelations_outside].
  - intros token r.
    pose proof (findByToken_eq ms fs opts target token) as H.
    destruct (jwt_verify token "fireorm") as [tokenObj |];
      [| rewrite H; discriminate].
    destruct (truthy (tk_lastDocumentId tokenObj));
      [| rewrite H; discriminate].
    destruct (getDocumentRef ms target (tk_lastDocumentId tokenObj))
      as [path |]; [| rewrite H; discriminate].
    destruct (ds_exists (fs_getDoc fs path)).
    + destruct H as [-> _]. cbn. intros E; injection E as <-. reflexivity.
    + rewrite H. cbn. intros E; injection E as <-. reflexivity.
Qed.

(** ** Relation names that are not loaded *)

Lemma loadRelation_ignored ms fs target cp idp index data st r :
  pushes ms target r = false ->
  loadRelation ms fs cp idp (relationArgs ms target) index data st r = ret st.
Proof.
  unfold pushes, loadRelation. destruct st as [m cache].
  destruct (List.find _ (relationArgs ms target)) as [arg |]; [| reflexivity].
  destruct (r_relationType arg); try discriminate. reflexivity.
Qed.

Lemma loadNames_ignored ms fs target cp idp index data names :
  forall st,
    (forall r, In r names -> pushes ms target r = false) ->
    foldM (loadRelation ms fs cp idp (relationArgs ms target) index data)
          st names = ret st.
Proof.
  induction names as [| r names IH]; intros st H; [reflexivity |].
  cbn [foldM]. rewrite loadRelation_ignored by (apply H; now left).
  cbn [bind ret]. rewrite IH by (intros r' Hr; apply H; now right).
  reflexivity.
Qed.

Lemma loadDoc_ignored ms fs target cp idp relationNames index doc st :
  (forall r, In r (namesOf relationNames) -> pushes ms target r = false) ->
  loadDoc ms fs target cp idp relationNames index doc st
  = ret (option_map (docData idp) doc, st).
Proof.
  intros H. unfold loadDoc. destruct doc as [d |]; [| reflexivity].
  destruct relationNames as [[| r0 names] |]; try reflexivity.
  fold (relationArgs ms target).
  rewrite loadNames_ignored by exact H. reflexivity.
Qed.

Lemma loadDocs_ignored ms fs target cp idp relationNames docs :
  (forall r, In r (namesOf relationNames) -> pushes ms target r = false) ->
  forall index st,
    loadDocs ms fs target cp idp relationNames index docs st
    = ret (map (option_map (docData idp)) docs, st).
Proof.
  intros H. induction docs as [| doc docs IH]; intros index st;
    [reflexivity |].
  cbn [loadDocs]. rewrite loadDoc_ignored by exact H.
  cbn [bind ret fst snd]. rewrite IH. reflexivity.
Qed.

Lemma loadRelations_ignored ms fs target docs relationNames :
  (forall r, In r (namesOf relationNames) -> pushes ms target r = false) ->
  loadRelations ms fs target docs relationNames
  = match getIdPropName ms target, getCollectionPath ms target with
    | Ok idp, Ok _ =>
        ([], Ok (map (option_map (plainEntity target idp)) docs))
    | Err e, _ => ([], Err e)
    | Ok _, Err e => ([], Err e)
    end.
Proof.
  intros H. unfold loadRelations.
  destruct (getIdPropName ms target) as [idp | e]; [| reflexivity].
  destruct (getCollectionPath ms target) as [cp | e]; [| reflexivity].
  cbn [lift bind app]. rewrite loadDocs_ignored by exact H.
  cbn [bind ret fst snd app spliceRelations]. rewrite map_map.
  do 2 f_equal. apply map_ext. now intros [d |].
Qed.

Lemma findQuery_withRelations ms opts target o rels :
  findQuery ms opts target (Some (OOptions (withRelations o rels)))
  = findQuery ms opts target (Some (OOptions o)).
Proof. reflexivity. Qed.

(** X8. A requested relation name that is not declared for the class,
    or is declared one-to-one, is skipped without a read and without an
    error: when every requested name is of that kind, loadRelations
    does what it does with no relation requested, and find returns what
    it returns for the same options without relations. *)
Theorem undeclared_relations_are_skipped
  (ms : MetadataStorage) (fs : Firestore) (opts : CollectionQueryOption)
  (target : JsFunction) (names : list string) :
  (forall r, In r names -> pushes ms target r = false) ->
  (forall docs,
     loadRelations ms fs target docs (Some names)
     = loadRelations ms fs target docs None)
  /\ (forall o,
        find ms fs opts target (Some (OOptions (withRelations o (Some names))))
        = find ms fs opts target (Some (OOptions (withRelations o None)))).
Proof.
  intros H.
  assert (L : forall docs,
             loadRelations ms fs target docs (Some names)
             = loadRelations ms fs target docs (Some [])).
  { intros docs. rewrite !loadRelations_ignored; [reflexivity | | exact H].
    intros r []. }
  assert (N : forall docs,
             loadRelations ms fs target docs None
             = loadRelations ms fs target docs (Some [])).
  { intros docs. rewrite !loadRelations_ignored; [reflexivity | |];
      intros r []. }
  split.
  - intros docs. now rewrite L, N.
  - intros o. unfold find. rewrite !findQuery_withRelations.
    destruct (findQuery ms opts target (Some (OOptions o))) as [q | e];
      [| reflexivity].
    cbn [lift bind]. rewrite !runQuery_read. cbn [bind relationsOf withRelations o_relations].
    now rewrite L.
Qed.

(** ** Where the query methods fail *)

Lemma no_idProp ms target :
  ~ hasIdProp ms target -> getIdPropName ms target = Err IdPerpertyNotFound.
Proof.
  intros H. unfold getIdPropName.
  destruct (getIdProp_spec ms target) as [[_ ->] | [p [Hin [Ht _]]]];
    [reflexivity |].
  exfalso. apply H. now exists p.
Qed.

Lemma has_idProp ms target :
  hasIdProp ms target -> exists idp, getIdPropName ms target = Ok idp.
Proof.
  intros H. unfold getIdPropName.
  destruct (getIdProp_spec ms target) as [[Hn _] | [p [_ [_ ->]]]];
    [contradiction | now eexists].
Qed.

Lemma loadRelations_unregistered ms fs target docs names :
  (~ hasIdProp ms target ->
   loadRelations ms fs target docs names = ([], Err IdPerpertyNotFound))
  /\ (forall e, hasIdProp ms target -> getCollectionPath ms target = Err e ->
                loadRelations ms fs target docs names = ([], Err e)).
Proof.
  split.
  - intros H. unfold loadRelations. now rewrite (no_idProp ms target H).
  - intros e Hid H. unfold loadRelations.
    destruct (has_idProp ms target Hid) as [idp ->]. now rewrite H.
Qed.

Lemma find_as_pair ms fs opts target ooc q :
  findQuery ms opts target ooc = Ok q ->
  find ms fs opts target ooc
  = (queryRead opts q
       :: trace (loadRelations ms fs target (map Some (queryDocs fs opts q))
                               (relationsOf ooc)),
     outcome (loadRelations ms fs target (map Some (queryDocs fs opts q))
                            (relationsOf ooc))).
Proof.
  intros Eq. rewrite (M_eta (find ms fs opts target ooc)).
  rewrite (find_reads ms fs opts target ooc q Eq).
  now destruct (find_eq ms fs opts target ooc q Eq) as [-> _].
Qed.

(** X9. When find fails on the registry it fails either before or just
    after its one retrieval read.  If the query cannot be built (a
    collection path is not found, a condition cannot be read) find
    rejects without a read.  If the query can be built, the id property
    and the collection path of the class are looked up only after the
    documents were retrieved, also when the query runs on a
    collectionId or a parentPath and even when no document came back:
    with no id property registered find rejects with IdPerpertyNotFound
    after the read, and with an id property registered an error of the
    lookup of the collection path is the error of find, after the
    read. *)
Theorem find_fails_before_or_after_its_read
  (ms : MetadataStorage) (fs : Firestore) (opts : CollectionQueryOption)
  (target : JsFunction) (ooc : option OptionsOrConditions) :
  (forall e, findQuery ms opts target ooc = Err e ->
             find ms fs opts target ooc = ([], Err e))
  /\ (forall q, findQuery ms opts target ooc = Ok q ->
                ~ hasIdProp ms target ->
                find ms fs opts target ooc
                = ([queryRead opts q], Err IdPerpertyNotFound))
  /\ (forall q e, findQuery ms opts target ooc = Ok q ->
                  hasIdProp ms target ->
                  getCollectionPath ms target = Err e ->
                  find ms fs opts target ooc = ([queryRead opts q], Err e)).
Proof.
  split; [apply find_err |].
  split.
  - intros q Eq H. rewrite (find_as_pair ms fs opts target ooc q Eq).
    now rewrite (proj1 (loadRelations_unregistered ms fs target
                          (map Some (queryDocs fs opts q)) (relationsOf ooc))
                       H).
  - intros q e Eq Hid H. rewrite (find_as_pair ms fs opts target ooc q Eq).
    now rewrite (proj2 (loadRelations_unregistered ms fs target
                          (map Some (queryDocs fs opts q)) (relationsOf ooc))
                       e Hid H).
Qed.

(** X10. findOne looks the id property up only when a document was
    found.  For a class with a collection but no id property
    registered, findOne issues its one read and resolves to undefined
    when the query brings no document (or one that does not exist), and
    rejects with IdPerpertyNotFound when it brings one. *)
Theorem findOne_without_id_property
  (ms : MetadataStorage) (fs : Firestore) (opts : CollectionQueryOption)
  (target : JsFunction) (ooc : option OptionsOrConditions) (q : Query) :
  findOneQuery ms opts target ooc = Ok q ->
  ~ hasIdProp ms target ->
  findOne ms fs opts target ooc
  = ([queryRead opts (q_add q (SLimit 1))],
     match queryDocs fs opts (q_add q (SLimit 1)) with
     | [] => Ok JUndefined
     | d :: _ =>
         if ds_exists d then Err IdPerpertyNotFound else Ok JUndefined
     end).
Proof.
  intros Eq H. unfold findOne. rewrite Eq. cbn [lift bind].
  rewrite runQuery_read. cbn [bind app].
  destruct (queryDocs fs opts (q_add q (SLimit 1))) as [| d docs];
    [reflexivity |].
  destruct (ds_exists d); [| reflexivity]. cbn [negb].
  now rewrite (proj1 (loadRelations_unregistered ms fs target
                        (map Some (d :: docs)) (relationsOf ooc)) H).
Qed.

Lemma findOne_without_id_property_witness :
  findOne noIdStorage (memFirestore blogStore) noOptions Post None
  = ([ReqQueryGet {| q_source := QCollection "posts";
                     q_steps := [SLimit 1] |}],
     Err IdPerpertyNotFound).
Proof.
  apply (findOne_without_id_property noIdStorage (memFirestore blogStore)
           noOptions Post None
           {| q_source := QCollection "posts"; q_steps := [] |}).
  - reflexivity.
  - intros [p [[] _]].
Defined.

(** ** Entities without relations *)

Lemma entity_id target idp d :
  entity_prop (plainEntity target idp d) idp = VStr (ds_id d).
Proof.
  unfold entity_prop, plainEntity, transformToClass. cbn [e_props].
  rewrite obj_get_convert. unfold docData, obj_get, obj_set.
  now rewrite assoc_get_set_same.
Qed.

(** X11. What find returns when no relation is loaded (none requested,
    or only names that are skipped): after its one read, one entity of
    the class for each document the query brought, in the order of the
    documents, whose properties are the converted data of the document
    with the id property set to the id of the document, whatever the
    data held under that name. *)
Theorem find_without_relations
  (ms : MetadataStorage) (fs : Firestore) (opts : CollectionQueryOption)
  (target : JsFunction) (ooc : option OptionsOrConditions) (q : Query)
  (idp cp : string) :
  findQuery ms opts target ooc = Ok q ->
  getIdPropName ms target = Ok idp ->
  getCollectionPath ms target = Ok cp ->
  (forall r, In r (namesOf (relationsOf ooc)) -> pushes ms target r = false) ->
  find ms fs opts target ooc
  = ([queryRead opts q],
     Ok (map (fun d => Some (plainEntity target idp d)) (queryDocs fs opts q)))
  /\ forall d,
       e_class (plainEntity target idp d) = target
       /\ e_props (plainEntity target idp d)
          = convertToJsObject (obj_set idp (VStr (ds_id d)) (ds_spread d))
       /\ entity_prop (plainEntity target idp d) idp = VStr (ds_id d).
Proof.
  intros Eq Eid Ecp Hnames. split.
  - rewrite (find_as_pair ms fs opts target ooc q Eq).
    rewrite loadRelations_ignored by exact Hnames. rewrite Eid, Ecp.
    cbn [trace outcome fst snd]. now rewrite map_map.
  - intros d. repeat split. apply entity_id.
Qed.

Lemma find_without_relations_witness :
  find blogStorage (memFirestore blogStore) noOptions Post None
  = ([ReqQueryGet {| q_source := QCollection "posts"; q_steps := [] |}],
     Ok [Some {| e_class := Post;
                 e_props := [("title", VStr "a"); ("author", VStr "u1");
                             ("id", VStr "p1")] |};
         Some {| e_class := Post;
                 e_props := [("title", VStr "b"); ("author", VStr "u1");
                             ("id", VStr "p2")] |}]).
Proof.
  apply (find_without_relations blogStorage (memFirestore blogStore)
           noOptions Post None
           {| q_source := QCollection "posts"; q_steps := [] |} "id" "posts").
  - reflexivity.
  - reflexivity.
  - reflexivity.
  - intros r [].
Defined.

(** ** findByIds *)

Lemma findByIds_as_pair ms fs opts target idOrIds fo cp :
  truthy_val (collectionId opts) = None ->
  byIdsPath ms opts target = Ok cp ->
  findByIds ms fs opts target idOrIds fo
  = let ids := match idOrIds with
               | ManyIds ids => ids
               | OneId id => [id]
               end in
    let docRefs := map (fun id => (cp ++ "/" ++ id)%string) ids in
    let filterSnapShot :=
      map (fun v => if ds_exists v then Some v else None)
          (allDocs fs opts docRefs) in
    let rest :=
      match idOrIds with
      | ManyIds _ =>
          entities <- loadRelations ms fs target filterSnapShot
                                    (optionRelations fo) ;;
          ret (ByIdsMany entities)
      | OneId _ =>
          match filterSnapShot with
          | [] => ret (ByIdsOne JUndefined)
          | _ :: _ =>
              entities <- loadRelations ms fs target filterSnapShot
                                        (optionRelations fo) ;;
              ret (ByIdsOne (first_of entities))
          end
      end in
    (allRead opts docRefs :: trace rest, outcome rest).
Proof.
  intros Hcid Hcp. unfold findByIds, byIdsPath in *. rewrite Hcid, Hcp.
  unfold lift. rewrite (bind_ok ([], Ok cp) _ [] cp eq_refl).
  rewrite !(bind_ok _ _ _ _ (runGetAll_read fs opts _)).
  reflexivity.
Qed.



Lemma loadRelations_missing ms fs target names idp cp :
  getIdPropName ms target = Ok idp ->
  getCollectionPath ms target = Ok cp ->
  loadRelations ms fs target [None] names = ([], Ok [None]).
Proof.
  intros Eid Ecp. unfold loadRelations. now rewrite Eid, Ecp.
Qed.

(** X13. findByIds on a single id resolves to null, not to undefined,
    when the document does not exist, whatever relations are requested:
    the one snapshot the client answers is mapped to null and
    loadRelations passes it on.  When the document exists and no
    relation is loaded it resolves to the entity of the snapshot. *)
Theorem findByIds_of_a_missing_id_is_null
  (ms : MetadataStorage) (fs : Firestore) (opts : CollectionQueryOption)
  (target : JsFunction) (id : string) (fo : option FindOptions)
  (cp idp classPath : string) (d : DocumentSnapshot) :
  truthy_val (collectionId opts) = None ->
  byIdsPath ms opts target = Ok cp ->
  getIdPropName ms target = Ok idp ->
  getCollectionPath ms target = Ok classPath ->
  allDocs fs opts [(cp ++ "/" ++ id)%string] = [d] ->
  (ds_exists d = false ->
   findByIds ms fs opts target (OneId id) fo
   = ([allRead opts [(cp ++ "/" ++ id)%string]], Ok (ByIdsOne JNull)))
  /\ (ds_exists d = true ->
      (forall r, In r (namesOf (optionRelations fo)) ->
                 pushes ms target r = false) ->
      findByIds ms fs opts target (OneId id) fo
      = ([allRead opts [(cp ++ "/" ++ id)%string]],
         Ok (ByIdsOne (JSome (plainEntity target idp d))))).
Proof.
  intros Hcid Hcp Eid Ecp Hd.
  rewrite (findByIds_as_pair ms fs opts target (OneId id) fo cp Hcid Hcp).
  cbv zeta. cbn [map]. rewrite Hd. cbn [map]. split.
  - intros ->.
    rewrite (loadRelations_missing ms fs target _ idp classPath Eid Ecp).
    reflexivity.
  - intros -> Hnames. rewrite loadRelations_ignored by exact Hnames.
    now rewrite Eid, Ecp.
Qed.

Lemma findByIds_of_a_missing_id_is_null_witness :
  findByIds blogStorage (memFirestore blogStore) noOptions Post
            (OneId "zz") (Some (relationsOnly ["comments"]))
  = ([ReqGetAll ["posts/zz"]], Ok (ByIdsOne JNull)).
Proof.
  apply (findByIds_of_a_missing_id_is_null
           blogStorage (memFirestore blogStore) noOptions Post "zz"
           (Some (relationsOnly ["comments"])) "posts" "id" "posts"
           {| ds_path := "posts/zz"; ds_data := None |}).
  - reflexivity.
  - reflexivity.
  - reflexivity.
  - reflexivity.
  - reflexivity.
  - reflexivity.
Defined.

(** ** Conditions *)

Lemma plainCondition_cases (f : string) (v : Value) (q : Query) :
  (nullish v = true -> plainCondition f v q = Err TypeError)
  /\ (nullish v = false -> exists q', plainCondition f v q = Ok q').
Proof.
  unfold plainCondition.
  destruct v; cbn [nullish get_prop res_bind]; split; intros H;
    try discriminate H; try reflexivity;
    try (cbn [truthy]; now eexists).
  destruct (truthy _); now eexists.
Qed.

Lemma plain_conditions_null (w : Obj) (f : string) (v : Value) :
  In (f, v) w -> nullish v = true ->
  forall q,
    foldRes (fun q c => plainCondition (fst c) (snd c) q) q w = Err TypeError.
Proof.
  intros Hin Hv. induction w as [| [f0 v0] w IH]; [destruct Hin |].
  intros q. cbn [foldRes fst snd].
  destruct (plainCondition_cases f0 v0 q) as [Hbad Hgood].
  destruct (nullish v0) eqn:E.
  - now rewrite (Hbad eq_refl).
  - destruct (Hgood eq_refl) as [q' ->]. cbn [res_bind].
    destruct Hin as [Heq | Hin]; [| now apply IH].
    injection Heq as -> ->. congruence.
Qed.

(** X14. A condition whose value is null or undefined on a field that
    is not a relation makes find and findOne reject with a TypeError
    before any read: both read [value.type] off the condition value.
    (The conditions are all on fields that are not declared relations of
    the class, and the starting query can be built.) *)
Theorem null_condition_is_a_TypeError
  (ms : MetadataStorage) (fs : Firestore) (opts : CollectionQueryOption)
  (target : JsFunction) (w : Obj) (f : string) (v : Value) (q0 : Query) :
  getQuery ms opts target = Ok q0 ->
  noRelationCondition ms target w ->
  In (f, v) w ->
  nullish v = true ->
  find ms fs opts target (Some (OConditions w)) = ([], Err TypeError)
  /\ findOne ms fs opts target (Some (OConditions w)) = ([], Err TypeError).
Proof.
  intros Hq Hplain Hin Hv.
  assert (E : findQuery ms opts target (Some (OConditions w)) = Err TypeError).
  { unfold findQuery. rewrite Hq.
    cbn [res_bind getFindConditionsFromFindManyOptions].
    fold (relationArgs ms target).
    rewrite (foldRes_ext (findCondition ms (relationArgs ms target))
               (fun q c => plainCondition (fst c) (snd c) q) w).
    - now rewrite (plain_conditions_null w f v Hin Hv).
    - intros s [f' v'] Hin'. unfold findCondition.
      now rewrite (Hplain f' v' Hin'). }
  split.
  - now apply find_err.
  - unfold findOne.
    rewrite <- (plain_conditions_same_query ms opts target w Hplain), E.
    reflexivity.
Qed.

Lemma null_condition_is_a_TypeError_witness :
  find blogStorage (memFirestore blogStore) noOptions Post
       (Some (OConditions [("title", VStr "a"); ("deletedAt", VNull)]))
  = ([], Err TypeError)
  /\ findOne blogStorage (memFirestore blogStore) noOptions Post
       (Some (OConditions [("title", VStr "a"); ("deletedAt", VNull)]))
     = ([], Err TypeError).
Proof.
  apply (null_condition_is_a_TypeError blogStorage (memFirestore blogStore)
           noOptions Post [("title", VStr "a"); ("deletedAt", VNull)]
           "deletedAt" VNull
           {| q_source := QCollection "posts"; q_steps := [] |}).
  - reflexivity.
  - intros f v [H | [H | []]]; injection H as <- <-; reflexivity.
  - right. now left.
  - reflexivity.
Defined.

(** ** Pagination tokens *)



Lemma jsonValue_is_safe :
  forall v, v <> VUndefined -> jsonSafe (jsonValue v) = true.
Proof.
  induction v as [| | b | n | s | t | t | la lo | p | fields IH | items IH]
    using Value_nested_ind; intros Hv; try reflexivity; [congruence | |].
  - cbn [jsonValue jsonSafe]. clear Hv.
    induction IH as [| [k x] fields Hx _ IHf]; [reflexivity |].
    cbn [snd] in Hx.
    destruct x; try exact IHf;
      (apply andb_true_iff; split; [apply Hx; discriminate | exact IHf]).
  - cbn [jsonValue jsonSafe]. clear Hv.
    induction IH as [| x items Hx _ IHi]; [reflexivity |].
    cbn [map]. apply andb_true_iff. split; [| exact IHi].
    destruct x; try reflexivity; apply Hx; discriminate.
Qed.

Lemma jsonObj_idempotent (o : Obj) : jsonObj (jsonObj o) = jsonObj o.
Proof.
  assert (E : exists fields, jsonValue (VObj o) = VObj fields)
    by (cbn [jsonValue]; now eexists).
  destruct E as [fields E].
  assert (S : jsonSafe (VObj fields) = true).
  { rewrite <- E. apply jsonValue_is_safe. discriminate. }
  unfold jsonObj at 2 3. rewrite E. unfold jsonObj.
  now rewrite (jsonValue_safe (VObj fields) S).
Qed.

Lemma jsonOptions_idempotent (o : FindOptions) :
  jsonOptions (jsonOptions o) = jsonOptions o.
Proof.
  unfold jsonOptions. cbn [o_where o_select o_order o_limit o_offset
                           o_startAfter o_startAt o_endBefore o_endAt
                           o_relations].
  destruct (o_where o) as [w |]; cbn [option_map]; [| reflexivity].
  now rewrite jsonObj_idempotent.
Qed.

Lemma tokenOptions_resumed (ooc : option OptionsOrConditions)
  (cursor : list Cursor) :
  tokenOptions
    (Some (OOptions (withStartAfter (jsonOptions (tokenOptions ooc)) cursor)))
  = jsonOptions (tokenOptions ooc).
Proof.
  unfold tokenOptions, withStartAfter, jsonOptions.
  cbn [o_where o_select o_order o_limit o_offset o_startAfter o_startAt
       o_endBefore o_endAt o_relations getFindConditionsFromFindManyOptions].
  f_equal.
  destruct ooc as [[o | w] |]; try reflexivity.
  destruct (o_limit o) as [[| l] |]; reflexivity.
Qed.

Lemma findAndToken_token ms fs opts target ooc tok page :
  outcome (findAndToken ms fs opts target ooc) = Ok (Some tok, page) ->
  exists lastDocumentId,
    tok = jwt_sign {| tk_options := tokenOptions ooc;
                      tk_lastDocumentId := lastDocumentId |} "fireorm".
Proof.
  intros H. destruct (findAndToken_eq ms fs opts target ooc) as [_ E].
  destruct (outcome (find ms fs opts target ooc)) as [documents | e].
  - destruct (noToken (tokenOptions ooc) (List.length documents)).
    + rewrite E in H. discriminate.
    + destruct E as [idp [lastDocument [_ [_ E]]]]. rewrite E in H.
      injection H as <- _. now eexists.
  - rewrite E in H. discriminate.
Qed.

(** X16. Paging keeps the query shape.  When findAndToken returned a
    token and findByToken on that token returns a token again, the
    second token carries the same where, select, order and limit as the
    first (and no other option): page after page only lastDocumentId
    changes. *)
Theorem page_tokens_keep_the_query_shape
  (ms : MetadataStorage) (fs : Firestore) (opts : CollectionQueryOption)
  (target : JsFunction) (ooc : option OptionsOrConditions)
  (tok tok2 : Token) (page page2 : list (option Entity)) :
  outcome (findAndToken ms fs opts target ooc) = Ok (Some tok, page) ->
  outcome (findByToken ms fs opts target tok) = Ok (Some tok2, page2) ->
  exists payload payload2,
    jwt_verify tok "fireorm" = Some payload
    /\ jwt_verify tok2 "fireorm" = Some payload2
    /\ tk_options payload = jsonOptions (tokenOptions ooc)
    /\ tk_options payload2 = tk_options payload.
Proof.
  intros H1 H2.
  destruct (findAndToken_token ms fs opts target ooc tok page H1) as [id ->].
  pose proof (findByToken_eq ms fs opts target
                (jwt_sign {| tk_options := tokenOptions ooc;
                             tk_lastDocumentId := id |} "fireorm")) as E.
  rewrite jwt_verify_sign in E |- *. cbn [jsonToken tk_options tk_lastDocumentId] in E.
  destruct (truthy (jsonValue id)); [| rewrite E in H2; discriminate].
  destruct (getDocumentRef ms target (jsonValue id)) as [path |];
    [| rewrite E in H2; discriminate].
  destruct (ds_exists (fs_getDoc fs path)); [| rewrite E in H2; discriminate].
  destruct E as [_ E]. rewrite E in H2.
  destruct (findAndToken_token _ _ _ _ _ _ _ H2) as [id2 ->].
  rewrite jwt_verify_sign.
  eexists _, _. split; [reflexivity |]. split; [reflexivity |].
  cbn [jsonToken tk_options]. split; [reflexivity |].
  now rewrite tokenOptions_resumed, jsonOptions_idempotent.
Qed.

(** ** The value of a loaded relation *)

Lemma spliceRow_skips (cd : list (string * Value)) (r p : string) (row : Row) :
  forall x,
    NoDup (map fst row) ->
    assoc_get r row = Some p ->
    assoc_get p cd = None ->
    exists x', spliceRow cd row (Some x) = Some x'
               /\ obj_get r x' = obj_get r x.
Proof.
  induction row as [| [r0 p0] row IH]; intros x Hnd Hr Hp; [discriminate |].
  inversion Hnd as [| a l Hnotin Hnd']; subst.
  rewrite spliceRow_cons.
  cbn [assoc_get] in Hr. destruct (String.eqb r0 r) eqn:E.
  - apply String.eqb_eq in E. subst r0. injection Hr as ->.
    rewrite Hp. now apply spliceRow_keeps.
  - apply String.eqb_neq in E.
    destruct (assoc_get p0 cd) as [v0 |]; [| now apply IH].
    destruct (truthy v0); [| now apply IH].
    destruct (IH (obj_set r0 v0 x) Hnd' Hr Hp) as [x' [E1 E2]].
    exists x'. split; [assumption |].
    rewrite E2. unfold obj_get, obj_set. apply assoc_get_set_other.
    congruence.
Qed.

Lemma splicedData_value ms fs target docs relationNames idp cp result i d r p :
  getIdPropName ms target = Ok idp ->
  getCollectionPath ms target = Ok cp ->
  outcome (loadRelations ms fs target docs relationNames) = Ok result ->
  nth_error docs i = Some (Some d) ->
  In r (namesOf relationNames) ->
  resolvedPath ms target cp idp d r = Some p ->
  exists data' req,
    nth_error result i = Some (Some (transformToClass target data'))
    /\ In req (trace (loadRelations ms fs target docs relationNames))
    /\ fetch_path req = p
    /\ obj_get r data'
       = match resolved fs req with
         | Some v => Some v
         | None => obj_get r (docData idp d)
         end.
Proof.
  intros Eid Ecp Hres Hd Hr Hp.
  destruct (loadRelations_result ms fs target docs relationNames idp cp result
              Eid Ecp Hres) as [_ Hnth].
  specialize (Hnth i). rewrite Hd in Hnth. cbn [option_map] in Hnth.
  destruct (loadRelations_eq ms fs target docs relationNames) as [Et Eo].
  rewrite Eid, Ecp in Et, Eo. rewrite Eo in Hres.
  destruct (loadDocs_step ms fs target cp idp relationNames docs 0 [] [])
    as [Hnd Hok]; [constructor |].
  destruct (outcome (loadDocs ms fs target cp idp relationNames 0 docs ([], [])))
    as [[datas [m cache]] | e] eqn:E; [| discriminate].
  destruct (Hok datas m cache ltac:(first [exact eq_refl | exact E]))
    as [Hc [_ [_ [Hin _]]]].
  cbn [app] in Hc, Hnd. rewrite <- Et in Hc, Hnd.
  set (t := trace (loadRelations ms fs target docs relationNames)) in *.
  specialize (Hin i d r p Hd Hr Hp). rewrite Hc, map_fst_cacheEntryOf in Hin.
  apply in_map_iff in Hin. destruct Hin as [req [Hreq Hin]].
  assert (Hget : assoc_get p (map (cacheEntryOf fs) t) = Some (fetched fs req)).
  { apply assoc_get_In; [assumption |].
    apply in_map_iff. exists req. split; [| assumption].
    unfold cacheEntryOf. now rewrite Hreq. }
  assert (Hcd : assoc_get p (relationCacheData (map (cacheEntryOf fs) t))
                = resolved fs req).
  { rewrite relationCacheData_get by assumption. now rewrite Hget. }
  assert (Hrow : assoc_get r (expectedRow ms target cp idp d
                                (namesOf relationNames) []) = Some p)
    by now apply expectedRow_has.
  assert (Hnd' : NoDup (map fst (expectedRow ms target cp idp d
                                   (namesOf relationNames) [])))
    by (apply expectedRow_NoDup; constructor).
  unfold splicedData in Hnth. fold t in Hnth.
  destruct (resolved fs req) as [v |] eqn:Ev.
  - destruct (spliceRow_sets _ r p v _ (docData idp d) Hnd' Hrow Hcd)
      as [x' [Hx' Hobj]].
    { now apply (fetchedValue_truthy (fetched fs req)). }
    exists x', req. rewrite Hx' in Hnth.
    repeat split; [exact Hnth | assumption | assumption |].
    rewrite Ev. exact Hobj.
  - destruct (spliceRow_skips _ r p _ (docData idp d) Hnd' Hrow Hcd)
      as [x' [Hx' Hobj]].
    exists x', req. rewrite Hx' in Hnth.
    repeat split; [exact Hnth | assumption | assumption |].
    rewrite Ev. exact Hobj.
Qed.

(** X17. The value of a loaded many-to-one relation.  When no requested
    name is a one-to-many relation and loadRelations returns, the
    property of a many-to-one relation whose field holds a reference is,
    in the entity, the converted data of the referenced document as it
    is stored, without an id property of its own, when that document
    exists, and the id of the reference (the last segment of its path)
    when it does not: a dangling reference raises no error. *)
Theorem many_to_one_relation_value
  (ms : MetadataStorage) (fs : Firestore) (target : JsFunction)
  (docs : list (option DocumentSnapshot)) (names : list string)
  (idp cp : string) (result : list (option Entity)) (i : nat)
  (d : DocumentSnapshot) (r p : string) (arg : RelationMetadataArgs) :
  getIdPropName ms target = Ok idp ->
  getCollectionPath ms target = Ok cp ->
  noOneToMany ms target names ->
  outcome (loadRelations ms fs target docs (Some names)) = Ok result ->
  nth_error docs i = Some (Some d) ->
  In r names ->
  List.find (fun item => String.eqb (r_propertyName item) r)
            (relationArgs ms target) = Some arg ->
  r_relationType arg = ManyToOne ->
  obj_get r (docData idp d) = Some (VRef p) ->
  exists e,
    nth_error result i = Some (Some e)
    /\ e_class e = target
    /\ entity_prop e r
       = match ds_data (fs_getDoc fs p) with
         | Some o => VObj (convertToJsObject o)
         | None => VStr (last_segment p)
         end.
Proof.
  intros Eid Ecp Hno Hres Hd Hr Harg Htype Hfield.
  assert (Hp : resolvedPath ms target cp idp d r = Some p).
  { unfold resolvedPath, dot_pick. now rewrite Harg, Htype, Hfield. }
  destruct (splicedData_value ms fs target docs (Some names) idp cp result
              i d r p Eid Ecp Hres Hd Hr Hp)
    as [data' [req [Hnth [Hin [Hpath Hval]]]]].
  exists (transformToClass target data'). split; [assumption |].
  split; [reflexivity |].
  assert (Hreq : req = ReqDocGet p).
  { destruct (relation_reads_have_a_fixed_shape_aux ms fs target docs
                (Some names) idp cp req Eid Ecp Hin)
      as [d' [r' [_ [Hr' [arg' [Harg' Hshape]]]]]].
    pose proof (Hno r' arg' Hr' Harg') as Hne.
    destruct (r_relationType arg'); [congruence | | destruct Hshape].
    destruct Hshape as [p' [_ ->]]. cbn [fetch_path] in Hpath. now subst. }
  subst req. unfold resolved in Hval. cbn [fetched fetchedValue] in Hval.
  unfold entity_prop, transformToClass. cbn [e_props].
  rewrite obj_get_convert, Hval.
  destruct (ds_data (fs_getDoc fs p)) as [o |]; cbn [option_map].
  - reflexivity.
  - now rewrite Hfield.
Qed.

(** ** What find keeps of a document *)

Lemma keys_assoc_set_keeps {A} (k k' : string) (v : A) (o : list (string * A)) :
  In k (map fst o) -> In k (map fst (assoc_set k' v o)).
Proof.
  induction o as [| [k0 v0] o IH]; [intros [] |].
  cbn [assoc_set map fst]. destruct (String.eqb k0 k') eqn:E.
  - apply String.eqb_eq in E. subst k0. cbn [map fst]. tauto.
  - cbn [map fst]. intros [H | H]; [now left | right; now apply IH].
Qed.

Lemma keys_assoc_set_has {A} (k : string) (v : A) (o : list (string * A)) :
  In k (map fst (assoc_set k v o)).
Proof.
  destruct (in_dec string_dec k (map fst (assoc_set k v o))) as [H | H];
    [assumption |].
  apply assoc_get_None_keys in H. rewrite assoc_get_set_same in H.
  discriminate.
Qed.

Lemma spliceRow_keys (cd : list (string * Value)) (row : Row) :
  forall x x' k,
    spliceRow cd row (Some x) = Some x' ->
    In k (map fst x) -> In k (map fst x').
Proof.
  induction row as [| [r p] row IH]; intros x x' k H Hk.
  - cbn in H. now injection H as <-.
  - rewrite spliceRow_cons in H.
    destruct (assoc_get p cd) as [v |]; [| now apply (IH x)].
    destruct (truthy v); [| now apply (IH x)].
    apply (IH (obj_set r v x)); [assumption |].
    now apply keys_assoc_set_keeps.
Qed.

(** X18. find returns one entity for each document its query brought,
    in the order of the documents, none of them null; each is an
    instance of the class, and loading relations loses nothing: every
    key of the data of the document, and the id property, is a property
    of the entity. *)
Theorem find_keeps_every_field
  (ms : MetadataStorage) (fs : Firestore) (opts : CollectionQueryOption)
  (target : JsFunction) (ooc : option OptionsOrConditions)
  (ents : list (option Entity)) :
  outcome (find ms fs opts target ooc) = Ok ents ->
  exists q idp,
    findQuery ms opts target ooc = Ok q
    /\ getIdPropName ms target = Ok idp
    /\ List.length ents = List.length (queryDocs fs opts q)
    /\ forall i d,
         nth_error (queryDocs fs opts q) i = Some d ->
         exists e,
           nth_error ents i = Some (Some e)
           /\ e_class e = target
           /\ In idp (map fst (e_props e))
           /\ forall k, In k (map fst (ds_spread d)) ->
                        In k (map fst (e_props e)).
Proof.
  intros H.
  destruct (find_result ms fs opts target ooc ents H)
    as [q [idp [cp [Eq [Eid [Ecp [Hlen Hnth]]]]]]].
  exists q, idp. repeat split; try assumption.
  intros i d Hd. destruct (Hnth i d Hd) as [data' [He Hs]].
  exists (transformToClass target data'). split; [assumption |].
  split; [reflexivity |].
  assert (Hkeys : forall k, In k (map fst (docData idp d)) ->
                            In k (map fst (e_props (transformToClass target data')))).
  { intros k Hk. cbn [transformToClass e_props]. unfold convertToJsObject.
    rewrite map_map.
    rewrite (map_ext _ fst) by (now intros [? ?]).
    unfold splicedData in Hs. exact (spliceRow_keys _ _ _ _ k Hs Hk). }
  split.
  - apply Hkeys. unfold docData, obj_set. apply keys_assoc_set_has.
  - intros k Hk. apply Hkeys. unfold docData, obj_set.
    now apply keys_assoc_set_keeps.
Qed.

(** ** findOne and find *)

Lemma findQuery_limitOne ms opts target o :
  noCursor o ->
  (forall w, o_where o = Some w -> noRelationCondition ms target w) ->
  findQuery ms opts target (Some (OOptions (limitOne o)))
  = res_bind (findOneQuery ms opts target (Some (OOptions o)))
             (fun q => Ok (q_add q (SLimit 1))).
Proof.
  intros [H1 [H2 [H3 H4]]] Hw. unfold findQuery, findOneQuery.
  destruct (getQuery ms opts target) as [q0 | e]; [| reflexivity].
  cbn [res_bind getFindConditionsFromFindManyOptions
       getFindConditionsFromFindOneOptions limitOne o_where o_select o_order
       o_limit o_offset o_startAfter o_startAt o_endBefore o_endAt].
  rewrite H1, H2, H3, H4. cbn [opt_step truthy_num Nat.eqb negb].
  fold (relationArgs ms target).
  assert (E : match o_where o with
              | Some where_ =>
                  foldRes (findCondition ms (relationArgs ms target)) q0 where_
              | None => Ok q0
              end
              = match o_where o with
                | Some where_ =>
                    foldRes (findOneCondition ms (relationArgs ms target))
                            q0 where_
                | None => Ok q0
                end).
  { destruct (o_where o) as [w |]; [| reflexivity].
    apply foldRes_ext. intros s [f v] Hin.
    unfold findCondition, findOneCondition.
    now rewrite (Hw w eq_refl f v Hin). }
  rewrite E.
  destruct (match o_where o with
            | Some where_ =>
                foldRes (findOneCondition ms (relationArgs ms target)) q0 where_
            | None => Ok q0
            end); reflexivity.
Qed.

Lemma loadRelations_nil ms fs target names idp cp :
  getIdPropName ms target = Ok idp ->
  getCollectionPath ms target = Ok cp ->
  loadRelations ms fs target [] names = ([], Ok []).
Proof.
  intros Eid Ecp. unfold loadRelations. now rewrite Eid, Ecp.
Qed.

(** X19. findOne is find limited to one document.  For options without
    a cursor whose conditions are on fields that are not relations, on a
    class whose id property and collection path are found, and a query
    whose documents exist, findOne issues the reads of find on the same
    options with limit 1 (and no offset), resolves to the first entity
    find returns, to undefined when find returns none, and rejects as
    find rejects. *)
Theorem findOne_is_find_limited_to_one
  (ms : MetadataStorage) (fs : Firestore) (opts : CollectionQueryOption)
  (target : JsFunction) (o : FindOptions) (idp cp : string) :
  noCursor o ->
  (forall w, o_where o = Some w -> noRelationCondition ms target w) ->
  getIdPropName ms target = Ok idp ->
  getCollectionPath ms target = Ok cp ->
  (forall q d, findOneQuery ms opts target (Some (OOptions o)) = Ok q ->
               In d (queryDocs fs opts (q_add q (SLimit 1))) ->
               ds_exists d = true) ->
  trace (findOne ms fs opts target (Some (OOptions o)))
  = trace (find ms fs opts target (Some (OOptions (limitOne o))))
  /\ outcome (findOne ms fs opts target (Some (OOptions o)))
     = match outcome (find ms fs opts target (Some (OOptions (limitOne o))))
       with
       | Ok entities => Ok (first_of entities)
       | Err e => Err e
       end.
Proof.
  intros Hcur Hw Eid Ecp Hex.
  pose proof (findQuery_limitOne ms opts target o Hcur Hw) as Eq.
  destruct (findOneQuery ms opts target (Some (OOptions o))) as [q | e] eqn:E1.
  - cbn [res_bind] in Eq.
    rewrite (find_as_pair ms fs opts target _ _ Eq).
    cbn [trace outcome fst snd relationsOf limitOne o_relations].
    unfold findOne. rewrite E1. cbn [lift bind]. rewrite runQuery_read.
    cbn [bind app]. specialize (Hex q).
    destruct (queryDocs fs opts (q_add q (SLimit 1))) as [| d docs].
    + cbn [map]. rewrite (loadRelations_nil ms fs target _ idp cp Eid Ecp).
      split; reflexivity.
    + rewrite (Hex d eq_refl (or_introl eq_refl)). cbn [negb].
      set (LR := loadRelations ms fs target (map Some (d :: docs)) _).
      rewrite (M_eta LR). destruct (outcome LR) as [entities | e];
        cbn [bind ret trace outcome fst snd app]; rewrite ?app_nil_r;
        split; reflexivity.
  - cbn [res_bind] in Eq. rewrite (find_err ms fs opts target _ e Eq).
    unfold findOne. rewrite E1. split; reflexivity.
Qed.

(** ** Two one-to-many relations of one document *)

Lemma convertValue_related (docs : list DocumentSnapshot) :
  convertValue (VArr (map (fun doc => VObj (ds_spread doc)) docs))
  = relatedData docs.
Proof.
  unfold relatedData. cbn [convertValue]. now rewrite map_map.
Qed.

(** X21. The cache of loadRelations is keyed by the path alone, and
    for a one-to-many relation the path is that of the document, not of
    the relation.  When two one-to-many relations of a class are
    requested together for a document, only the query of the first is
    issued, and both properties of the entity are set to the documents
    that this one query brought: the second relation holds the
    documents of the first. *)
Theorem two_one_to_many_relations_share_one_read
  (ms : MetadataStorage) (fs : Firestore) (target : JsFunction)
  (d : DocumentSnapshot) (idp cp r1 r2 rp1 rp2 : string)
  (arg1 arg2 : RelationMetadataArgs) (c1 c2 : JsFunction) :
  getIdPropName ms target = Ok idp ->
  getCollectionPath ms target = Ok cp ->
  r1 <> r2 ->
  List.find (fun item => String.eqb (r_propertyName item) r1)
            (relationArgs ms target) = Some arg1 ->
  r_relationType arg1 = OneToMany ->
  call_fn (r_type arg1) = Ok c1 -> getCollectionPath ms c1 = Ok rp1 ->
  List.find (fun item => String.eqb (r_propertyName item) r2)
            (relationArgs ms target) = Some arg2 ->
  r_relationType arg2 = OneToMany ->
  call_fn (r_type arg2) = Ok c2 -> getCollectionPath ms c2 = Ok rp2 ->
  exists e,
    loadRelations ms fs target [Some d] (Some [r1; r2])
    = ([ReqQueryGet (inverseQuery rp1 (r_inverseSide arg1)
                                  (cp ++ "/" ++ ds_id d))],
       Ok [Some e])
    /\ entity_prop e r1
       = relatedData (fs_getQuery fs (inverseQuery rp1 (r_inverseSide arg1)
                                                   (cp ++ "/" ++ ds_id d)))
    /\ entity_prop e r2 = entity_prop e r1.
Proof.
  intros Eid Ecp Hne H1 T1 C1 P1 H2 T2 C2 P2.
  set (path := (cp ++ "/" ++ ds_id d)%string).
  set (q1 := inverseQuery rp1 (r_inverseSide arg1) path).
  set (v := VArr (map (fun doc => VObj (ds_spread doc)) (fs_getQuery fs q1))).
  set (data := docData idp d).
  assert (Hid : (cp ++ "/" ++
                 toStr match obj_get idp data with
                       | Some x => x
                       | None => VUndefined
                       end)%string = path).
  { unfold data, docData, obj_get, obj_set. now rewrite assoc_get_set_same. }
  assert (Hne' : String.eqb r1 r2 = false) by now apply String.eqb_neq.
  assert (L1 : loadRelation ms fs cp idp (relationArgs ms target) 0 data
                            ([], []) r1
               = ([ReqQueryGet q1],
                  Ok ([[(r1, path)]], [(path, FetchedQuery (fs_getQuery fs q1))]))).
  { unfold loadRelation. rewrite H1, T1, C1. cbn [lift bind app].
    rewrite P1. cbn [bind app]. rewrite Hid. reflexivity. }
  assert (L2 : loadRelation ms fs cp idp (relationArgs ms target) 0 data
                 ([[(r1, path)]], [(path, FetchedQuery (fs_getQuery fs q1))]) r2
               = ([], Ok ([[(r1, path); (r2, path)]],
                          [(path, FetchedQuery (fs_getQuery fs q1))]))).
  { unfold loadRelation. rewrite H2, T2, C2. cbn [lift bind app].
    rewrite P2. cbn [bind app]. rewrite Hid.
    cbn [ensureRow nth_error assignRow replace_nth assoc_set assoc_get].
    rewrite Hne', String.eqb_refl. reflexivity. }
  exists (transformToClass target (obj_set r2 v (obj_set r1 v data))).
  split; [| split].
  - unfold loadRelations. rewrite Eid, Ecp. cbn [lift bind app].
    cbn [loadDocs loadDoc]. fold (relationArgs ms target).
    change (obj_set idp (VStr (ds_id d)) (ds_spread d)) with data.
    cbn [foldM]. rewrite L1. cbn [bind app]. rewrite L2.
    cbn [bind ret app fst snd spliceRelations flatten flattenFrom map
         fold_left relationCacheData cacheEntry assoc_set].
    fold v. unfold spliceOne. cbn [assoc_get]. rewrite String.eqb_refl.
    cbn [truthy dot_set nth_error replace_nth option_map].
    reflexivity.
  - unfold entity_prop, transformToClass. cbn [e_props].
    rewrite obj_get_convert. unfold obj_get, obj_set.
    rewrite assoc_get_set_other by exact Hne.
    rewrite assoc_get_set_same. cbn [option_map]. apply convertValue_related.
  - unfold entity_prop, transformToClass. cbn [e_props].
    rewrite !obj_get_convert. unfold obj_get, obj_set.
    rewrite (assoc_get_set_other r1 r2) by exact Hne.
    now rewrite !assoc_get_set_same.
Qed.

Lemma two_one_to_many_relations_share_one_read_witness :
  exists e,
    loadRelations twoManyStorage (memFirestore twoManyStore) Post
      [Some {| ds_path := "posts/p1"; ds_data := Some [("title", VStr "a")] |}]
      (Some ["comments"; "likes"])
    = ([ReqQueryGet (inverseQuery "comments" "post" "posts/p1")], Ok [Some e])
    /\ entity_prop e "comments"
       = relatedData (mem_getQuery twoManyStore
                        (inverseQuery "comments" "post" "posts/p1"))
    /\ entity_prop e "likes" = entity_prop e "comments".
Proof.
  apply (two_one_to_many_relations_share_one_read
           twoManyStorage (memFirestore twoManyStore) Post
           {| ds_path := "posts/p1"; ds_data := Some [("title", VStr "a")] |}
           "id" "posts" "comments" "likes" "comments" "likes"
           {| r_target := Post; r_propertyName := "comments";
              r_relationType := OneToMany; r_lazy := false;
              r_type := ArrowFn Comment; r_inverseSide := "post" |}
           {| r_target := Post; r_propertyName := "likes";
              r_relationType := OneToMany; r_lazy := false;
              r_type := ArrowFn Like; r_inverseSide := "post" |}
           Comment Like); try reflexivity.
  discriminate.
Defined.

(** ** A reference as the condition on a relation *)

(** X22. find takes a DocumentReference given as the condition on a
    relation field as it is and compares the field with it; findOne
    does not test for a reference: it appends the value to the
    collection path of the related class as a string, and so compares
    the field with the reference relationCollectionPath/[object Object]
    whatever reference was given. *)
Theorem reference_condition_on_a_relation
  (ms : MetadataStorage) (opts : CollectionQueryOption) (target : JsFunction)
  (fieldPath path : string) (arg : RelationMetadataArgs) (q0 : Query)
  (relationClass : JsFunction) (relationCollectionPath : string) :
  getQuery ms opts target = Ok q0 ->
  List.find (fun item => String.eqb (r_propertyName item) fieldPath)
            (relationArgs ms target) = Some arg ->
  call_fn (r_type arg) = Ok relationClass ->
  getCollectionPath ms relationClass = Ok relationCollectionPath ->
  findQuery ms opts target (Some (OConditions [(fieldPath, VRef path)]))
  = Ok (q_add q0 (SWhere fieldPath (VStr "==") (VRef path)))
  /\ findOneQuery ms opts target (Some (OConditions [(fieldPath, VRef path)]))
     = Ok (q_add q0 (SWhere fieldPath (VStr "==")
                       (VRef (relationCollectionPath ++ "/[object Object]")))).
Proof.
  intros Hq Harg Hc Hp. unfold findQuery, findOneQuery. rewrite Hq.
  cbn [res_bind getFindConditionsFromFindManyOptions
       getFindConditionsFromFindOneOptions foldRes].
  fold (relationArgs ms target).
  unfold findCondition, findOneCondition. rewrite Harg, Hc.
  cbn [is_ref negb res_bind]. rewrite Hp. split; reflexivity.
Qed.

Lemma reference_condition_on_a_relation_witness :
  findQuery blogStorage noOptions Post
    (Some (OConditions [("author", VRef "users/u1")]))
  = Ok (q_add {| q_source := QCollection "posts"; q_steps := [] |}
              (SWhere "author" (VStr "==") (VRef "users/u1")))
  /\ findOneQuery blogStorage noOptions Post
       (Some (OConditions [("author", VRef "users/u1")]))
     = Ok (q_add {| q_source := QCollection "posts"; q_steps := [] |}
                 (SWhere "author" (VStr "==")
                    (VRef ("users" ++ "/[object Object]")))).
Proof.
  apply (reference_condition_on_a_relation blogStorage noOptions Post
           "author" "users/u1"
           {| r_target := Post; r_propertyName := "author";
              r_relationType := ManyToOne; r_lazy := false;
              r_type := ArrowFn User; r_inverseSide := "" |}
           {| q_source := QCollection "posts"; q_steps := [] |}
           User "users"); reflexivity.
Defined.
(** ** Closed instances *)

Lemma relation_reads_have_a_fixed_shape_witness :
  exists d r,
    In (Some d) [Some p1Snapshot] /\ In r (namesOf (Some ["comments"]))
    /\ relationRead blogStorage Post "posts" "id" d r
         (ReqQueryGet {| q_source := QCollection "comments";
                         q_steps := [SWhere "post" (VStr "==")
                                            (VRef "posts/p1")] |}).
Proof.
  apply (relation_reads_have_a_fixed_shape blogStorage (memFirestore blogStore)
           Post [Some p1Snapshot] (Some ["comments"]) "id" "posts").
  - reflexivity.
  - reflexivity.
  - vm_compute. now left.
Defined.

Lemma relation_reads_bypass_the_transaction_witness :
  exists rest,
    trace (find blogStorage (memFirestore blogStore) txOptions Post
                (Some (OOptions (relationsOnly ["author"]))))
    = ReqTxGet {| q_source := QCollection "posts"; q_steps := [] |} :: rest
    /\ Forall (fun r => isTxRead r = false) rest.
Proof.
  apply (proj1 (proj2 (relation_reads_bypass_the_transaction
                         blogStorage (memFirestore blogStore) txOptions Post
                         (memTransaction blogStore) eq_refl))).
  reflexivity.
Defined.

Lemma undeclared_relations_are_skipped_witness :
  find blogStorage (memFirestore blogStore) noOptions Post
       (Some (OOptions (withRelations noFindOptions (Some ["editor"]))))
  = find blogStorage (memFirestore blogStore) noOptions Post
         (Some (OOptions (withRelations noFindOptions None))).
Proof.
  apply (proj2 (undeclared_relations_are_skipped
                  blogStorage (memFirestore blogStore) noOptions Post
                  ["editor"]
                  (fun r H => match H with
                              | or_introl E =>
                                  eq_ind "editor"
                                    (fun s => pushes blogStorage Post s = false)
                                    eq_refl r E
                              | or_intror F => match F with end
                              end))).
Defined.

Lemma page_tokens_keep_the_query_shape_witness :
  exists payload payload2,
    jwt_verify (Jwt "fireorm" {| tk_options := byTitle (Some 1) None;
                                 tk_lastDocumentId := VStr "p1" |}) "fireorm"
    = Some payload
    /\ jwt_verify (Jwt "fireorm" {| tk_options := byTitle (Some 1) None;
                                    tk_lastDocumentId := VStr "p2" |})
                  "fireorm"
       = Some payload2
    /\ tk_options payload
       = jsonOptions (tokenOptions (Some (OOptions (byTitle (Some 1) None))))
    /\ tk_options payload2 = tk_options payload.
Proof.
  apply (page_tokens_keep_the_query_shape
           blogStorage (memFirestore blogStore) noOptions Post
           (Some (OOptions (byTitle (Some 1) None)))
           (Jwt "fireorm" {| tk_options := byTitle (Some 1) None;
                             tk_lastDocumentId := VStr "p1" |})
           (Jwt "fireorm" {| tk_options := byTitle (Some 1) None;
                             tk_lastDocumentId := VStr "p2" |})
           [Some p1Entity] [Some p2Entity]).
  - reflexivity.
  - reflexivity.
Defined.

Lemma many_to_one_relation_value_witness :
  exists e,
    nth_error
      [Some {| e_class := Post;
               e_props := [("title", VStr "a");
                           ("author", VObj [("name", VStr "Ann")]);
                           ("id", VStr "p1")] |}] 0
    = Some (Some e)
    /\ e_class e = Post
    /\ entity_prop e "author" = VObj [("name", VStr "Ann")].
Proof.
  apply (many_to_one_relation_value
           blogStorage (memFirestore blogStore) Post [Some p1Snapshot]
           ["author"] "id" "posts"
           [Some {| e_class := Post;
                    e_props := [("title", VStr "a");
                                ("author", VObj [("name", VStr "Ann")]);
                                ("id", VStr "p1")] |}]
           0 p1Snapshot "author" "users/u1"
           {| r_target := Post; r_propertyName := "author";
              r_relationType := ManyToOne; r_lazy := false;
              r_type := ArrowFn User; r_inverseSide := "" |}).
  - reflexivity.
  - reflexivity.
  - intros r arg [<- | []] H. vm_compute in H. injection H as <-.
    discriminate.
  - reflexivity.
  - reflexivity.
  - now left.
  - reflexivity.
  - reflexivity.
  - reflexivity.
Defined.

Lemma find_keeps_every_field_witness :
  exists q idp,
    findQuery blogStorage noOptions Post None = Ok q
    /\ getIdPropName blogStorage Post = Ok idp
    /\ List.length [Some p1Entity; Some p2Entity]
       = List.length (queryDocs (memFirestore blogStore) noOptions q)
    /\ forall i d,
         nth_error (queryDocs (memFirestore blogStore) noOptions q) i = Some d ->
         exists e,
           nth_error [Some p1Entity; Some p2Entity] i = Some (Some e)
           /\ e_class e = Post
           /\ In idp (map fst (e_props e))
           /\ forall k, In k (map fst (ds_spread d)) ->
                        In k (map fst (e_props e)).
Proof.
  apply (find_keeps_every_field blogStorage (memFirestore blogStore)
           noOptions Post None [Some p1Entity; Some p2Entity]).
  reflexivity.
Defined.

Lemma findOne_is_find_limited_to_one_witness :
  trace (findOne blogStorage (memFirestore blogStore) noOptions Post
                 (Some (OOptions (byTitle None None))))
  = trace (find blogStorage (memFirestore blogStore) noOptions Post
                (Some (OOptions (limitOne (byTitle None None)))))
  /\ outcome (findOne blogStorage (memFirestore blogStore) noOptions Post
                      (Some (OOptions (byTitle None None))))
     = match outcome (find blogStorage (memFirestore blogStore) noOptions Post
                           (Some (OOptions (limitOne (byTitle None None)))))
       with
       | Ok entities => Ok (first_of entities)
       | Err e => Err e
       end.
Proof.
  apply (findOne_is_find_limited_to_one blogStorage (memFirestore blogStore)
           noOptions Post (byTitle None None) "id" "posts").
  - repeat split.
  - intros w H. discriminate H.
  - reflexivity.
  - reflexivity.
  - intros q d H. injection H as <-. vm_compute.
    intros [<- | []]. reflexivity.
Defined.
